(** * Gravitae: the deterministic simulation core, embedded in Rocq

  A shallow embedding of the TypeScript sources of the Gravitae panel
  (geometry pipeline, animation-plan builder, simulation runner) together
  with the properties its specification states about them.

  Conventions of the embedding.
  - A JavaScript [number] that the code computes with is an exact rational
    ([Q]); rounding to binary64 and overflow are outside the model.  Where
    the code tests a value for finiteness the value is a [JS.number], which
    adds [NaN] and the two infinities.
  - Frame indices and counters are integers ([Z]).
  - [Math.round] rounds half up, as ECMAScript defines it.
  - An optional field ([x?: T], [T | null], [T | undefined]) is an [option].
  - A thrown [TypeError] is the result [None] of a fallible function. *)

From Stdlib Require Import ZArith QArith Qround Qminmax Qabs List Bool String Lia Lqa.
From Stdlib Require Import Sorting.Sorted Sorting.Permutation.
Import ListNotations.

Local Open Scope Z_scope.

(* ------------------------------------------------------------------ *)
(** ** JavaScript primitives used by the sources *)

Module JS.

(** [Math.round]: the integer nearest to [x], ties towards +infinity. *)
Definition round (x : Q) : Z := Qfloor (x + (1 # 2)).

(** [Math.ceil] and [Math.floor]. *)
Definition ceil (x : Q) : Z := Qceiling x.
Definition floor (x : Q) : Z := Qfloor x.

(** Truthiness of a finite number: every number but zero. *)
Definition truthy (x : Q) : bool := negb (Qeq_bool x 0).

(** [a || b] on numbers. *)
Definition or_else (a : option Q) (b : Q) : Q :=
  match a with
  | Some x => if truthy x then x else b
  | None => b
  end.

(** A number as [isFinite] and [isNaN] see it. *)
Inductive number : Type :=
| Num (q : Q)
| PosInf
| NegInf
| NaN.

Definition isFinite (n : number) : bool :=
  match n with Num _ => true | _ => false end.

Definition isNaN (n : number) : bool :=
  match n with NaN => true | _ => false end.

(** [xs[i]] for a numeric index: [None] is [undefined]. *)
Definition index {A : Type} (xs : list A) (i : Z) : option A :=
  if i <? 0 then None else nth_error xs (Z.to_nat i).

(** [xs.length]. *)
Definition length {A : Type} (xs : list A) : Z := Z.of_nat (List.length xs).

(** An upper bound that may be [Infinity]. *)
Inductive bound : Type :=
| Finite (z : Z)
| Infinity.

(** [n >= b]. *)
Definition geb_bound (n : Z) (b : bound) : bool :=
  match b with
  | Finite z => z <=? n
  | Infinity => false
  end.

End JS.

(* ------------------------------------------------------------------ *)
(** ** Visibility gating: simulation/simInOutPoints.ts, [checkInOutStatus] *)

Module InOut.

Record InOutResult : Type := {
  isDisabled : bool;
  isAtInPoint : bool;
  inPointAfterWorkarea : bool
}.

(** [inOut && inOut[k]], as a number when it is truthy. *)
Definition truthy_at (inOut : option (list Q)) (k : nat) : option Q :=
  match inOut with
  | Some l =>
      match nth_error l k with
      | Some t => if JS.truthy t then Some t else None
      | None => None
      end
  | None => None
  end.

Definition inPointFrame (inOut : option (list Q)) (compFramerate : Q) : Z :=
  match truthy_at inOut 0 with
  | Some t => JS.round (t * compFramerate)
  | None => 0
  end.

Definition outPointFrame (inOut : option (list Q)) (compFramerate : Q) : JS.bound :=
  match truthy_at inOut 1 with
  | Some t => JS.Finite (JS.round (t * compFramerate))
  | None => JS.Infinity
  end.

Definition checkInOutStatus (inOut : option (list Q)) (nextCompFrame : Z)
    (compFramerate workareaStart : Q) : InOutResult :=
  let inF := inPointFrame inOut compFramerate in
  let outF := outPointFrame inOut compFramerate in
  let workareaStartFrame := JS.round (workareaStart * compFramerate) in
  let isBeforeInPoint := (workareaStartFrame <? inF) && (nextCompFrame <? inF) in
  let isAfterOutPoint := JS.geb_bound nextCompFrame outF in
  {| isDisabled := isBeforeInPoint || isAfterOutPoint;
     isAtInPoint := nextCompFrame =? inF;
     inPointAfterWorkarea := workareaStartFrame <? inF |}.

(** The gating property as the specification words it, for a body whose
    in and out seconds are [tin] and [tout]: the frames are the rounded
    products with the framerate. *)
Definition gating_as_stated (tin tout compFramerate workareaStart : Q) : Prop :=
  let F_in := JS.round (tin * compFramerate) in
  let F_out := JS.round (tout * compFramerate) in
  let ws := JS.round (workareaStart * compFramerate) in
  let dis f := isDisabled (checkInOutStatus (Some [tin; tout]) f compFramerate workareaStart) in
  ws < F_in ->
  (forall f, ws <= f < F_in -> dis f = true) /\
  (forall f, F_out <= f -> dis f = true) /\
  (forall f, F_in <= f < F_out -> dis f = false).

End InOut.


(* ------------------------------------------------------------------ *)
(** ** Host data and the animation plan: types/types.ts, utils/animationPlan.ts *)

Module Plan.

(** [lastKeyFrame: { frame, isHold } | null] of a sampled property. *)
Record LastKeyFrame : Type := {
  frame : Z;
  isHold : bool
}.

(** [AnimatedSeries<T>]: the pre-work-area sample, one sample per frame and
    the last keyframe, when the property has keyframes. *)
Record AnimatedSeries (T : Type) : Type := {
  preValue : T;
  values : list T;
  lastKeyFrame : option LastKeyFrame
}.
Arguments preValue {T} _.
Arguments values {T} _.
Arguments lastKeyFrame {T} _.

(** [Layer.animatedProperties].  The host adapter only adds the properties it
    sampled, and the builder reads each with [?.], so each one is optional. *)
Record AnimatedProperties : Type := {
  ap_position : option (AnimatedSeries (Q * Q));
  ap_rotation : option (AnimatedSeries Q);
  ap_scale : option (AnimatedSeries (Q * Q));
  ap_anchorPoint : option (AnimatedSeries (Q * Q));
  ap_bodyType : option (AnimatedSeries Q);
  ap_density : option (AnimatedSeries Q);
  ap_friction : option (AnimatedSeries Q);
  ap_frictionAir : option (AnimatedSeries Q);
  ap_restitution : option (AnimatedSeries Q)
}.

(** [startPropertiesValues] of a layer. *)
Record StartProperties : Type := {
  sp_bodyType : Q;
  sp_density : Q;
  sp_friction : Q;
  sp_frictionAir : Q;
  sp_restitution : Q
}.

(** The fields of [BaseLayer] that the plan builder and the body synthesizer
    read. *)
Record Layer : Type := {
  name : string;
  layer_isStatic : option bool;
  inOut : option (list Q);
  animatedProperties : option AnimatedProperties;
  startPropertiesValues : option StartProperties
}.

(** [CompositionData.animatedGravityProperties]. *)
Record AnimatedGravity : Type := {
  ag_gravityAngle : option (AnimatedSeries Q);
  ag_gravityScale : option (AnimatedSeries Q);
  ag_drag : option (AnimatedSeries Q)
}.

(** [CompositionData]: the layers in the order [Object.entries] lists them,
    and the gravity settings.  A static gravity value is the number itself
    or the first element of the array the host sent, when that is a number. *)
Record CompositionData : Type := {
  layers : list (Z * Layer);
  gravityAngle : option Q;
  gravityScale : option Q;
  drag : option Q;
  animatedGravityProperties : option AnimatedGravity
}.

(** [ProjectCompositions]: compositions by id. *)
Definition ProjectCompositions : Type := list (Z * CompositionData).

(** [data[compId]]. *)
Fixpoint lookup {A : Type} (k : Z) (m : list (Z * A)) : option A :=
  match m with
  | [] => None
  | (k', a) :: m' => if k =? k' then Some a else lookup k m'
  end.

(** One series of the plan: [{ pre, values, last?, isHold? }]. *)
Record Series (T : Type) : Type := {
  pre : T;
  svalues : list T;
  last : option Z;
  hold : option bool
}.
Arguments pre {T} _.
Arguments svalues {T} _.
Arguments last {T} _.
Arguments hold {T} _.

(** One entry of [AnimationPlan.layers]. *)
Record LayerPlan : Type := {
  lp_name : string;
  position : option (Series (Q * Q));
  rotation : option (Series Q);
  scale : option (Series (Q * Q));
  anchorPoint : option (Series (Q * Q));
  density : option (Series Q);
  friction : option (Series Q);
  frictionAir : option (Series Q);
  restitution : option (Series Q);
  bodyType : option (Series Q)
}.

Record AnimationPlan : Type := {
  physicsStartFrame : Z;
  plan_layers : list (Z * LayerPlan)
}.

(** [if (ap.p?.lastKeyFrame) layerPlan.p = { pre, values, last, isHold }]:
    position and rotation carry the hold flag. *)
Definition collectHold {T : Type} (s : option (AnimatedSeries T)) : option (Series T) :=
  match s with
  | Some a =>
      match lastKeyFrame a with
      | Some k =>
          Some {| pre := preValue a; svalues := values a;
                  last := Some (frame k); hold := Some (isHold k) |}
      | None => None
      end
  | None => None
  end.

(** The same for the series that are collected without a hold flag. *)
Definition collect {T : Type} (s : option (AnimatedSeries T)) : option (Series T) :=
  match s with
  | Some a =>
      match lastKeyFrame a with
      | Some k =>
          Some {| pre := preValue a; svalues := values a;
                  last := Some (frame k); hold := None |}
      | None => None
      end
  | None => None
  end.

Definition isSome {A : Type} (o : option A) : bool :=
  match o with Some _ => true | None => false end.

(** The body of the [forEach] callback for a layer that has
    [animatedProperties]. *)
Definition planLayer (l : Layer) (ap : AnimatedProperties) : LayerPlan :=
  {| lp_name := name l;
     position := collectHold (ap_position ap);
     rotation := collectHold (ap_rotation ap);
     scale := collect (ap_scale ap);
     anchorPoint := collect (ap_anchorPoint ap);
     density := collect (ap_density ap);
     friction := collect (ap_friction ap);
     frictionAir := collect (ap_frictionAir ap);
     restitution := collect (ap_restitution ap);
     bodyType := collect (ap_bodyType ap) |}.

(** [layerPlan.position || layerPlan.rotation || ...]. *)
Definition nonEmpty (p : LayerPlan) : bool :=
  isSome (position p) || isSome (rotation p) || isSome (scale p)
  || isSome (anchorPoint p) || isSome (density p) || isSome (friction p)
  || isSome (frictionAir p) || isSome (restitution p) || isSome (bodyType p).

(** [layersPlan[id] = layerPlan] on the plan built so far. *)
Fixpoint assign (k : Z) (p : LayerPlan) (m : list (Z * LayerPlan)) : list (Z * LayerPlan) :=
  match m with
  | [] => [(k, p)]
  | (k', p') :: m' => if k =? k' then (k, p) :: m' else (k', p') :: assign k p m'
  end.

(** One iteration of [Object.entries(compLayers).forEach]: the state is the
    pair of [lastPositionFrame] and [layersPlan]. *)
Definition planStep (st : Z * list (Z * LayerPlan)) (entry : Z * Layer)
  : Z * list (Z * LayerPlan) :=
  let '(lastPositionFrame, layersPlan) := st in
  let '(layerId, l) := entry in
  match animatedProperties l with
  | None => st
  | Some ap =>
      let lp := planLayer l ap in
      let lastPositionFrame' :=
        match position lp with
        | Some s =>
            match last s with
            | Some f => Z.max lastPositionFrame f
            | None => lastPositionFrame
            end
        | None => lastPositionFrame
        end in
      (lastPositionFrame',
       if nonEmpty lp then assign layerId lp layersPlan else layersPlan)
  end.

(** The composition the builder works on: none when the id is null or 0
    ([!compId]) or the project has no entry for it. *)
Definition selected (currentCompId : option Z) (compData : option ProjectCompositions)
  : option CompositionData :=
  match currentCompId, compData with
  | Some compId, Some data => if compId =? 0 then None else lookup compId data
  | _, _ => None
  end.

Definition buildAnimationPlan (currentCompId : option Z)
    (compData : option ProjectCompositions) : AnimationPlan :=
  match selected currentCompId compData with
  | None => {| physicsStartFrame := -1; plan_layers := [] |}
  | Some comp =>
      let '(lastPositionFrame, layersPlan) := fold_left planStep (layers comp) (-1, []) in
      {| physicsStartFrame := lastPositionFrame; plan_layers := layersPlan |}
  end.

(** A composition that holds the given layers and no gravity settings. *)
Definition layersOnly (ls : list (Z * Layer)) : CompositionData :=
  {| layers := ls; gravityAngle := None; gravityScale := None; drag := None;
     animatedGravityProperties := None |}.

(** The position last-keyframe frame of a layer, when it has one. *)
Definition positionLast (l : Layer) : option Z :=
  match animatedProperties l with
  | Some ap =>
      match ap_position ap with
      | Some s => option_map frame (lastKeyFrame s)
      | None => None
      end
  | None => None
  end.

(** The position last-keyframe frames of the layers of a composition. *)
Fixpoint positionLastFrames (ls : list (Z * Layer)) : list Z :=
  match ls with
  | [] => []
  | (_, l) :: ls' =>
      match positionLast l with
      | Some f => f :: positionLastFrames ls'
      | None => positionLastFrames ls'
      end
  end.

(** [m] is the maximum of the non-empty list [fs]. *)
Definition is_max (m : Z) (fs : list Z) : Prop :=
  In m fs /\ Forall (fun f => f <= m) fs.

(** The gating frame as the specification words it: the maximum position
    last-keyframe frame over the layers, and -1 when no layer has one. *)
Definition physicsStart_as_stated (compId : Z) (data : ProjectCompositions) : Prop :=
  match selected (Some compId) (Some data) with
  | Some comp =>
      let r := physicsStartFrame (buildAnimationPlan (Some compId) (Some data)) in
      let fs := positionLastFrames (layers comp) in
      (fs <> [] -> is_max r fs) /\ (fs = [] -> r = -1)
  | None => True
  end.

(** A layer named [n] whose only animated property is a position series with
    its last keyframe at frame [f]. *)
Definition positionOnlyLayer (n : string) (f : Z) : Layer :=
  {| name := n;
     layer_isStatic := None;
     inOut := None;
     animatedProperties :=
       Some {| ap_position :=
                 Some {| preValue := (0%Q, 0%Q); values := [];
                         lastKeyFrame := Some {| frame := f; isHold := false |} |};
               ap_rotation := None; ap_scale := None; ap_anchorPoint := None;
               ap_bodyType := None; ap_density := None; ap_friction := None;
               ap_frictionAir := None; ap_restitution := None |};
     startPropertiesValues := None |}.

End Plan.


(* ------------------------------------------------------------------ *)
(** ** Rigid bodies

    Matter.js is a collaborator of the sources, not part of them.  A body is
    the record of the fields the sources read or write; a call into the
    library is an [Effect] whose action on those fields is the one the
    library documents.  Every function of the sources that mutates a body is a
    command: it maps the body to the mutated body and the trace of the
    effects it performed, in order. *)

Module Matter.

Record Vector : Type := { x : Q; y : Q }.

(** [body.render]. *)
Record Render : Type := {
  opacity : Q;
  fillStyle : option string;
  strokeStyle : option string
}.

(** The "initial properties" record that [createMatterBody] stores. *)
Record InitialProperties : Type := {
  ip_mass : JS.number;
  ip_inertia : JS.number;
  ip_density : Q;
  ip_friction : Q;
  ip_frictionAir : Q;
  ip_restitution : Q
}.

(** The snapshot [setBodyType] takes before it makes a body static. *)
Record DynamicProperties : Type := {
  dp_mass : JS.number;
  dp_inertia : JS.number;
  dp_friction : JS.number;
  dp_frictionAir : JS.number;
  dp_restitution : JS.number
}.

(** [body.plugin.layerData]. *)
Record LayerData : Type := {
  ld_inOut : list Q;
  ld_layerId : Z;
  ld_isStaticInitial : option bool
}.

(** [body.plugin]: Matter creates every body with a plugin object. *)
Record Plugin : Type := {
  layerData : option LayerData;
  scaleX : option Q;
  scaleY : option Q;
  initialProperties : option InitialProperties;
  dynamicProperties : option DynamicProperties;
  plugin_isStatic : option bool;
  plugin_isStaticInitial : option bool;
  originalFillStyle : option string;
  originalStrokeStyle : option string
}.

(** An angle of [q * pi] radians is kept as [q]: every angle the sources
    write is a rational number of degrees times [pi / 180]. *)
Definition Angle : Type := JS.number.

(** A body.  [children] are the renders of the parts other than the body
    itself ([body.parts] without its first element); [None] is a part
    without [render]. *)
Record Body : Type := {
  id : Z;
  position : Vector;
  velocity : Vector;
  angle : Angle;
  angularVelocity : Angle;
  isStatic : bool;
  isSleeping : bool;
  mass : JS.number;
  inertia : JS.number;
  density : JS.number;
  friction : JS.number;
  frictionAir : JS.number;
  restitution : JS.number;
  render : option Render;
  children : list (option Render);
  category : Z;
  mask : Z;
  plugin : Plugin
}.

(** What a command does to a body: a call into Matter.js or an assignment to
    a field. *)
Inductive Effect : Type :=
| Sleeping_set (isSleeping : bool)
| Body_setPosition (p : Vector)
| Body_setVelocity (v : Vector)
| Body_setAngle (a : Angle)
| Body_setAngularVelocity (w : Angle)
| Body_scale (sx sy : Q)
| Body_setDensity (d : JS.number)
| Body_setStatic (isStatic : bool)
| Body_setMass (m : JS.number)
| Write_inertia (v : JS.number)
| Write_friction (v : JS.number)
| Write_frictionAir (v : JS.number)
| Write_restitution (v : JS.number)
| Write_opacity (v : Q)
| Write_fillStyle (s : string)
| Write_strokeStyle (s : string)
| Parts_opacity (v : Q)
| Parts_fillStyle (s : string)
| Parts_strokeStyle (s : string)
| Write_category (c : Z)
| Write_mask (m : Z)
| Write_pluginScale (sx sy : Q)
| Write_pluginOriginalStyles (fill stroke : option string)
| Write_pluginDynamicProperties (d : DynamicProperties)
| Write_pluginIsStatic (isStatic : bool).

Definition set_render (f : Render -> Render) (b : Body) : Body :=
  {| id := id b; position := position b; velocity := velocity b; angle := angle b;
     angularVelocity := angularVelocity b; isStatic := isStatic b;
     isSleeping := isSleeping b; mass := mass b; inertia := inertia b;
     density := density b; friction := friction b; frictionAir := frictionAir b;
     restitution := restitution b; render := option_map f (render b);
     children := children b; category := category b; mask := mask b;
     plugin := plugin b |}.

Definition set_children (f : Render -> Render) (b : Body) : Body :=
  {| id := id b; position := position b; velocity := velocity b; angle := angle b;
     angularVelocity := angularVelocity b; isStatic := isStatic b;
     isSleeping := isSleeping b; mass := mass b; inertia := inertia b;
     density := density b; friction := friction b; frictionAir := frictionAir b;
     restitution := restitution b; render := render b;
     children := map (option_map f) (children b); category := category b;
     mask := mask b; plugin := plugin b |}.

Definition set_plugin (f : Plugin -> Plugin) (b : Body) : Body :=
  {| id := id b; position := position b; velocity := velocity b; angle := angle b;
     angularVelocity := angularVelocity b; isStatic := isStatic b;
     isSleeping := isSleeping b; mass := mass b; inertia := inertia b;
     density := density b; friction := friction b; frictionAir := frictionAir b;
     restitution := restitution b; render := render b; children := children b;
     category := category b; mask := mask b; plugin := f (plugin b) |}.

Definition with_opacity (v : Q) (r : Render) : Render :=
  {| opacity := v; fillStyle := fillStyle r; strokeStyle := strokeStyle r |}.

Definition with_fillStyle (s : string) (r : Render) : Render :=
  {| opacity := opacity r; fillStyle := Some s; strokeStyle := strokeStyle r |}.

Definition with_strokeStyle (s : string) (r : Render) : Render :=
  {| opacity := opacity r; fillStyle := fillStyle r; strokeStyle := Some s |}.

(** The action of an effect on the fields of the body.  For a call into
    Matter.js this is the documented one: [setStatic (true)] also makes mass
    and inertia infinite, [scale] changes geometry only, which the record
    does not hold. *)
Definition perform (e : Effect) (b : Body) : Body :=
  match e with
  | Sleeping_set s =>
      {| id := id b; position := position b; velocity := velocity b; angle := angle b;
         angularVelocity := angularVelocity b; isStatic := isStatic b;
         isSleeping := s; mass := mass b; inertia := inertia b;
         density := density b; friction := friction b; frictionAir := frictionAir b;
         restitution := restitution b; render := render b; children := children b;
         category := category b; mask := mask b; plugin := plugin b |}
  | Body_setPosition p =>
      {| id := id b; position := p; velocity := velocity b; angle := angle b;
         angularVelocity := angularVelocity b; isStatic := isStatic b;
         isSleeping := isSleeping b; mass := mass b; inertia := inertia b;
         density := density b; friction := friction b; frictionAir := frictionAir b;
         restitution := restitution b; render := render b; children := children b;
         category := category b; mask := mask b; plugin := plugin b |}
  | Body_setVelocity v =>
      {| id := id b; position := position b; velocity := v; angle := angle b;
         angularVelocity := angularVelocity b; isStatic := isStatic b;
         isSleeping := isSleeping b; mass := mass b; inertia := inertia b;
         density := density b; friction := friction b; frictionAir := frictionAir b;
         restitution := restitution b; render := render b; children := children b;
         category := category b; mask := mask b; plugin := plugin b |}
  | Body_setAngle a =>
      {| id := id b; position := position b; velocity := velocity b; angle := a;
         angularVelocity := angularVelocity b; isStatic := isStatic b;
         isSleeping := isSleeping b; mass := mass b; inertia := inertia b;
         density := density b; friction := friction b; frictionAir := frictionAir b;
         restitution := restitution b; render := render b; children := children b;
         category := category b; mask := mask b; plugin := plugin b |}
  | Body_setAngularVelocity w =>
      {| id := id b; position := position b; velocity := velocity b; angle := angle b;
         angularVelocity := w; isStatic := isStatic b;
         isSleeping := isSleeping b; mass := mass b; inertia := inertia b;
         density := density b; friction := friction b; frictionAir := frictionAir b;
         restitution := restitution b; render := render b; children := children b;
         category := category b; mask := mask b; plugin := plugin b |}
  | Body_scale _ _ => b
  | Body_setDensity d =>
      {| id := id b; position := position b; velocity := velocity b; angle := angle b;
         angularVelocity := angularVelocity b; isStatic := isStatic b;
         isSleeping := isSleeping b; mass := mass b; inertia := inertia b;
         density := d; friction := friction b; frictionAir := frictionAir b;
         restitution := restitution b; render := render b; children := children b;
         category := category b; mask := mask b; plugin := plugin b |}
  | Body_setStatic s =>
      {| id := id b; position := position b; velocity := velocity b; angle := angle b;
         angularVelocity := angularVelocity b; isStatic := s;
         isSleeping := isSleeping b;
         mass := if s then JS.PosInf else mass b;
         inertia := if s then JS.PosInf else inertia b;
         density := density b; friction := friction b; frictionAir := frictionAir b;
         restitution := restitution b; render := render b; children := children b;
         category := category b; mask := mask b; plugin := plugin b |}
  | Body_setMass m =>
      {| id := id b; position := position b; velocity := velocity b; angle := angle b;
         angularVelocity := angularVelocity b; isStatic := isStatic b;
         isSleeping := isSleeping b; mass := m; inertia := inertia b;
         density := density b; friction := friction b; frictionAir := frictionAir b;
         restitution := restitution b; render := render b; children := children b;
         category := category b; mask := mask b; plugin := plugin b |}
  | Write_inertia v =>
      {| id := id b; position := position b; velocity := velocity b; angle := angle b;
         angularVelocity := angularVelocity b; isStatic := isStatic b;
         isSleeping := isSleeping b; mass := mass b; inertia := v;
         density := density b; friction := friction b; frictionAir := frictionAir b;
         restitution := restitution b; render := render b; children := children b;
         category := category b; mask := mask b; plugin := plugin b |}
  | Write_friction v =>
      {| id := id b; position := position b; velocity := velocity b; angle := angle b;
         angularVelocity := angularVelocity b; isStatic := isStatic b;
         isSleeping := isSleeping b; mass := mass b; inertia := inertia b;
         density := density b; friction := v; frictionAir := frictionAir b;
         restitution := restitution b; render := render b; children := children b;
         category := category b; mask := mask b; plugin := plugin b |}
  | Write_frictionAir v =>
      {| id := id b; position := position b; velocity := velocity b; angle := angle b;
         angularVelocity := angularVelocity b; isStatic := isStatic b;
         isSleeping := isSleeping b; mass := mass b; inertia := inertia b;
         density := density b; friction := friction b; frictionAir := v;
         restitution := restitution b; render := render b; children := children b;
         category := category b; mask := mask b; plugin := plugin b |}
  | Write_restitution v =>
      {| id := id b; position := position b; velocity := velocity b; angle := angle b;
         angularVelocity := angularVelocity b; isStatic := isStatic b;
         isSleeping := isSleeping b; mass := mass b; inertia := inertia b;
         density := density b; friction := friction b; frictionAir := frictionAir b;
         restitution := v; render := render b; children := children b;
         category := category b; mask := mask b; plugin := plugin b |}
  | Write_opacity v => set_render (with_opacity v) b
  | Write_fillStyle s => set_render (with_fillStyle s) b
  | Write_strokeStyle s => set_render (with_strokeStyle s) b
  | Parts_opacity v => set_children (with_opacity v) b
  | Parts_fillStyle s => set_children (with_fillStyle s) b
  | Parts_strokeStyle s => set_children (with_strokeStyle s) b
  | Write_category c =>
      {| id := id b; position := position b; velocity := velocity b; angle := angle b;
         angularVelocity := angularVelocity b; isStatic := isStatic b;
         isSleeping := isSleeping b; mass := mass b; inertia := inertia b;
         density := density b; friction := friction b; frictionAir := frictionAir b;
         restitution := restitution b; render := render b; children := children b;
         category := c; mask := mask b; plugin := plugin b |}
  | Write_mask m =>
      {| id := id b; position := position b; velocity := velocity b; angle := angle b;
         angularVelocity := angularVelocity b; isStatic := isStatic b;
         isSleeping := isSleeping b; mass := mass b; inertia := inertia b;
         density := density b; friction := friction b; frictionAir := frictionAir b;
         restitution := restitution b; render := render b; children := children b;
         category := category b; mask := m; plugin := plugin b |}
  | Write_pluginScale sx sy =>
      set_plugin (fun p =>
        {| layerData := layerData p; scaleX := Some sx; scaleY := Some sy;
           initialProperties := initialProperties p;
           dynamicProperties := dynamicProperties p;
           plugin_isStatic := plugin_isStatic p;
           plugin_isStaticInitial := plugin_isStaticInitial p;
           originalFillStyle := originalFillStyle p;
           originalStrokeStyle := originalStrokeStyle p |}) b
  | Write_pluginOriginalStyles fill stroke =>
      set_plugin (fun p =>
        {| layerData := layerData p; scaleX := scaleX p; scaleY := scaleY p;
           initialProperties := initialProperties p;
           dynamicProperties := dynamicProperties p;
           plugin_isStatic := plugin_isStatic p;
           plugin_isStaticInitial := plugin_isStaticInitial p;
           originalFillStyle := fill;
           originalStrokeStyle := stroke |}) b
  | Write_pluginDynamicProperties d =>
      set_plugin (fun p =>
        {| layerData := layerData p; scaleX := scaleX p; scaleY := scaleY p;
           initialProperties := initialProperties p;
           dynamicProperties := Some d;
           plugin_isStatic := plugin_isStatic p;
           plugin_isStaticInitial := plugin_isStaticInitial p;
           originalFillStyle := originalFillStyle p;
           originalStrokeStyle := originalStrokeStyle p |}) b
  | Write_pluginIsStatic s =>
      set_plugin (fun p =>
        {| layerData := layerData p; scaleX := scaleX p; scaleY := scaleY p;
           initialProperties := initialProperties p;
           dynamicProperties := dynamicProperties p;
           plugin_isStatic := Some s;
           plugin_isStaticInitial := plugin_isStaticInitial p;
           originalFillStyle := originalFillStyle p;
           originalStrokeStyle := originalStrokeStyle p |}) b
  end.

(** A command on a body: [None] when a [TypeError] escapes, else the mutated
    body and the effects performed. *)
Definition Cmd : Type := Body -> option (Body * list Effect).

Definition skip : Cmd := fun b => Some (b, []).

Definition throw : Cmd := fun _ => None.

Definition emit (e : Effect) : Cmd := fun b => Some (perform e b, [e]).

Definition seq (c1 c2 : Cmd) : Cmd :=
  fun b =>
    match c1 b with
    | Some (b1, t1) =>
        match c2 b1 with
        | Some (b2, t2) => Some (b2, t1 ++ t2)
        | None => None
        end
    | None => None
    end.

(** A command that first reads the body. *)
Definition reading (k : Body -> Cmd) : Cmd := fun b => k b b.

Definition when (c : bool) (k : Cmd) : Cmd := if c then k else skip.

(** A plain dynamic body at rest at the origin, as [Bodies.fromVertices]
    hands it out: no layer data, no stored properties. *)
Definition plainBody : Body :=
  {| id := 1;
     position := {| x := 0; y := 0 |};
     velocity := {| x := 0; y := 0 |};
     angle := JS.Num 0;
     angularVelocity := JS.Num 0;
     isStatic := false;
     isSleeping := false;
     mass := JS.Num 1;
     inertia := JS.Num 1;
     density := JS.Num (1 # 1000);
     friction := JS.Num (1 # 10);
     frictionAir := JS.Num (1 # 100);
     restitution := JS.Num 0;
     render := Some {| opacity := 1; fillStyle := Some "#e9462f"%string;
                       strokeStyle := Some "#e9462f"%string |};
     children := [];
     category := 1;
     mask := 65535;
     plugin := {| layerData := None; scaleX := None; scaleY := None;
                  initialProperties := None; dynamicProperties := None;
                  plugin_isStatic := None; plugin_isStaticInitial := None;
                  originalFillStyle := None; originalStrokeStyle := None |} |}.

(** The same body as [createMatterBody] tags it for a layer. *)
Definition layerBody (layerId : Z) (inOut : list Q) : Body :=
  set_plugin (fun p =>
    {| layerData := Some {| ld_inOut := inOut; ld_layerId := layerId;
                            ld_isStaticInitial := Some false |};
       scaleX := Some 1%Q; scaleY := Some 1%Q;
       initialProperties :=
         Some {| ip_mass := JS.Num 1; ip_inertia := JS.Num 1; ip_density := 1 # 1000;
                 ip_friction := 1 # 10; ip_frictionAir := 1 # 100; ip_restitution := 0 |};
       dynamicProperties := None; plugin_isStatic := None;
       plugin_isStaticInitial := Some false;
       originalFillStyle := None; originalStrokeStyle := None |}) plainBody.

End Matter.

Declare Scope cmd_scope.
Delimit Scope cmd_scope with cmd.
Bind Scope cmd_scope with Matter.Cmd.
Notation "c1 ;; c2" := (Matter.seq c1 c2) (at level 61, right associativity) : cmd_scope.


(* ------------------------------------------------------------------ *)
(** ** Body-type change and body creation options: utils/bodies.ts *)

Module Bodies.

Import Matter.
Local Open Scope cmd_scope.

(** [setBodyType (body, isStatic)]. *)
Definition setBodyType (toStatic : bool) : Cmd :=
  reading (fun body =>
    match initialProperties (plugin body) with
    | None => skip
    | Some initialProps =>
        (if toStatic then
           emit (Write_pluginDynamicProperties
                   {| dp_mass := mass body;
                      dp_inertia := inertia body;
                      dp_friction := friction body;
                      dp_frictionAir := frictionAir body;
                      dp_restitution := restitution body |}) ;;
           emit (Body_setStatic true)
         else
           emit (Body_setMass (ip_mass initialProps)) ;;
           emit (Body_setStatic false) ;;
           emit (Write_inertia (ip_inertia initialProps)) ;;
           emit (Write_friction (JS.Num (ip_friction initialProps))) ;;
           emit (Write_frictionAir (JS.Num (ip_frictionAir initialProps))) ;;
           emit (Write_restitution (JS.Num (ip_restitution initialProps))) ;;
           emit (Body_setVelocity {| x := 0; y := 0 |}) ;;
           emit (Body_setAngularVelocity (JS.Num 0))) ;;
        emit (Write_pluginIsStatic toStatic)
    end).

(** [sp?.bodyType === n]. *)
Definition bodyTypeIs (sp : option Plan.StartProperties) (n : Q) : bool :=
  match sp with
  | Some s => Qeq_bool (Plan.sp_bodyType s) n
  | None => false
  end.

(** The local [isStatic] of [createMatterBody]:
    [layerData.isStatic ?? layerData.startPropertiesValues?.bodyType === 2]. *)
Definition layerIsStatic (layerData : Plan.Layer) : bool :=
  match Plan.layer_isStatic layerData with
  | Some s => s
  | None => bodyTypeIs (Plan.startPropertiesValues layerData) 2
  end.

(** The expression [sp?.bodyType === 1 ? false : true || isStatic].  The
    conditional operator binds weaker than [||], so the else branch is the
    whole of [true || isStatic]. *)
Definition compoundIsStatic (sp : option Plan.StartProperties) (isStatic : bool) : bool :=
  if bodyTypeIs sp 1 then false else (true || isStatic).

(** The options object that [createMatterBody] passes to [Body.create] for
    the compound body (without the parts). *)
Record CompoundOptions : Type := {
  opt_isStatic : bool;
  opt_density : Q;
  opt_friction : Q;
  opt_frictionAir : Q;
  opt_restitution : Q;
  opt_layerData : LayerData
}.

Definition compoundOptions (layerData : Plan.Layer) (layerId : Z)
    (startPropertiesValues : option Plan.StartProperties) : CompoundOptions :=
  let isStatic := layerIsStatic layerData in
  let inOut := match Plan.inOut layerData with Some l => l | None => [] end in
  {| opt_isStatic := compoundIsStatic startPropertiesValues isStatic;
     opt_density :=
       match option_map Plan.sp_density startPropertiesValues with
       | Some d => if JS.truthy d then (d / 1000)%Q else (1 # 1000)%Q
       | None => (1 # 1000)%Q
       end;
     opt_friction :=
       JS.or_else (option_map Plan.sp_friction startPropertiesValues) (1 # 10);
     opt_frictionAir :=
       JS.or_else (option_map Plan.sp_frictionAir startPropertiesValues) (1 # 100);
     opt_restitution :=
       JS.or_else (option_map Plan.sp_restitution startPropertiesValues) (1 # 10);
     opt_layerData :=
       {| ld_inOut := inOut;
          ld_layerId := layerId;
          ld_isStaticInitial :=
            Some (compoundIsStatic startPropertiesValues isStatic) |} |}.

(** Start properties with the given body type and the default material. *)
Definition startWithBodyType (t : Q) : Plan.StartProperties :=
  {| Plan.sp_bodyType := t; Plan.sp_density := 1; Plan.sp_friction := 1 # 10;
     Plan.sp_frictionAir := 1 # 100; Plan.sp_restitution := 1 # 10 |}.

(** A layer with the given static flag and start body type, and nothing
    animated. *)
Definition layerWithBodyType (flag : option bool) (t : Q) : Plan.Layer :=
  {| Plan.name := "Shape Layer 1"; Plan.layer_isStatic := flag;
     Plan.inOut := None; Plan.animatedProperties := None;
     Plan.startPropertiesValues := Some (startWithBodyType t) |}.

End Bodies.

(* ------------------------------------------------------------------ *)
(** ** Per-tick helpers of the runner: utils/simulation/*.ts *)

Module Sim.

Import Matter.
Local Open Scope cmd_scope.

(** [plan.layers[layerId]]; a body without layer data has no layer id. *)
Definition layerOf (plan : Plan.AnimationPlan) (layerId : option Z) : option Plan.LayerPlan :=
  match layerId with
  | Some i => Plan.lookup i (Plan.plan_layers plan)
  | None => None
  end.

(** [s?.last ?? -1]. *)
Definition lastOr {T : Type} (s : Plan.Series T) : Z :=
  match Plan.last s with Some k => k | None => -1 end.

(** [s?.isHold ?? false]. *)
Definition holdOr {T : Type} (s : Plan.Series T) : bool :=
  match Plan.hold s with Some h => h | None => false end.

(** Truthiness of an optional string. *)
Definition truthyStr (s : option string) : bool :=
  match s with
  | Some EmptyString => false
  | Some _ => true
  | None => false
  end.

(** [body.parts && body.parts.length > 1]. *)
Definition isCompound (body : Body) : bool :=
  match children body with [] => false | _ => true end.

Definition hasRender (body : Body) : bool :=
  match render body with Some _ => true | None => false end.

(** simInOutPoints.ts, [applyDisabledState]. *)
Definition applyDisabledState : Cmd :=
  emit (Sleeping_set true) ;;
  reading (fun body =>
    when (hasRender body)
      (emit (Write_opacity (1 # 4)) ;;
       when (isCompound body) (emit (Parts_opacity (1 # 4))))) ;;
  emit (Write_category 0) ;;
  emit (Write_mask 0).

(** simInOutPoints.ts, [applyEnabledState]. *)
Definition applyEnabledState (isStatic : bool) : Cmd :=
  reading (fun body =>
    when (hasRender body)
      (let normalOpacity := if isStatic then (1 # 2)%Q else 1%Q in
       emit (Write_opacity normalOpacity) ;;
       when (isCompound body) (emit (Parts_opacity normalOpacity)))) ;;
  emit (Write_category 1) ;;
  emit (Write_mask 65535).

(** [if (s) k s]. *)
Definition whenStr (s : option string) (k : string -> Cmd) : Cmd :=
  match s with
  | Some v => if truthyStr s then k v else skip
  | None => skip
  end.

(** [a || b] on optional strings. *)
Definition orStr (a b : option string) : option string :=
  if truthyStr a then a else b.

Definition renderFill (body : Body) : option string :=
  match render body with Some r => fillStyle r | None => None end.

Definition renderStroke (body : Body) : option string :=
  match render body with Some r => strokeStyle r | None => None end.

(** simInOutPoints.ts, [applyBodyTypeVisuals]. *)
Definition applyBodyTypeVisuals (isStatic : bool) : Cmd :=
  reading (fun body0 =>
    if negb (hasRender body0) then skip
    else
      let normalOpacity := if isStatic then (1 # 2)%Q else 1%Q in
      emit (Write_opacity normalOpacity) ;;
      (if isStatic then
         reading (fun body =>
           when (negb (truthyStr (originalFillStyle (plugin body))))
             (emit (Write_pluginOriginalStyles (renderFill body) (renderStroke body)))) ;;
         emit (Write_fillStyle "#545454") ;;
         emit (Write_strokeStyle "#545454")
       else
         reading (fun body =>
           whenStr (originalFillStyle (plugin body)) (fun s => emit (Write_fillStyle s)) ;;
           whenStr (originalStrokeStyle (plugin body)) (fun s => emit (Write_strokeStyle s)))) ;;
      reading (fun body =>
        when (isCompound body)
          (emit (Parts_opacity normalOpacity) ;;
           if isStatic then
             emit (Parts_fillStyle "#545454") ;;
             emit (Parts_strokeStyle "#545454")
           else
             whenStr (orStr (originalFillStyle (plugin body)) (renderFill body))
                     (fun s => emit (Parts_fillStyle s)) ;;
             whenStr (orStr (originalStrokeStyle (plugin body)) (renderStroke body))
                     (fun s => emit (Parts_strokeStyle s))))).

(** [Math.round (xs[i]) === n], false when [xs[i]] is undefined. *)
Definition roundedIs (xs : list Q) (i : Z) (n : Z) : bool :=
  match JS.index xs i with
  | Some v => JS.round v =? n
  | None => false
  end.

(** simInOutPoints.ts, [handleInPointActivation]. *)
Definition handleInPointActivation (layerId : option Z) (plan : Plan.AnimationPlan)
    (currentCompIdx : Z) : Cmd :=
  reading (fun body =>
    let bodyType := match layerOf plan layerId with
                    | Some lp => Plan.bodyType lp
                    | None => None
                    end in
    let wasStaticInitial :=
      match layerData (plugin body) with
      | Some ld => match ld_isStaticInitial ld with Some s => s | None => false end
      | None => false
      end in
    let atInPointStatic :=
      match bodyType with
      | Some s =>
          match Plan.svalues s with
          | [] => JS.round (Plan.pre s) =? 2
          | bodyTypeSeries =>
              let candidateIdx := Z.min currentCompIdx (JS.length bodyTypeSeries - 1) in
              let preInPointIdx :=
                if 0 <=? lastOr s then Z.min candidateIdx (lastOr s) else candidateIdx in
              roundedIs bodyTypeSeries preInPointIdx 2
          end
      | None => wasStaticInitial
      end in
    emit (Body_setStatic atInPointStatic) ;;
    when (negb atInPointStatic) (emit (Sleeping_set false)) ;;
    applyBodyTypeVisuals atInPointStatic ;;
    emit (Write_category 1) ;;
    emit (Write_mask 65535)).

(** simKeyframeForcing.ts, [forcePosition]. *)
Definition forcePosition (layerId : option Z) (plan : Plan.AnimationPlan)
    (currentCompIdx expectedCompFrames : Z) (simulationFps compFramerate : Q) : Cmd :=
  match layerOf plan layerId with
  | None => skip
  | Some lp =>
      match Plan.position lp with
      | None => skip
      | Some s =>
          let posSeries := Plan.svalues s in
          let lastPosIdx := lastOr s in
          let posIsHold := holdOr s in
          let lastPosInside := (0 <=? lastPosIdx) && (lastPosIdx <? expectedCompFrames) in
          let shouldForcePos :=
            negb lastPosInside || posIsHold || (currentCompIdx <=? lastPosIdx) in
          (if shouldForcePos && (currentCompIdx <? JS.length posSeries) then
             match JS.index posSeries currentCompIdx with
             | None => throw
             | Some (px, py) =>
                 emit (Body_setPosition {| x := px; y := py |}) ;;
                 when ((currentCompIdx <? lastPosIdx) || posIsHold || negb lastPosInside)
                      (emit (Body_setVelocity {| x := 0; y := 0 |})) ;;
                 emit (Sleeping_set false)
             end
           else skip) ;;
          (if currentCompIdx =? lastPosIdx then
             if 0 <? currentCompIdx then
               match JS.index posSeries currentCompIdx, JS.index posSeries (currentCompIdx - 1) with
               | Some cur, Some prev =>
                   let dx := (fst cur - fst prev)%Q in
                   let dy := (snd cur - snd prev)%Q in
                   emit (Body_setVelocity
                           {| x := dx * (simulationFps / compFramerate);
                              y := dy * (simulationFps / compFramerate) |})
               | _, _ => throw
               end
             else
               match JS.index posSeries currentCompIdx with
               | Some cur =>
                   let prePosX := fst (Plan.pre s) in
                   let prePosY := snd (Plan.pre s) in
                   let dx := (fst cur - prePosX)%Q in
                   let dy := (snd cur - prePosY)%Q in
                   emit (Body_setVelocity
                           {| x := dx * (simulationFps / compFramerate);
                              y := dy * (simulationFps / compFramerate) |})
               | None => throw
               end
           else skip)
      end
  end.

(** [xs[i]] read as a number: [undefined] gives [NaN] in arithmetic. *)
Definition numberAt (xs : list Q) (i : Z) : JS.number :=
  match JS.index xs i with
  | Some v => JS.Num v
  | None => JS.NaN
  end.

(** [(a - b) * k] on numbers that may be [NaN]. *)
Definition scaledDiff (a b : JS.number) (k : Q) : JS.number :=
  match a, b with
  | JS.Num u, JS.Num v => JS.Num ((u - v) * k)
  | _, _ => JS.NaN
  end.

(** [(deg * Math.PI) / 180]: an angle of [deg] degrees is [deg / 180] times
    [pi]. *)
Definition degrees (deg : JS.number) : Angle :=
  match deg with
  | JS.Num d => JS.Num (d / 180)
  | _ => JS.NaN
  end.

(** simKeyframeForcing.ts, [forceRotation]. *)
Definition forceRotation (layerId : option Z) (plan : Plan.AnimationPlan)
    (currentCompIdx expectedCompFrames : Z) (simulationFps compFramerate : Q) : Cmd :=
  match layerOf plan layerId with
  | None => skip
  | Some lp =>
      match Plan.rotation lp with
      | None => skip
      | Some s =>
          let rotSeries := Plan.svalues s in
          let lastRotIdx := lastOr s in
          let rotIsHold := holdOr s in
          let lastRotInside := (0 <=? lastRotIdx) && (lastRotIdx <? expectedCompFrames) in
          let shouldForceRot :=
            negb lastRotInside || rotIsHold || (currentCompIdx <=? lastRotIdx) in
          when (shouldForceRot && (currentCompIdx <? JS.length rotSeries))
            (emit (Body_setAngle (degrees (numberAt rotSeries currentCompIdx))) ;;
             when ((currentCompIdx <? lastRotIdx) || rotIsHold || negb lastRotInside)
                  (emit (Body_setAngularVelocity (JS.Num 0))) ;;
             emit (Sleeping_set false)) ;;
          when (currentCompIdx =? lastRotIdx)
            (let previous :=
               if 0 <? currentCompIdx then numberAt rotSeries (currentCompIdx - 1)
               else JS.Num (Plan.pre s) in
             emit (Body_setAngularVelocity
                     (scaledDiff (numberAt rotSeries currentCompIdx) previous
                                 ((1 / 180) * (simulationFps / compFramerate)))))
      end
  end.

(** [1e-6]. *)
Definition EPS : Q := 1 # 1000000.

(** simKeyframeForcing.ts, [forceScale]. *)
Definition forceScale (layerId : option Z) (plan : Plan.AnimationPlan)
    (currentCompIdx : Z) : Cmd :=
  match layerOf plan layerId with
  | None => skip
  | Some lp =>
      match Plan.scale lp with
      | None => skip
      | Some s =>
          let scaleSeries := Plan.svalues s in
          if (lastOr s <? currentCompIdx) || (JS.length scaleSeries <=? currentCompIdx)
          then skip
          else
            match JS.index scaleSeries currentCompIdx with
            | None => throw
            | Some (scaleXPercent, scaleYPercent) =>
                reading (fun body =>
                  let prevScaleX :=
                    Qmax (match scaleX (plugin body) with Some v => v | None => 1 end) EPS in
                  let prevScaleY :=
                    Qmax (match scaleY (plugin body) with Some v => v | None => 1 end) EPS in
                  let targetScaleX := Qmax (scaleXPercent / 100) EPS in
                  let targetScaleY := Qmax (scaleYPercent / 100) EPS in
                  emit (Body_scale (targetScaleX / prevScaleX) (targetScaleY / prevScaleY)) ;;
                  emit (Write_pluginScale targetScaleX targetScaleY) ;;
                  emit (Sleeping_set false))
            end
      end
  end.

(** The guard [series && idx <= last && idx < series.length] of
    [updatePhysicsProperties]. *)
Definition inWindow (s : option (Plan.Series Q)) (currentCompIdx : Z) : option (list Q) :=
  match s with
  | Some r =>
      if (currentCompIdx <=? lastOr r) && (currentCompIdx <? JS.length (Plan.svalues r))
      then Some (Plan.svalues r) else None
  | None => None
  end.

(** [Math.max (v / 1000, 1e-6)]. *)
Definition normalizedDensity (v : JS.number) : JS.number :=
  match v with
  | JS.Num d => JS.Num (Qmax (d / 1000) EPS)
  | _ => JS.NaN
  end.

(** simPhysicsProps.ts, [updatePhysicsProperties]. *)
Definition updatePhysicsProperties (layerId : option Z) (plan : Plan.AnimationPlan)
    (currentCompIdx : Z) (frictionAirDefault : Q) : Cmd :=
  let lp := layerOf plan layerId in
  let series (f : Plan.LayerPlan -> option (Plan.Series Q)) :=
    match lp with Some p => f p | None => None end in
  (match inWindow (series Plan.density) currentCompIdx with
   | Some densitySeries =>
       emit (Body_setDensity (normalizedDensity (numberAt densitySeries currentCompIdx))) ;;
       emit (Sleeping_set false)
   | None => skip
   end) ;;
  (match inWindow (series Plan.friction) currentCompIdx with
   | Some frictionSeries =>
       emit (Write_friction (numberAt frictionSeries currentCompIdx)) ;;
       emit (Sleeping_set false)
   | None => skip
   end) ;;
  (match inWindow (series Plan.frictionAir) currentCompIdx with
   | Some frictionAirSeries =>
       emit (Write_frictionAir (numberAt frictionAirSeries currentCompIdx)) ;;
       emit (Sleeping_set false)
   | None => emit (Write_frictionAir (JS.Num frictionAirDefault))
   end) ;;
  (match inWindow (series Plan.restitution) currentCompIdx with
   | Some restitutionSeries =>
       emit (Write_restitution (numberAt restitutionSeries currentCompIdx)) ;;
       emit (Sleeping_set false)
   | None => skip
   end).

(** [Math.round] of a series sample: [None] is [NaN]. *)
Definition roundedAt (xs : list Q) (i : Z) : option Z :=
  option_map JS.round (JS.index xs i).

(** [a !== b] on rounded samples: [NaN] differs from everything. *)
Definition differ (a b : option Z) : bool :=
  match a, b with
  | Some u, Some v => negb (u =? v)
  | _, _ => true
  end.

(** simGravity.ts (second part), [handleBodyTypeSwitch]. *)
Definition handleBodyTypeSwitch (layerId : option Z) (plan : Plan.AnimationPlan)
    (currentCompIdx : Z) (isDisabled : bool) : Cmd :=
  match layerOf plan layerId with
  | None => skip
  | Some lp =>
      match Plan.bodyType lp with
      | None => skip
      | Some s =>
          let bodyTypeSeries := Plan.svalues s in
          if (lastOr s <? currentCompIdx) || (JS.length bodyTypeSeries <=? currentCompIdx)
          then skip
          else
            let currentValRounded := roundedAt bodyTypeSeries currentCompIdx in
            let prevValRounded :=
              if 0 <? currentCompIdx then roundedAt bodyTypeSeries (currentCompIdx - 1)
              else Some (JS.round (Plan.pre s)) in
            when (negb isDisabled && differ currentValRounded prevValRounded)
              (let toStatic := match currentValRounded with
                               | Some v => v =? 2
                               | None => false
                               end in
               Bodies.setBodyType toStatic ;;
               when (negb toStatic) (emit (Sleeping_set false)) ;;
               applyBodyTypeVisuals toStatic)
      end
  end.

(** The kinds of effect the gating property speaks of. *)
Definition isKeyframeForcing (e : Effect) : bool :=
  match e with
  | Body_setPosition _ | Body_setVelocity _ | Body_setAngle _
  | Body_setAngularVelocity _ | Body_scale _ _ | Write_pluginScale _ _ => true
  | _ => false
  end.

Definition isMaterialForcing (e : Effect) : bool :=
  match e with
  | Body_setDensity _ | Write_friction _ | Write_frictionAir _ | Write_restitution _ => true
  | _ => false
  end.

Definition isBodyTypeSwitch (e : Effect) : bool :=
  match e with
  | Body_setStatic _ | Body_setMass _ | Write_inertia _
  | Write_pluginDynamicProperties _ | Write_pluginIsStatic _ => true
  | _ => false
  end.

(** The effects of [applyDisabledState] on a body, spelled out. *)
Definition disabledTrace (body : Body) : list Effect :=
  [Sleeping_set true]
  ++ (if hasRender body
      then Write_opacity (1 # 4) :: (if isCompound body then [Parts_opacity (1 # 4)] else [])
      else [])
  ++ [Write_category 0; Write_mask 0].

(** The sample before index [k] of a series: the pre-value at index 0. *)
Definition previousSample {T : Type} (s : Plan.Series T) (k : Z) : option T :=
  if 0 <? k then JS.index (Plan.svalues s) (k - 1) else Some (Plan.pre s).

(** [(v - w) * (simulationFps / compFramerate)], componentwise. *)
Definition handoffVelocity (v w : Q * Q) (simulationFps compFramerate : Q) : Vector :=
  {| x := (fst v - fst w) * (simulationFps / compFramerate);
     y := (snd v - snd w) * (simulationFps / compFramerate) |}.

(** A plan with one layer, animated in position only. *)
Definition positionPlan (layerId : Z) (s : Plan.Series (Q * Q)) : Plan.AnimationPlan :=
  {| Plan.physicsStartFrame := lastOr s;
     Plan.plan_layers :=
       [(layerId,
         {| Plan.lp_name := "Shape Layer 1"; Plan.position := Some s;
            Plan.rotation := None; Plan.scale := None; Plan.anchorPoint := None;
            Plan.density := None; Plan.friction := None; Plan.frictionAir := None;
            Plan.restitution := None; Plan.bodyType := None |})] |}.

(** A linear move of 10 px per frame along x, keyed at frames 0 and 3. *)
Definition linearMove : Plan.Series (Q * Q) :=
  {| Plan.pre := (0, 0)%Q;
     Plan.svalues := [(0, 0); (10, 0); (20, 0); (30, 0); (30, 0); (30, 0)]%Q;
     Plan.last := Some 3;
     Plan.hold := Some false |}.

End Sim.


(* ------------------------------------------------------------------ *)
(** ** The simulation runner: hooks/useSimulationRunner.ts *)

Module Runner.

Import Matter.
Local Open Scope cmd_scope.

(** The engine: its clock, its gravity and the bodies of its world.  The
    gravity vector is [(-sin a, cos a)] for the angle [a]; the record keeps
    the angle, in degrees. *)
Record Engine : Type := {
  timestamp : Q;
  gravityAngleDeg : Q;
  gravityScale : Q;
  bodies : list Body
}.

(** [BodyState], the snapshot of one body. *)
Record BodyState : Type := {
  bs_id : Z;
  bs_position : Vector;
  bs_angle : Angle;
  bs_scale : Q * Q;
  bs_isStatic : bool;
  bs_opacity : Q;
  bs_fillStyle : option string;
  bs_strokeStyle : option string;
  bs_plugin : Plugin
}.

Record FrameData : Type := {
  time : Q;
  frameBodies : list BodyState
}.

Definition bodyState (body : Body) : BodyState :=
  {| bs_id := id body;
     bs_position := position body;
     bs_angle := angle body;
     bs_scale := (JS.or_else (scaleX (plugin body)) 1, JS.or_else (scaleY (plugin body)) 1);
     bs_isStatic := isStatic body;
     bs_opacity := match render body with Some r => opacity r | None => 1%Q end;
     bs_fillStyle := Sim.renderFill body;
     bs_strokeStyle := Sim.renderStroke body;
     bs_plugin := plugin body |}.

(** simulation/simFrameCapture.ts, [captureFrame]. *)
Definition captureFrame (engine : Engine) (t : Q) : FrameData :=
  {| time := t; frameBodies := map bodyState (bodies engine) |}.

(** The value of an animated gravity series at a frame, else the static
    value, else the default. *)
Definition gravityValue (series : option (Plan.AnimatedSeries Q)) (raw : option Q)
    (default : Q) (compFrameIdx : Z) : Q :=
  let static := match raw with Some v => v | None => default end in
  match series with
  | Some s =>
      if compFrameIdx <? JS.length (Plan.values s) then
        match JS.index (Plan.values s) compFrameIdx with
        | Some v => v
        | None => static
        end
      else static
  | None => static
  end.

(** simulation/simGravity.ts, [updateGravity]: the engine with its gravity
    set, and the default air friction derived from the drag. *)
Definition updateGravity (engine : Engine) (comp : option Plan.CompositionData)
    (compFrameIdx : Z) : Engine * Q :=
  match comp with
  | None => (engine, 0%Q)
  | Some c =>
      let series (f : Plan.AnimatedGravity -> option (Plan.AnimatedSeries Q)) :=
        match Plan.animatedGravityProperties c with Some g => f g | None => None end in
      let angleVal := gravityValue (series Plan.ag_gravityAngle) (Plan.gravityAngle c) 90 compFrameIdx in
      let scaleVal :=
        gravityValue (series Plan.ag_gravityScale) (Plan.gravityScale c) (98 # 10) compFrameIdx in
      let dragVal := gravityValue (series Plan.ag_drag) (Plan.drag c) 0 compFrameIdx in
      ({| timestamp := timestamp engine;
          gravityAngleDeg := angleVal;
          gravityScale := (scaleVal / ((98 # 10) * 3)) * (1 # 100);
          bodies := bodies engine |},
       (Qmax dragVal 0 / 100)%Q)
  end.

Definition layerIdOf (body : Body) : option Z :=
  option_map ld_layerId (layerData (plugin body)).

Definition inOutOf (body : Body) : option (list Q) :=
  option_map ld_inOut (layerData (plugin body)).

(** The callback of [world.bodies.forEach] in the pre-integration loop. *)
Definition processBody (plan : Plan.AnimationPlan)
    (nextCompFrame currentCompIdx expectedCompFrames : Z)
    (simulationFps compFramerate workareaStart frictionAirDefault : Q) : Cmd :=
  reading (fun body =>
    let layerId := layerIdOf body in
    let status :=
      InOut.checkInOutStatus (inOutOf body) nextCompFrame compFramerate workareaStart in
    if InOut.isDisabled status then Sim.applyDisabledState
    else
      (if negb (InOut.inPointAfterWorkarea status) then Sim.applyEnabledState (isStatic body)
       else if InOut.isAtInPoint status then
              Sim.handleInPointActivation layerId plan currentCompIdx
            else skip) ;;
      reading (fun body' =>
        when (negb (InOut.isDisabled status) && negb (isStatic body'))
             (emit (Sleeping_set false))) ;;
      Sim.forcePosition layerId plan currentCompIdx expectedCompFrames
                        simulationFps compFramerate ;;
      Sim.forceRotation layerId plan currentCompIdx expectedCompFrames
                        simulationFps compFramerate ;;
      Sim.forceScale layerId plan currentCompIdx ;;
      Sim.updatePhysicsProperties layerId plan currentCompIdx frictionAirDefault ;;
      Sim.handleBodyTypeSwitch layerId plan currentCompIdx (InOut.isDisabled status)).

(** [bodies.forEach (callback)]: the bodies after the callback ran on each, in
    order; nothing when the callback throws. *)
Fixpoint forEachBody (callback : Cmd) (bs : list Body) : option (list Body) :=
  match bs with
  | [] => Some []
  | b :: bs' =>
      match callback b with
      | Some (b', _) =>
          match forEachBody callback bs' with
          | Some rest => Some (b' :: rest)
          | None => None
          end
      | None => None
      end
  end.

Definition with_bodies (bs : list Body) (e : Engine) : Engine :=
  {| timestamp := timestamp e; gravityAngleDeg := gravityAngleDeg e;
     gravityScale := gravityScale e; bodies := bs |}.

Definition with_timestamp (t : Q) (e : Engine) : Engine :=
  {| timestamp := t; gravityAngleDeg := gravityAngleDeg e;
     gravityScale := gravityScale e; bodies := bodies e |}.

Definition SIMULATION_FPS : Q := 50.
Definition SIMULATION_DELTA : Q := 1000 / SIMULATION_FPS.

(** The variables of the loop of [calculateAllFrames]. *)
Record LoopState : Type := {
  engine : Engine;
  nextCompFrame : Z;
  frames : list FrameData
}.

Section WithEngine.

(** [Engine.update (engine, delta)]: one fixed step of the rigid-body
    solver, which is the library's. *)
Variable Engine_update : Engine -> Q -> Engine.

(** The run: composition timing and data. *)
Variable workarea : Q * Q.
Variable compFramerate : Q.
Variable comp : option Plan.CompositionData.
Variable plan : option Plan.AnimationPlan.

Definition workareaDurationSeconds : Q := snd workarea - fst workarea.

Definition totalPhysicsFrames : Z := JS.ceil (workareaDurationSeconds * SIMULATION_FPS).

Definition samplingRatio : Q := SIMULATION_FPS / compFramerate.

Definition expectedCompFrames : Z := JS.round (workareaDurationSeconds * compFramerate).

(** The physics frame at which the composition frame [n] is due. *)
Definition expectedPhysicsFrame (n : Z) : Z := JS.round (inject_Z n * samplingRatio).

(** The snapshot decision at the end of an iteration: the frame time to
    capture, when the next composition frame is due at this physics frame. *)
Definition due (physicsFrame next : Z) : bool :=
  (physicsFrame =? expectedPhysicsFrame next) && (next <=? expectedCompFrames).

(** One iteration of the [for] loop, without the yield to the event loop. *)
Definition iteration (physicsFrame : Z) (st : LoopState) : option LoopState :=
  let currentCompIdx := Z.max 0 (nextCompFrame st - 1) in
  let tsMs := timestamp (engine st) in
  let compIdxTime := Z.max 0 (JS.floor ((tsMs / 1000) * compFramerate)) in
  let '(engine1, frictionAirDefault) := updateGravity (engine st) comp compIdxTime in
  let processed :=
    match plan with
    | Some p =>
        forEachBody
          (processBody p (nextCompFrame st) currentCompIdx expectedCompFrames
                       SIMULATION_FPS compFramerate (fst workarea) frictionAirDefault)
          (bodies engine1)
    | None => Some (bodies engine1)
    end in
  match processed with
  | None => None
  | Some bs =>
      let engine2 := Engine_update (with_bodies bs engine1) SIMULATION_DELTA in
      if due physicsFrame (nextCompFrame st) then
        let currentTime := (fst workarea + inject_Z (nextCompFrame st) / compFramerate)%Q in
        Some {| engine := engine2;
                nextCompFrame := nextCompFrame st + 1;
                frames := frames st ++ [captureFrame engine2 currentTime] |}
      else
        Some {| engine := engine2;
                nextCompFrame := nextCompFrame st;
                frames := frames st |}
  end.

(** [n] iterations starting at [physicsFrame]. *)
Fixpoint loop (n : nat) (physicsFrame : Z) (st : LoopState) : option LoopState :=
  match n with
  | O => Some st
  | S n' =>
      match iteration physicsFrame st with
      | Some st' => loop n' (physicsFrame + 1) st'
      | None => None
      end
  end.

(** [calculateAllFrames]: the frames handed to [setFrameData], or nothing
    when an error escapes the loop. *)
Definition calculateAllFrames (engine0 : Engine) : option (list FrameData) :=
  let engine1 := with_timestamp 0 engine0 in
  let st0 := {| engine := engine1;
                nextCompFrame := 1;
                frames := [captureFrame engine1 (fst workarea)] |} in
  option_map frames (loop (Z.to_nat (totalPhysicsFrames + 1)) 0 st0).

(** The composition frames that get a snapshot, by the same recurrence on
    the counters alone: after [n] iterations from [physicsFrame], starting
    with [next] as the next composition frame. *)
Fixpoint nextAfter (n : nat) (physicsFrame next : Z) : Z :=
  match n with
  | O => next
  | S n' => nextAfter n' (physicsFrame + 1) (if due physicsFrame next then next + 1 else next)
  end.

(** The number of the last composition frame captured in a run. *)
Definition lastCaptured : Z := nextAfter (Z.to_nat (totalPhysicsFrames + 1)) 0 1 - 1.

(** The time of composition frame [k]. *)
Definition frameTime (k : Z) : Q := (fst workarea + inject_Z k / compFramerate)%Q.

End WithEngine.

(** The times of the frames the specification promises: one per composition
    frame [0 .. n], each one frame duration after the one before. *)
Definition frameTimes (workarea : Q * Q) (compFramerate : Q) (n : nat) : list Q :=
  fst workarea :: map (fun k => frameTime workarea compFramerate (Z.of_nat k)) (List.seq 1 n).

(** The invariant of the loop: the frames captured so far are the
    composition frames below the counter, in order. *)
Definition capturedInOrder (workarea : Q * Q) (compFramerate : Q) (st : LoopState) : Prop :=
  1 <= nextCompFrame st /\
  map time (frames st)
  = frameTimes workarea compFramerate (Z.to_nat (nextCompFrame st - 1)).

(** An engine with an empty world. *)
Definition emptyEngine : Engine :=
  {| timestamp := 0; gravityAngleDeg := 90; gravityScale := 0; bodies := [] |}.

(** A solver step that only advances the clock of the engine. *)
Definition tickClock (e : Engine) (delta : Q) : Engine :=
  with_timestamp (timestamp e + delta) e.

End Runner.


(* ------------------------------------------------------------------ *)
(** ** Geometry: utils/maths.ts, utils/geometry.ts *)

Module Geometry.

Local Open Scope Q_scope.

(** A point with finite coordinates, [{x, y}] or [[x, y]]. *)
Definition Point : Type := (Q * Q)%type.

(** A point as it arrives, before its coordinates are checked. *)
Definition RawPoint : Type := (JS.number * JS.number)%type.

Definition raw (p : Point) : RawPoint := (JS.Num (fst p), JS.Num (snd p)).

(** [isFinite (c) && !isNaN (c)]. *)
Definition finiteCoord (c : JS.number) : bool := JS.isFinite c && negb (JS.isNaN c).

(** The test every validation of the module applies to a vertex. *)
Definition validVertex (v : RawPoint) : bool := finiteCoord (fst v) && finiteCoord (snd v).

(** A vertex set passes validation: at least 3 points, all valid. *)
Definition validSet (vertices : list RawPoint) : bool :=
  (3 <=? List.length vertices)%nat && forallb validVertex vertices.

(** [combineVertices]. *)
Definition combineVertices (setsOfVertices : list (list RawPoint)) : list RawPoint :=
  match setsOfVertices with
  | [] => []
  | [vertices] =>
      if (List.length vertices <? 3)%nat then []
      else if existsb (fun v => negb (validVertex v)) vertices then []
      else vertices
  | _ =>
      match filter validSet setsOfVertices with
      | [] => []
      | first :: _ => first
      end
  end.

(** A set of two points followed by two unit squares. *)
Definition shortThenSquares : list (list RawPoint) :=
  [ map raw [(0, 0); (1, 0)];
    map raw [(0, 0); (1, 0); (1, 1); (0, 1)];
    map raw [(5, 5); (6, 5); (6, 6); (5, 6)] ].

(** The coordinates of a valid vertex. *)
Definition finite (v : RawPoint) : option Point :=
  match v with
  | (JS.Num a, JS.Num b) => Some (a, b)
  | _ => None
  end.

(** The points of a vertex list all of whose vertices are valid. *)
Fixpoint finiteAll (vs : list RawPoint) : option (list Point) :=
  match vs with
  | [] => Some []
  | v :: vs' =>
      match finite v, finiteAll vs' with
      | Some p, Some ps => Some (p :: ps)
      | _, _ => None
      end
  end.

(** maths.ts, [crossProduct]. *)
Definition crossProduct (o a b : Point) : Q :=
  (fst a - fst o) * (snd b - snd o) - (snd a - snd o) * (fst b - fst o).

(* ---------------- simplify-js ---------------- *)

(** simplify-js, [getSqSegDist]: the squared distance of [p] from the
    segment [p1 p2]. *)
Definition getSqSegDist (p p1 p2 : Point) : Q :=
  let dx := fst p2 - fst p1 in
  let dy := snd p2 - snd p1 in
  let '(cx, cy) :=
    if Qeq_bool dx 0 && Qeq_bool dy 0 then (fst p1, snd p1)
    else
      let t := ((fst p - fst p1) * dx + (snd p - snd p1) * dy) / (dx * dx + dy * dy) in
      if Qlt_le_dec 1 t then (fst p2, snd p2)
      else if Qlt_le_dec 0 t then (fst p1 + dx * t, snd p1 + dy * t)
      else (fst p1, snd p1) in
  (fst p - cx) * (fst p - cx) + (snd p - cy) * (snd p - cy).

(** The scan of [simplifyDPStep] over the points strictly between [first]
    and [last]: the position and squared distance of the first point that is
    farthest from the segment, when that is beyond [maxSqDist]. *)
Fixpoint farthest (first last : Point) (inner : list Point) (i : nat)
    (best : option nat) (maxSqDist : Q) : option nat * Q :=
  match inner with
  | [] => (best, maxSqDist)
  | p :: rest =>
      let sqDist := getSqSegDist p first last in
      if Qlt_le_dec maxSqDist sqDist
      then farthest first last rest (S i) (Some i) sqDist
      else farthest first last rest (S i) best maxSqDist
  end.

(** simplify-js, [simplifyDPStep]: the points kept strictly between [first]
    and [last].  The recursion is on a strictly shorter run of points each
    time, which [fuel] bounds. *)
Fixpoint simplifyDPStep (fuel : nat) (first last : Point) (inner : list Point)
    (sqTolerance : Q) : list Point :=
  match fuel with
  | O => []
  | S fuel' =>
      match farthest first last inner 0 None sqTolerance with
      | (Some i, _) =>
          match nth_error inner i with
          | Some pivot =>
              simplifyDPStep fuel' first pivot (firstn i inner) sqTolerance
              ++ pivot :: simplifyDPStep fuel' pivot last (skipn (S i) inner) sqTolerance
          | None => []
          end
      | (None, _) => []
      end
  end.

(** simplify-js, [simplifyDouglasPeucker]. *)
Definition simplifyDouglasPeucker (points : list Point) (sqTolerance : Q) : list Point :=
  match points with
  | [] => []
  | first :: rest =>
      match rev rest with
      | [] => [first; first]
      | last :: revInner =>
          let inner := rev revInner in
          first :: simplifyDPStep (S (List.length inner)) first last inner sqTolerance
                ++ [last]
      end
  end.

(** simplify-js, [simplify (points, tolerance, true)]: with the
    highest-quality flag the radial-distance pass is skipped. *)
Definition simplify (points : list Point) (tolerance : Q) : list Point :=
  if (List.length points <=? 2)%nat then points
  else simplifyDouglasPeucker points (tolerance * tolerance).

(* ---------------- poly-decomp ---------------- *)

(** [polygon[i]] for an index in range; the origin stands for [undefined]. *)
Definition at_ (polygon : list Point) (i : nat) : Point := nth i polygon (0, 0).

(** poly-decomp, [polygonAt]: the index taken modulo the length. *)
Definition polygonAt (polygon : list Point) (i : Z) : Point :=
  let s := Z.of_nat (List.length polygon) in
  at_ polygon (Z.to_nat (if (i <? 0)%Z then Z.rem i s + s else Z.rem i s)%Z).

(** poly-decomp, [triangleArea] and [isLeft]. *)
Definition triangleArea (a b c : Point) : Q :=
  (fst b - fst a) * (snd c - snd a) - (fst c - fst a) * (snd b - snd a).

Definition isLeft (a b c : Point) : bool :=
  if Qlt_le_dec 0 (triangleArea a b c) then true else false.

(** The scan of [makeCCW] for the bottom-most, then right-most vertex. *)
Fixpoint bottomRight (polygon : list Point) (rest : list Point) (i br : nat) : nat :=
  match rest with
  | [] => br
  | v :: rest' =>
      let b := at_ polygon br in
      let better :=
        (if Qlt_le_dec (snd v) (snd b) then true else false)
        || (Qeq_bool (snd v) (snd b) && (if Qlt_le_dec (fst b) (fst v) then true else false)) in
      bottomRight polygon rest' (S i) (if better then i else br)
  end.

(** poly-decomp, [makeCCW]: the polygon, reversed when it winds clockwise. *)
Definition makeCCW (polygon : list Point) : list Point :=
  let br := Z.of_nat (bottomRight polygon (tl polygon) 1 0) in
  if isLeft (polygonAt polygon (br - 1)) (polygonAt polygon br) (polygonAt polygon (br + 1))
  then polygon
  else rev polygon.

(** poly-decomp, [lineSegmentsIntersect]. *)
Definition lineSegmentsIntersect (p1 p2 q1 q2 : Point) : bool :=
  let dx := fst p2 - fst p1 in
  let dy := snd p2 - snd p1 in
  let da := fst q2 - fst q1 in
  let db := snd q2 - snd q1 in
  if Qeq_bool (da * dy - db * dx) 0 then false
  else
    let s := (dx * (snd q1 - snd p1) + dy * (fst p1 - fst q1)) / (da * dy - db * dx) in
    let t := (da * (snd p1 - snd q1) + db * (fst q1 - fst p1)) / (db * dx - da * dy) in
    Qle_bool 0 s && Qle_bool s 1 && Qle_bool 0 t && Qle_bool t 1.

(** poly-decomp, [isSimple]: no edge meets an earlier, non-adjacent edge, and
    the closing edge meets no edge between the second and the last but one
    vertex. *)
Definition isSimple (path : list Point) : bool :=
  let n := List.length path in
  forallb (fun i =>
    forallb (fun j =>
      negb (lineSegmentsIntersect (at_ path i) (at_ path (i + 1))
                                  (at_ path j) (at_ path (j + 1))))
      (List.seq 0 (i - 1)))
    (List.seq 0 (n - 1))
  && forallb (fun i =>
       negb (lineSegmentsIntersect (at_ path 0) (at_ path (n - 1))
                                   (at_ path i) (at_ path (i + 1))))
       (List.seq 1 (n - 3)).

(* ---------------- convex hull ---------------- *)

(** The scan of [computeConvexHull] for the lowest, then left-most point:
    [bottom] is updated only by a strictly lower or strictly more left point. *)
Fixpoint lowest (points : list Point) (rest : list Point) (i bottom : nat) : nat :=
  match rest with
  | [] => bottom
  | p :: rest' =>
      let b := at_ points bottom in
      let better :=
        (if Qlt_le_dec (snd p) (snd b) then true else false)
        || (Qeq_bool (snd p) (snd b) && (if Qlt_le_dec (fst p) (fst b) then true else false)) in
      lowest points rest' (S i) (if better then i else bottom)
  end.

(** [xs] with the element at position [i] replaced. *)
Fixpoint replaceAt (xs : list Point) (i : nat) (v : Point) : list Point :=
  match xs, i with
  | [], _ => []
  | _ :: xs', O => v :: xs'
  | u :: xs', S i' => u :: replaceAt xs' i' v
  end.

(** [[points[0], points[bottom]] = [points[bottom], points[0]]]. *)
Definition swapFirst (points : list Point) (bottom : nat) : list Point :=
  replaceAt (replaceAt points 0 (at_ points bottom)) bottom (at_ points 0).

(** The order of the angles [Math.atan2 (dy, dx)] is decided exactly: by the
    sector of the direction, [(-pi, 0)], [0], [(0, pi)] or [pi], and inside
    an open sector by [- dx / dy], which grows with the angle there. *)
Definition sector (dx dy : Q) : Z :=
  match Qcompare dy 0 with
  | Lt => 0%Z
  | Gt => 2%Z
  | Eq => match Qcompare dx 0 with Lt => 3%Z | _ => 1%Z end
  end.

Definition slopeKey (dx dy : Q) : Q :=
  match Qcompare dy 0 with
  | Eq => 0
  | _ => - dx / dy
  end.

(** The sign of [angleA - angleB]. *)
Definition angleCompare (pivot a b : Point) : comparison :=
  let ax := fst a - fst pivot in
  let ay := snd a - snd pivot in
  let bx := fst b - fst pivot in
  let by_ := snd b - snd pivot in
  match (sector ax ay ?= sector bx by_)%Z with
  | Eq => Qcompare (slopeKey ax ay) (slopeKey bx by_)
  | c => c
  end.

(** [Math.pow (a[0] - pivot[0], 2) + Math.pow (a[1] - pivot[1], 2)]. *)
Definition sqDist (pivot a : Point) : Q :=
  (fst a - fst pivot) * (fst a - fst pivot) + (snd a - snd pivot) * (snd a - snd pivot).

(** The comparator of the sort: by angle, then by distance; [true] when it
    does not put [b] before [a]. *)
Definition hullLe (pivot a b : Point) : bool :=
  match angleCompare pivot a b with
  | Lt => true
  | Gt => false
  | Eq => Qle_bool (sqDist pivot a) (sqDist pivot b)
  end.

(** [Array.prototype.sort] with a comparator: a stable sort. *)
Fixpoint insertSorted (le : Point -> Point -> bool) (v : Point) (sorted : list Point)
  : list Point :=
  match sorted with
  | [] => [v]
  | u :: rest => if le v u then v :: u :: rest else u :: insertSorted le v rest
  end.

Definition sortBy (le : Point -> Point -> bool) (xs : list Point) : list Point :=
  fold_right (insertSorted le) [] xs.

(** The [while] loop of the scan; the stack has its top first. *)
Fixpoint popNonLeft (point : Point) (stack : list Point) : list Point :=
  match stack with
  | top :: (second :: _) as below =>
      if Qle_bool (crossProduct second top point) 0
      then popNonLeft point below
      else stack
  | _ => stack
  end.

(** The body of the [for] loop of the scan. *)
Definition push (stack : list Point) (point : Point) : list Point :=
  point :: popNonLeft point stack.

(** The [for] loop of the scan. *)
Definition scan (pivot : Point) (sortedPoints : list Point) : list Point :=
  fold_left push sortedPoints [pivot].

(** [computeConvexHull]. *)
Definition computeConvexHull (points : list Point) : list Point :=
  if (List.length points <? 3)%nat then points
  else
    let bottom := lowest points (tl points) 1 0 in
    let swapped := swapFirst points bottom in
    let pivot := at_ swapped 0 in
    let sortedPoints := sortBy (hullLe pivot) (tl swapped) in
    rev (scan pivot sortedPoints).









Section Decomposition.

(** poly-decomp, [quickDecomp]: the library's decomposition of a simple
    polygon, whose parts may be anything an array can hold. *)
Variable quickDecomp : list Point -> list (list RawPoint).

(** [decomposeConcaveShape]. *)
Definition decomposeConcaveShape (vertices : list RawPoint) : list (list Point) :=
  if (List.length vertices <? 3)%nat then []
  else
    match finiteAll vertices with
    | None => []
    | Some vs =>
        let tolerance := 4 in
        let simplified := simplify vs tolerance in
        let pointsToUse := if (3 <=? List.length simplified)%nat then simplified else vs in
        let points := makeCCW pointsToUse in
        if isSimple points then
          let parts := quickDecomp points in
          let validParts := filter validSet parts in
          match validParts with
          | [] => []
          | _ =>
              fold_right
                (fun part acc =>
                   match finiteAll part with Some ps => ps :: acc | None => acc end)
                [] validParts
          end
        else
          let externalPoints := computeConvexHull points in
          if (List.length externalPoints <? 3)%nat then []
          else [externalPoints]
    end.



End Decomposition.


(** The plain bow tie. *)
Definition bowTie : list Point :=
  [(0, 0); (100, 0); (0, 100); (100, 100)].

End Geometry.


(* ------------------------------------------------------------------ *)
(** ** Resampling of Bezier paths: utils/geometry.ts, [resampleBezierPath] *)

Module Resample.

Import Geometry.
Local Open Scope Q_scope.

(** [Vertex]: a position and the two tangent handles, which may be missing. *)
Record Vertex : Type := {
  position : RawPoint;
  inTangent : option RawPoint;
  outTangent : option RawPoint
}.

Definition MIN_POINTS : nat := 3.
Definition MIN_AREA : Q := 1 # 10.

(** The sum of the shoelace formula over the edges that start in [pts],
    closed by the edge back to [first]. *)
Fixpoint shoelace (first : Point) (pts : list Point) : Q :=
  match pts with
  | [] => 0
  | p :: rest =>
      let q := match rest with [] => first | q :: _ => q end in
      fst p * snd q - fst q * snd p + shoelace first rest
  end.

(** [calculateArea]. *)
Definition calculateArea (points : list Point) : Q :=
  match points with
  | [] => 0
  | first :: _ => Qabs (shoelace first points) / 2
  end.

(** [isValidTangent]: the handle, when it is there and finite. *)
Definition validTangent (tangent : option RawPoint) : option Point :=
  match tangent with
  | Some t => finite t
  | None => None
  end.

Definition minimum (xs : list Q) : Q :=
  match xs with [] => 0 | v :: rest => fold_left Qmin rest v end.

Definition maximum (xs : list Q) : Q :=
  match xs with [] => 0 | v :: rest => fold_left Qmax rest v end.

(** [maxOffset]: twice the larger side of the bounding box of the positions. *)
Definition maxOffset (positions : list Point) : Q :=
  let shapeWidth := maximum (map fst positions) - minimum (map fst positions) in
  let shapeHeight := maximum (map snd positions) - minimum (map snd positions) in
  Qmax shapeWidth shapeHeight * 2.

(** The control point a tangent handle gives: the handle when it is valid
    and no farther than [maxOffset] from the vertex, else the vertex.  The
    code compares the distance, the model the squared distance with the
    square of the non-negative bound. *)
Definition controlPoint (vertex : Point) (tangent : option RawPoint) (bound : Q) : Point :=
  match validTangent tangent with
  | Some t =>
      if Qle_bool (sqDist vertex t) (bound * bound) then t else vertex
  | None => vertex
  end.

(** bezier-js, [compute (t)] of a cubic curve. *)
Definition bezierCompute (p0 p1 p2 p3 : Point) (t : Q) : Point :=
  let mt := 1 - t in
  let a := mt * mt * mt in
  let b := mt * mt * t * 3 in
  let c := mt * t * t * 3 in
  let d := t * t * t in
  (a * fst p0 + b * fst p1 + c * fst p2 + d * fst p3,
   a * snd p0 + b * snd p1 + c * snd p2 + d * snd p3).

(** bezier-js, [getLUT (steps)]: [steps + 1] points at the parameters
    [i / steps]; a step count of 0 stands for 100. *)
Definition getLUT (p0 p1 p2 p3 : Point) (steps : nat) : list Point :=
  let n := match steps with O => 100%nat | _ => steps end in
  map (fun i => bezierCompute p0 p1 p2 p3 (inject_Z (Z.of_nat i) / inject_Z (Z.of_nat n)))
      (List.seq 0 (S n)).

(** One step of the inner loop: [resampled], held last point first, after
    [point] was pushed or skipped as collinear. *)
Definition pushUnlessCollinear (resampled : list Point) (point : Point) : list Point :=
  match resampled with
  | p2 :: p1 :: _ =>
      let v1x := fst p2 - fst p1 in
      let v1y := snd p2 - snd p1 in
      let v2x := fst point - fst p2 in
      let v2y := snd point - snd p2 in
      let crossProduct := Qabs (v1x * v2y - v1y * v2x) in
      let minAngleThreshold := 5 # 1000 in
      if Qlt_le_dec crossProduct minAngleThreshold then resampled else point :: resampled
  | _ => point :: resampled
  end.

(** One step of the outer loop: the segment from [current] to [next]. *)
Definition resampleSegment (bound : Q) (samplesPerSegment : nat)
    (resampled : list Point) (current next : Point * option RawPoint * option RawPoint)
  : list Point :=
  let '(p0, _, currentOut) := current in
  let '(p3, nextIn, _) := next in
  let p1 := controlPoint p0 currentOut bound in
  let p2 := controlPoint p3 nextIn bound in
  let lut := getLUT p0 p1 p2 p3 samplesPerSegment in
  fold_left pushUnlessCollinear (removelast lut) resampled.

(** The vertices with checked positions, or nothing when a position is
    invalid. *)
Fixpoint checkedVertices (vertices : list Vertex)
  : option (list (Point * option RawPoint * option RawPoint)) :=
  match vertices with
  | [] => Some []
  | v :: rest =>
      match finite (position v), checkedVertices rest with
      | Some p, Some vs => Some ((p, inTangent v, outTangent v) :: vs)
      | _, _ => None
      end
  end.

(** The segments of the closed path: each vertex with the one after it, the
    last with the first. *)
Fixpoint segments {A : Type} (first : A) (vs : list A) : list (A * A) :=
  match vs with
  | [] => []
  | v :: rest =>
      (v, match rest with [] => first | w :: _ => w end) :: segments first rest
  end.

(** The resampled points before they are validated, in path order. *)
Definition resampledPoints (vs : list (Point * option RawPoint * option RawPoint))
    (samplesPerSegment : nat) : list Point :=
  match vs with
  | [] => []
  | first :: _ =>
      let bound := maxOffset (map (fun v => fst (fst v)) vs) in
      rev (fold_left
             (fun resampled seg =>
                resampleSegment bound samplesPerSegment resampled (fst seg) (snd seg))
             (segments first vs) [])
  end.

(** The validated resampled list: at least 3 points that enclose an area of
    at least [MIN_AREA]; nothing when the function returns [[]] early. *)
Definition validResampled (vertices : list Vertex) (samplesPerSegment : nat)
  : option (list Point) :=
  if (List.length vertices <? 2)%nat then None
  else
    match checkedVertices vertices with
    | None => None
    | Some vs =>
        let resampled := resampledPoints vs samplesPerSegment in
        if (List.length resampled <? 3)%nat then None
        else if Qlt_le_dec (calculateArea resampled) MIN_AREA then None
        else Some resampled
    end.

(** The curvature test of [importantPoints]: the cosine of the turn at
    [curr] is below 0.98.  With [d] the dot product and [n1], [n2] the squared
    lengths of the two (non-zero) directions, [d / sqrt (n1 * n2) < 0.98]
    holds exactly when [d < 0] or [d * d < 0.98^2 * n1 * n2]. *)
Definition turns (prev curr next : Point) : bool :=
  let v1x := fst curr - fst prev in
  let v1y := snd curr - snd prev in
  let v2x := fst next - fst curr in
  let v2y := snd next - snd curr in
  let n1 := v1x * v1x + v1y * v1y in
  let n2 := v2x * v2x + v2y * v2y in
  let d := v1x * v2x + v1y * v2y in
  if Qlt_le_dec 0 n1 then
    if Qlt_le_dec 0 n2 then
      if Qlt_le_dec d 0 then true
      else if Qlt_le_dec (d * d) ((9604 # 10000) * n1 * n2) then true else false
    else false
  else false.

(** The important points after [prev]: the last point, and every point where
    the path turns. *)
Fixpoint importantFrom (prev : Point) (rest : list Point) : list Point :=
  match rest with
  | [] => []
  | curr :: tail =>
      match tail with
      | [] => [curr]
      | next :: _ =>
          if turns prev curr next then curr :: importantFrom curr tail
          else importantFrom curr tail
      end
  end.

(** [importantPoints]. *)
Definition importantPoints (resampled : list Point) : list Point :=
  match resampled with
  | [] => []
  | first :: rest => first :: importantFrom first rest
  end.

(** [a.x === b.x && a.y === b.y], which is also when the keys
    [`${p.x},${p.y}`] agree. *)
Definition samePoint (a b : Point) : bool :=
  Qeq_bool (fst a) (fst b) && Qeq_bool (snd a) (snd b).

(** [resampled.findIndex (p => p.x === a.x && p.y === a.y)]. *)
Fixpoint findIndex (resampled : list Point) (a : Point) (i : Z) : Z :=
  match resampled with
  | [] => (-1)%Z
  | p :: rest => if samePoint p a then i else findIndex rest a (i + 1)%Z
  end.

(** The post-processing of the simplified list: important points that the
    simplification dropped are added back and the list is sorted by position
    in [resampled]. *)
Definition restoreImportant (resampled simplified : list Point) : list Point :=
  let important := importantPoints resampled in
  let useConstraints :=
    (MIN_POINTS <=? List.length important)%nat
    && (2 * List.length important <? List.length resampled)%nat in
  if useConstraints && negb (List.length important =? 0)%nat then
    let missingImportantPoints :=
      filter (fun p => negb (existsb (samePoint p) simplified)) important in
    match missingImportantPoints with
    | [] => simplified
    | _ =>
        sortBy (fun a b => (findIndex resampled a 0 <=? findIndex resampled b 0)%Z)
               (simplified ++ missingImportantPoints)
    end
  else simplified.

(** [resampleBezierPath]. *)
Definition resampleBezierPath (vertices : list Vertex) (samplesPerSegment : nat)
  : list Point :=
  match validResampled vertices samplesPerSegment with
  | None => []
  | Some resampled =>
      let tolerance := 4 in
      let simplified := restoreImportant resampled (simplify resampled tolerance) in
      if (List.length simplified <? MIN_POINTS)%nat then resampled else simplified
  end.

(** A vertex without tangent handles. *)
Definition corner (p : Point) : Vertex :=
  {| position := raw p; inTangent := None; outTangent := None |}.

(** A thin sliver: out to (100, 0) over a bump of height 3 and back to a
    point a thousandth above the start. *)
Definition sliver : list Vertex :=
  map corner [(0, 0); (50, 3); (100, 0); (0, 1 # 1000)].

(** The returned list as the specification words it: empty, or at least 3
    points that enclose an area of at least [MIN_AREA]. *)
Definition result_as_stated (vertices : list Vertex) (samplesPerSegment : nat) : Prop :=
  let r := resampleBezierPath vertices samplesPerSegment in
  r = [] \/ ((3 <= List.length r)%nat /\ MIN_AREA <= calculateArea r).

End Resample.

From Stdlib Require DecimalString.

(* ------------------------------------------------------------------ *)
(** ** Timecode display: [formatTime] (utils/timeUtils.ts, kept with
    utils/bodies.ts) *)

Module Timecode.

(** A field of the timecode as the function computes it: an integer, or
    [Infinity] or [NaN] when an argument is infinite. *)
Inductive field : Type :=
| Int (z : Z)
| Inf
| NaN.

(** [n.toString ()] of such a number.  Integers print in plain decimal
    (those from 10^21 on would print in exponent form). *)
Definition toString (n : field) : string :=
  match n with
  | Int z => DecimalString.NilZero.string_of_int (Z.to_int z)
  | Inf => "Infinity"
  | NaN => "NaN"
  end.

(** [s.padStart (2, "0")]. *)
Definition padStart2 (s : string) : string :=
  match String.length s with
  | O => "00"
  | 1%nat => String.append "0" s
  | _ => s
  end.

(** [timeInSeconds] after the first guard and [Math.max (0, timeInSeconds)].
    An omitted argument is [NaN] to the guard. *)
Definition cleanTime (timeInSeconds : JS.number) : JS.number :=
  match timeInSeconds with
  | JS.Num t => JS.Num (Qmax 0 t)
  | JS.PosInf => JS.PosInf
  | JS.NegInf => JS.Num 0
  | JS.NaN => JS.Num 0
  end.

(** [fps] after the second guard: 30 unless it is a number above 0.  An
    omitted argument takes the default 30 as well. *)
Definition cleanFps (fps : JS.number) : JS.number :=
  match fps with
  | JS.Num f => if Qle_bool f 0 then JS.Num 30 else JS.Num f
  | JS.PosInf => JS.PosInf
  | JS.NegInf => JS.Num 30
  | JS.NaN => JS.Num 30
  end.

(** The constants [minutes], [seconds] and [frames] of [formatTime]. *)
Definition fields (timeInSeconds fps : JS.number) : field * field * field :=
  match cleanTime timeInSeconds with
  | JS.Num t =>
      let totalSeconds := JS.floor t in
      let minutes := JS.floor (inject_Z totalSeconds / 60)%Q in
      let seconds := Z.rem totalSeconds 60 in
      let fractionalPart := (t - inject_Z totalSeconds)%Q in
      let frames :=
        match cleanFps fps with
        | JS.Num f =>
            let frameIndex := JS.round (fractionalPart * f) in
            Int (Z.min frameIndex (JS.floor f - 1))
        | _ =>
            (* [fractionalPart * Infinity] is [NaN] at 0, else [Infinity] *)
            if Qeq_bool fractionalPart 0 then NaN else Inf
        end in
      (Int minutes, Int seconds, frames)
  | _ =>
      (* [Infinity % 60] and [Infinity - Infinity] are [NaN] *)
      (Inf, NaN, NaN)
  end.

(** [formatTime]. *)
Definition formatTime (timeInSeconds fps : JS.number) : string :=
  let '(minutes, seconds, frames) := fields timeInSeconds fps in
  String.append (padStart2 (toString minutes))
    (String.append ":"
       (String.append (padStart2 (toString seconds))
          (String.append ":" (padStart2 (toString frames))))).

(** The seconds and the frame a timecode shows, when all its fields are
    integers. *)
Definition shown (timeInSeconds fps : JS.number) : option (Z * Z) :=
  match fields timeInSeconds fps with
  | (Int minutes, Int seconds, Int frames) => Some (60 * minutes + seconds, frames)
  | _ => None
  end.

(** The decimal digit [d] as a character. *)
Definition digit (d : Z) : Ascii.ascii := Ascii.ascii_of_nat (48 + Z.to_nat d).

(** The two digits of a number from 0 to 99. *)
Definition twoDigits (z : Z) : string :=
  String (digit (z / 10)) (String (digit (z mod 10)) EmptyString).

End Timecode.

(* ------------------------------------------------------------------ *)
(** ** Bodies of the current composition: utils/bodies.ts,
    [filterMatterBodies] *)

Module BodyFilter.

Section WithNumber.

(** The bodies are opaque here. *)
Variable B : Type.

(** [Number (s)] for a composition id held as a string: the integer it
    denotes, if it denotes one ([NaN] and fractions are no key of the
    project data). *)
Variable Number : string -> option Z.

(** The test of the filter on a layer id. *)
Definition inCurrentComp (compData : Plan.ProjectCompositions) (currentCompId : string)
    (layerId : Z) : bool :=
  match Number currentCompId with
  | Some compId =>
      match Plan.lookup compId compData with
      | Some comp => Plan.isSome (Plan.lookup layerId (Plan.layers comp))
      | None => false
      end
  | None => false
  end.

(** [filterMatterBodies]: the record of bodies by layer id, as
    [Object.entries] lists it. *)
Definition filterMatterBodies (matterBodies : list (Z * B))
    (compData : Plan.ProjectCompositions) (currentCompId : option string)
  : list (Z * B) :=
  match currentCompId with
  | None => matterBodies
  | Some s => filter (fun entry => inCurrentComp compData s (fst entry)) matterBodies
  end.

End WithNumber.

End BodyFilter.

(* ------------------------------------------------------------------ *)
(** ** The host adapter: jsx/aeft/aeft.ts

    The ExtendScript side reads the After Effects project.  A [Property] of
    the host is the part of it the samplers read: its keyframes, in the order
    of their indices 1 to [numKeys], and its evaluator [valueAtTime]. *)

Module Host.

Local Open Scope Q_scope.

Record Key : Type := {
  keyTime : Q;
  keyInHold : bool;   (* keyInInterpolationType (i) === HOLD *)
  keyOutHold : bool   (* keyOutInterpolationType (i) === HOLD *)
}.

Record Property (V : Type) : Type := {
  keys : list Key;
  valueAtTime : Q -> V
}.
Arguments keys {V} _.
Arguments valueAtTime {V} _ _.

(** The timing of the active composition. *)
Record CompItem : Type := {
  workAreaStart : Q;
  workAreaDuration : Q;
  frameRate : Q
}.

(** [t >= workAreaStart && t <= workAreaStart + workAreaDuration]. *)
Definition inWorkArea (comp : CompItem) (t : Q) : bool :=
  Qle_bool (workAreaStart comp) t
  && Qle_bool t (workAreaStart comp + workAreaDuration comp).

(** The loop [for (i = numKeys; i >= 1; i--)] of [getLastKey]: the key of
    the highest index whose time lies in the work area. *)
Definition lastKeyInside (comp : CompItem) (ks : list Key) : option Key :=
  find (fun k => inWorkArea comp (keyTime k)) (rev ks).

(** [prop.keyTime (numKeys)] and its interpolation: the key of the highest
    index. *)
Definition lastKey (first : Key) (rest : list Key) : Key := last rest first.

(** [getLastKey] of [fetchLayerData]: nothing without keys or without an
    active composition; else the frame, relative to the work-area start, of
    the last key inside the work area, or of the last key of all when none is
    inside. *)
Definition getLastKey (activeComp : option CompItem) (ks : list Key)
  : option Plan.LastKeyFrame :=
  match ks with
  | [] => None
  | first :: rest =>
      match activeComp with
      | None => None
      | Some comp =>
          let k :=
            match lastKeyInside comp ks with
            | Some k => k
            | None => lastKey first rest
            end in
          Some {| Plan.frame :=
                    JS.floor ((keyTime k - workAreaStart comp) * frameRate comp);
                  Plan.isHold := keyOutHold k || keyInHold k |}
      end
  end.

(** [Math.round (workAreaDuration * frameRate)]. *)
Definition totalFrames (comp : CompItem) : Z :=
  JS.round (workAreaDuration comp * frameRate comp).

(** The time of a frame of the work area: [workAreaStart + frame * frameDuration]
    with [frameDuration = 1 / frameRate]. *)
Definition timeOfFrame (comp : CompItem) (frame : Z) : Q :=
  workAreaStart comp + inject_Z frame * (1 / frameRate comp).

(** [buildSeries] of [fetchLayerData], for the gravity properties, which
    have keys when it is called on them; the [pre] argument is overwritten by
    the sample before the work area. *)
Definition buildSeries {V : Type} (comp : CompItem) (prop : Property V) (pre : V)
  : Plan.AnimatedSeries V :=
  {| Plan.preValue := valueAtTime prop (workAreaStart comp - 1 / frameRate comp);
     Plan.values :=
       map (fun frame => valueAtTime prop (timeOfFrame comp (Z.of_nat frame)))
           (List.seq 0 (Z.to_nat (totalFrames comp)));
     Plan.lastKeyFrame :=
       match keys prop with
       | [] => None
       | first :: rest =>
           let k := lastKey first rest in
           let lastIdx := JS.floor ((keyTime k - workAreaStart comp) * frameRate comp) in
           let lastIdx := if (lastIdx <? 0)%Z then 0%Z else lastIdx in
           let lastIdx :=
             if (totalFrames comp - 1 <? lastIdx)%Z then (totalFrames comp - 1)%Z
             else lastIdx in
           Some {| Plan.frame := lastIdx;
                   Plan.isHold := keyOutHold k || keyInHold k |}
       end |}.

(** [computeCentroid]: the mean of the points; [None] stands for the pair of
    [NaN] that the division by a length of 0 gives. *)
Definition computeCentroid (points : list (Q * Q)) : option (Q * Q) :=
  match points with
  | [] => None
  | _ =>
      let n := inject_Z (Z.of_nat (List.length points)) in
      let sumX := fold_left (fun s p => s + fst p) points 0 in
      let sumY := fold_left (fun s p => s + snd p) points 0 in
      Some (sumX / n, sumY / n)
  end.

End Host.

(** [Matrix2D] and its two operations, at the end of aeft.ts. *)
Module Matrix2D.

Local Open Scope Q_scope.

Record t : Type := {
  a : Q; b : Q; c : Q; d : Q; tx : Q; ty : Q
}.

(** [invertMatrix]: [null] when the determinant is below [1e-6] in absolute
    value. *)
Definition invertMatrix (m : t) : option t :=
  let det := a m * d m - b m * c m in
  if Qlt_le_dec (Qabs det) (1 # 1000000) then None
  else
    let invDet := 1 / det in
    Some {| a := d m * invDet;
            b := - b m * invDet;
            c := - c m * invDet;
            d := a m * invDet;
            tx := (b m * ty m - d m * tx m) * invDet;
            ty := (c m * tx m - a m * ty m) * invDet |}.

(** [applyMatrix]. *)
Definition applyMatrix (m : t) (point : Q * Q) : Q * Q :=
  (a m * fst point + b m * snd point + tx m,
   c m * fst point + d m * snd point + ty m).

End Matrix2D.

(* ------------------------------------------------------------------ *)
(** ** Playback of a recording: hooks/usePlayback.ts *)

Module Playback.

Import Matter.
Local Open Scope cmd_scope.

(** The variables the callbacks close over: [startTime], which is [null]
    until the first call, and [frameIndex]. *)
Record State : Type := {
  startTime : option Q;
  frameIndex : Z
}.

Definition initial : State := {| startTime := None; frameIndex := 0 |}.

(** What one call of [playAnimation] did: the index of the frame it applied
    to the bodies, if it applied one, and whether it asked for another
    animation frame. *)
Record Step : Type := {
  state : State;
  applied : option Z;
  again : bool
}.

(** One call of [playAnimation (timestamp)] over a recording of [frames];
    nothing when [frames[frameIndex]] is undefined and reading its bodies
    throws. *)
Definition playAnimation {F : Type} (frames : list F) (compFramerate : Q)
    (timestamp : Q) (st : State) : option Step :=
  let start :=
    match startTime st with
    | Some s => if JS.truthy s then s else timestamp
    | None => timestamp
    end in
  let frameDuration := (1000 / compFramerate)%Q in
  let elapsed := (timestamp - start)%Q in
  let targetFrameIndex := JS.floor (elapsed / frameDuration) in
  let clampedIndex := Z.min targetFrameIndex (JS.length frames - 1) in
  if clampedIndex =? frameIndex st then
    Some {| state := {| startTime := Some start; frameIndex := frameIndex st |};
            applied := None;
            again := frameIndex st <? JS.length frames - 1 |}
  else
    match JS.index frames clampedIndex with
    | Some _ =>
        Some {| state := {| startTime := Some start; frameIndex := clampedIndex |};
                applied := Some clampedIndex;
                again := clampedIndex <? JS.length frames - 1 |}
    | None => None
    end.

(** The calls that the animation frames at [timestamps] give rise to, from
    the state [st]: the indices of the frames applied, in order.  A call
    that does not ask for another animation frame ends the playback. *)
Fixpoint play {F : Type} (frames : list F) (compFramerate : Q)
    (timestamps : list Q) (st : State) : option (list Z) :=
  match timestamps with
  | [] => Some []
  | timestamp :: later =>
      match playAnimation frames compFramerate timestamp st with
      | None => None
      | Some step =>
          let shown := match applied step with Some i => [i] | None => [] end in
          if again step then
            match play frames compFramerate later (state step) with
            | Some rest => Some (shown ++ rest)
            | None => None
            end
          else Some shown
      end
  end.

(** [Math.max (typeof raw === "number" ? raw : 1, EPS)]: the scale a body
    currently has, as playback and keyframe forcing read it. *)
Definition currentScale (raw : option Q) : Q :=
  Qmax (match raw with Some v => v | None => 1%Q end) Sim.EPS.

(** The scale update of the body found for a recorded [bodyState], applied
    when the scale it has differs from the recorded one. *)
Definition applyScale (bodyState : Runner.BodyState) : Cmd :=
  reading (fun body =>
    let currentScaleX := currentScale (scaleX (plugin body)) in
    let currentScaleY := currentScale (scaleY (plugin body)) in
    let targetScaleX := Qmax (fst (Runner.bs_scale bodyState)) Sim.EPS in
    let targetScaleY := Qmax (snd (Runner.bs_scale bodyState)) Sim.EPS in
    when (negb (Qeq_bool currentScaleX targetScaleX)
          || negb (Qeq_bool currentScaleY targetScaleY))
      (emit (Body_scale (targetScaleX / currentScaleX) (targetScaleY / currentScaleY)) ;;
       emit (Write_pluginScale targetScaleX targetScaleY))).

(** The update of its opacity and colours, and of those of its parts. *)
Definition applyRender (bodyState : Runner.BodyState) : Cmd :=
  reading (fun body =>
    when (Sim.hasRender body)
      (emit (Write_opacity (Runner.bs_opacity bodyState)) ;;
       Sim.whenStr (Runner.bs_fillStyle bodyState) (fun s => emit (Write_fillStyle s)) ;;
       Sim.whenStr (Runner.bs_strokeStyle bodyState) (fun s => emit (Write_strokeStyle s)) ;;
       when (Sim.isCompound body)
         (emit (Parts_opacity (Runner.bs_opacity bodyState)) ;;
          Sim.whenStr (Runner.bs_fillStyle bodyState) (fun s => emit (Parts_fillStyle s)) ;;
          Sim.whenStr (Runner.bs_strokeStyle bodyState)
                      (fun s => emit (Parts_strokeStyle s))))).

(** The whole update of the body found for a recorded [bodyState]. *)
Definition applyBodyState (bodyState : Runner.BodyState) : Cmd :=
  emit (Body_setPosition {| x := x (Runner.bs_position bodyState);
                            y := y (Runner.bs_position bodyState) |}) ;;
  emit (Body_setAngle (Runner.bs_angle bodyState)) ;;
  applyScale bodyState ;;
  applyRender bodyState ;;
  emit (Sleeping_set false).

(** What the calls of [playAnimation] keep true of the state, where [lo] is
    a time that no later animation frame comes before: the frame index is an
    index of the recording; it is 0 until a start time other than 0 is set;
    and it never runs ahead of the time elapsed. *)
Definition inStep {F : Type} (frames : list F) (compFramerate : Q) (lo : Q) (st : State)
  : Prop :=
  0 <= frameIndex st <= JS.length frames - 1 /\
  match startTime st with
  | None => frameIndex st = 0
  | Some s =>
      (s <= lo)%Q /\
      (JS.truthy s = false -> frameIndex st = 0) /\
      frameIndex st <= JS.floor ((lo - s) / (1000 / compFramerate))
  end.

End Playback.

(* ------------------------------------------------------------------ *)
(** ** What a command on a body does and does not do *)

Module Commands.

Import Matter.

(** A command never throws. *)
Definition total (c : Cmd) : Prop := forall b, exists b' t, c b = Some (b', t).

(** A command leaves the field [f] of the body as it finds it. *)
Definition keeps {A : Type} (f : Body -> A) (c : Cmd) : Prop :=
  forall b b' t, c b = Some (b', t) -> f b' = f b.

(** The body that a trace of effects leaves. *)
Definition run (t : list Effect) (b : Body) : Body :=
  fold_left (fun b e => perform e b) t b.

(** [Body.scale] factors of a trace, multiplied up: the net scaling of the
    geometry along x and y. *)
Fixpoint netScale (t : list Effect) : Q * Q :=
  match t with
  | [] => (1, 1)%Q
  | Body_scale sx sy :: t' => (sx * fst (netScale t'), sy * snd (netScale t'))%Q
  | _ :: t' => netScale t'
  end.

(** Commands run one after the other. *)
Fixpoint sequence (cs : list Cmd) : Cmd :=
  match cs with
  | [] => skip
  | c :: cs' => seq c (sequence cs')
  end.

End Commands.

(* ------------------------------------------------------------------ *)
(** ** Reading a plan at a frame *)

Module Frames.

(** A series of the layer of a body, when the plan has the layer and the
    layer has the series. *)
Definition seriesOf {T : Type} (plan : Plan.AnimationPlan) (layerId : option Z)
    (f : Plan.LayerPlan -> option (Plan.Series T)) : option (Plan.Series T) :=
  match Sim.layerOf plan layerId with
  | Some lp => f lp
  | None => None
  end.

(** The frame lies after the last keyframe of the series, if there is a
    series. *)
Definition pastKeys {T : Type} (s : option (Plan.Series T)) (currentCompIdx : Z) : Prop :=
  match s with
  | Some r => Sim.lastOr r < currentCompIdx
  | None => True
  end.

End Frames.

(* ------------------------------------------------------------------ *)
(** ** Plans the host can read at their last keyframes *)

Module Sampled.

(** Every position series of the plan has a sample at its last keyframe:
    the index of the keyframe is below the number of samples. *)
Definition atLastKey (plan : Plan.AnimationPlan) : Prop :=
  forall layerId lp s,
    Plan.lookup layerId (Plan.plan_layers plan) = Some lp ->
    Plan.position lp = Some s ->
    Sim.lastOr s < JS.length (Plan.svalues s).

(** The same for the plan the runner holds, if it holds one. *)
Definition planAtLastKey (plan : option Plan.AnimationPlan) : Prop :=
  match plan with
  | Some p => atLastKey p
  | None => True
  end.

(** A position keyed at the very end of a work area of 4 frames: the last
    keyframe is frame 4, one past the samples 0 to 3. *)
Definition keyedAtEnd : Plan.Series (Q * Q) :=
  {| Plan.pre := (0, 0)%Q;
     Plan.svalues := [(0, 0); (10, 0); (20, 0); (30, 0)]%Q;
     Plan.last := Some 4;
     Plan.hold := Some false |}.

End Sampled.

(* ------------------------------------------------------------------ *)
(** ** The entry of a layer in the plan *)

Module Planned.

(** The entry [buildAnimationPlan] makes for a layer: none for a layer
    without animated properties or without any series that has a last
    keyframe. *)
Definition entry (l : Plan.Layer) : option Plan.LayerPlan :=
  match Plan.animatedProperties l with
  | Some ap =>
      if Plan.nonEmpty (Plan.planLayer l ap) then Some (Plan.planLayer l ap) else None
  | None => None
  end.

(** A layer with a rotation series that has no last keyframe. *)
Definition unkeyed : Plan.Layer :=
  {| Plan.name := "Shape Layer 2";
     Plan.layer_isStatic := None;
     Plan.inOut := None;
     Plan.animatedProperties :=
       Some {| Plan.ap_position := None;
               Plan.ap_rotation :=
                 Some {| Plan.preValue := 0%Q; Plan.values := [0%Q; 0%Q];
                         Plan.lastKeyFrame := None |};
               Plan.ap_scale := None; Plan.ap_anchorPoint := None;
               Plan.ap_bodyType := None; Plan.ap_density := None;
               Plan.ap_friction := None; Plan.ap_frictionAir := None;
               Plan.ap_restitution := None |};
     Plan.startPropertiesValues := None |}.

End Planned.

(* ------------------------------------------------------------------ *)
(** ** Small scenes the properties are evaluated on *)

Module Scenes.

(** A layer plan without any series. *)
Definition still : Plan.LayerPlan :=
  {| Plan.lp_name := "Shape Layer 1"; Plan.position := None; Plan.rotation := None;
     Plan.scale := None; Plan.anchorPoint := None; Plan.density := None;
     Plan.friction := None; Plan.frictionAir := None; Plan.restitution := None;
     Plan.bodyType := None |}.

(** Layer plans with one series each. *)
Definition moving (s : Plan.Series (Q * Q)) : Plan.LayerPlan :=
  {| Plan.lp_name := "Shape Layer 1"; Plan.position := Some s; Plan.rotation := None;
     Plan.scale := None; Plan.anchorPoint := None; Plan.density := None;
     Plan.friction := None; Plan.frictionAir := None; Plan.restitution := None;
     Plan.bodyType := None |}.

Definition turning (s : Plan.Series Q) : Plan.LayerPlan :=
  {| Plan.lp_name := "Shape Layer 1"; Plan.position := None; Plan.rotation := Some s;
     Plan.scale := None; Plan.anchorPoint := None; Plan.density := None;
     Plan.friction := None; Plan.frictionAir := None; Plan.restitution := None;
     Plan.bodyType := None |}.

Definition scaling (s : Plan.Series (Q * Q)) : Plan.LayerPlan :=
  {| Plan.lp_name := "Shape Layer 1"; Plan.position := None; Plan.rotation := None;
     Plan.scale := Some s; Plan.anchorPoint := None; Plan.density := None;
     Plan.friction := None; Plan.frictionAir := None; Plan.restitution := None;
     Plan.bodyType := None |}.

(** A layer plan with a friction series and a body-type series. *)
Definition switching (friction bodyType : Plan.Series Q) : Plan.LayerPlan :=
  {| Plan.lp_name := "Shape Layer 1"; Plan.position := None; Plan.rotation := None;
     Plan.scale := None; Plan.anchorPoint := None; Plan.density := None;
     Plan.friction := Some friction; Plan.frictionAir := None; Plan.restitution := None;
     Plan.bodyType := Some bodyType |}.

(** The plan of one layer. *)
Definition planOf (layerId : Z) (lp : Plan.LayerPlan) : Plan.AnimationPlan :=
  {| Plan.physicsStartFrame := -1; Plan.plan_layers := [(layerId, lp)] |}.

(** A position held by a hold keyframe at frame 1. *)
Definition parked : Plan.Series (Q * Q) :=
  {| Plan.pre := (0, 0)%Q;
     Plan.svalues := [(0, 0); (40, 40); (40, 40); (40, 40)]%Q;
     Plan.last := Some 1;
     Plan.hold := Some true |}.

(** A quarter turn keyed from frame 0 to frame 3. *)
Definition quarterTurn : Plan.Series Q :=
  {| Plan.pre := 0%Q;
     Plan.svalues := [0; 30; 60; 90; 90; 90]%Q;
     Plan.last := Some 3;
     Plan.hold := Some false |}.

(** A scale keyed from 100% at frame 0 to 200% at frame 2. *)
Definition grow : Plan.Series (Q * Q) :=
  {| Plan.pre := (100, 100)%Q;
     Plan.svalues := [(100, 100); (150, 150); (200, 200); (200, 200)]%Q;
     Plan.last := Some 2;
     Plan.hold := None |}.

(** A friction keyed down to 0 at frame 2. *)
Definition icy : Plan.Series Q :=
  {| Plan.pre := (1 # 10)%Q;
     Plan.svalues := [1 # 10; 1 # 20; 0; 0]%Q;
     Plan.last := Some 2;
     Plan.hold := None |}.

(** A body type keyed from static (2) to dynamic (1) at frame 2. *)
Definition released : Plan.Series Q :=
  {| Plan.pre := 2%Q;
     Plan.svalues := [2; 2; 1; 1]%Q;
     Plan.last := Some 2;
     Plan.hold := None |}.

(** A body type keyed from dynamic (1) to static (2) at frame 1. *)
Definition frozen : Plan.Series Q :=
  {| Plan.pre := 1%Q;
     Plan.svalues := [1; 2; 2; 2]%Q;
     Plan.last := Some 1;
     Plan.hold := None |}.

End Scenes.

(* ================================================================== *)
(** * Properties *)

Lemma round_spec (x : Q) :
(inject_Z (JS.round x) <= x + (1 # 2))%Q /\ (x + (1 # 2) < inject_Z (JS.round x + 1))%Q.
Proof.
unfold JS.round. split.
- apply Qfloor_le.
- apply Qlt_floor.
Qed.

Lemma round_comp (x y : Q) : (x == y)%Q -> JS.round x = JS.round y.
Proof.
intro H. unfold JS.round. apply Qfloor_comp. rewrite H. reflexivity.
Qed.

Lemma round_inject_Z (z : Z) : JS.round (inject_Z z) = z.
Proof.
unfold JS.round.
assert (Hlo : (inject_Z z <= inject_Z z + (1 # 2))%Q) by lra.
assert (Hhi : (inject_Z z + (1 # 2) < inject_Z (z + 1))%Q).
{ rewrite inject_Z_plus. change (inject_Z 1) with 1%Q. lra. }
pose proof (Qfloor_le (inject_Z z + (1 # 2))) as H1.
pose proof (Qlt_floor (inject_Z z + (1 # 2))) as H2.
assert (Ha : (inject_Z z < inject_Z (Qfloor (inject_Z z + (1 # 2)) + 1))%Q) by lra.
assert (Hb : (inject_Z (Qfloor (inject_Z z + (1 # 2))) < inject_Z (z + 1))%Q) by lra.
rewrite <- Zlt_Qlt in Ha, Hb. lia.
Qed.

Lemma index_Some_length {A : Type} (xs : list A) (i : Z) (a : A) :
JS.index xs i = Some a -> 0 <= i < JS.length xs.
Proof.
unfold JS.index, JS.length. destruct (Z.ltb_spec i 0) as [|Hi]; [discriminate|].
intro H. assert (Hn : (Z.to_nat i < List.length xs)%nat).
{ apply nth_error_Some. congruence. }
lia.
Qed.

Lemma index_in_range {A : Type} (xs : list A) (i : Z) :
0 <= i < JS.length xs -> exists a, JS.index xs i = Some a.
Proof.
unfold JS.index, JS.length. intros [H0 H1].
destruct (Z.ltb_spec i 0) as [|_]; [lia|].
destruct (nth_error xs (Z.to_nat i)) as [a|] eqn:E; [eauto|].
apply nth_error_None in E. lia.
Qed.


(* ------------------------------------------------------------------ *)
(** ** Visibility gating *)

Section Gating.

Import InOut.

Lemma truthy_nonzero (t : Q) : ~ (t == 0)%Q -> JS.truthy t = true.
Proof.
intro H. unfold JS.truthy. destruct (Qeq_bool t 0) eqn:E; [|reflexivity].
apply Qeq_bool_eq in E. contradiction.
Qed.

Lemma truthy_zero (t : Q) : (t == 0)%Q -> JS.truthy t = false.
Proof.
intro H. unfold JS.truthy. apply Qeq_eq_bool in H. rewrite H. reflexivity.
Qed.

(** The in-frame the code uses is the rounded product, also when the in
    seconds are zero (the guard then yields 0, which is what rounding gives). *)
Lemma inPointFrame_round (tin compFramerate : Q) (rest : list Q) :
  inPointFrame (Some (tin :: rest)) compFramerate = JS.round (tin * compFramerate).
Proof.
unfold inPointFrame, truthy_at. simpl.
destruct (JS.truthy tin) eqn:E; [reflexivity|].
unfold JS.truthy in E. apply negb_false_iff in E. apply Qeq_bool_eq in E.
symmetry. rewrite (round_comp (tin * compFramerate) (inject_Z 0)).
- apply round_inject_Z.
- rewrite E. change (inject_Z 0) with 0%Q. ring.
Qed.

(** The out-frame the code uses is the rounded product only for non-zero out
    seconds; zero is read as "no out point". *)
Lemma outPointFrame_round (tin tout compFramerate : Q) (rest : list Q) :
  ~ (tout == 0)%Q ->
  outPointFrame (Some (tin :: tout :: rest)) compFramerate
  = JS.Finite (JS.round (tout * compFramerate)).
Proof.
intro H. unfold outPointFrame, truthy_at. simpl.
rewrite (truthy_nonzero _ H). reflexivity.
Qed.

Lemma outPointFrame_zero (tin tout compFramerate : Q) (rest : list Q) :
  (tout == 0)%Q ->
  outPointFrame (Some (tin :: tout :: rest)) compFramerate = JS.Infinity.
Proof.
intro H. unfold outPointFrame, truthy_at. simpl.
rewrite (truthy_zero _ H). reflexivity.
Qed.

(** C6 (as amended).  For a body with in seconds [tin] and non-zero out
    seconds [tout], whose in-frame [F_in = round (tin * fps)] lies strictly
    after the work-area start frame and whose out-frame is
    [F_out = round (tout * fps)]: [checkInOutStatus] reports the body disabled
    at every frame of [workAreaStart, F_in) and at every frame from [F_out]
    on, and enabled at every frame of [F_in, F_out). *)
Theorem checkInOutStatus_gating
    (tin tout compFramerate workareaStart : Q) (rest : list Q) :
  ~ (tout == 0)%Q ->
  JS.round (workareaStart * compFramerate) < JS.round (tin * compFramerate) ->
  (forall f,
      JS.round (workareaStart * compFramerate) <= f < JS.round (tin * compFramerate) ->
      isDisabled (checkInOutStatus (Some (tin :: tout :: rest)) f compFramerate workareaStart)
      = true) /\
  (forall f,
      JS.round (tout * compFramerate) <= f ->
      isDisabled (checkInOutStatus (Some (tin :: tout :: rest)) f compFramerate workareaStart)
      = true) /\
  (forall f,
      JS.round (tin * compFramerate) <= f < JS.round (tout * compFramerate) ->
      isDisabled (checkInOutStatus (Some (tin :: tout :: rest)) f compFramerate workareaStart)
      = false).
Proof.
intros Hout Hin.
unfold checkInOutStatus; cbn [isDisabled].
rewrite inPointFrame_round, (outPointFrame_round _ _ _ _ Hout).
cbn [JS.geb_bound].
repeat split; intros f Hf.
- apply orb_true_iff; left. apply andb_true_iff; split; apply Z.ltb_lt; lia.
- apply orb_true_iff; right. apply Z.leb_le; lia.
- apply orb_false_iff; split.
  + apply andb_false_iff; right. apply Z.ltb_ge; lia.
  + apply Z.leb_gt; lia.
Qed.

(** The amended property at a layer visible from 1s to 2s in a 30 fps
    composition whose work area starts at 0. *)
Lemma checkInOutStatus_gating_witness :
  isDisabled (checkInOutStatus (Some [1%Q; 2%Q]) 10 30%Q 0%Q) = true /\
  isDisabled (checkInOutStatus (Some [1%Q; 2%Q]) 75 30%Q 0%Q) = true /\
  isDisabled (checkInOutStatus (Some [1%Q; 2%Q]) 45 30%Q 0%Q) = false.
Proof.
destruct (checkInOutStatus_gating 1%Q 2%Q 30%Q 0%Q []) as (Hbefore & Hafter & Hin).
- intro H; discriminate H.
- vm_compute; reflexivity.
- split; [|split].
  + apply Hbefore. vm_compute. split; [intro H | reflexivity]; discriminate H.
  + apply Hafter. vm_compute. intro H; discriminate H.
  + apply Hin. vm_compute. split; [intro H | reflexivity]; discriminate H.
Defined.

(** C6 as stated fails when the out seconds are zero: the guard
    [inOut[1] ? ... : Infinity] then gives no out-frame at all, so frame 30 of
    a layer with in/out seconds [1; 0] is enabled although it is past the
    rounded out-frame 0. *)
Lemma checkInOutStatus_zero_out_counterexample :
  ~ gating_as_stated 1%Q 0%Q 30%Q 0%Q.
Proof.
unfold gating_as_stated. intro H.
destruct H as (_ & Hafter & _); [vm_compute; reflexivity|].
specialize (Hafter 30). vm_compute in Hafter.
assert (E : true = false -> False) by discriminate.
apply E. symmetry. apply Hafter. intro C; discriminate C.
Qed.

End Gating.

(* ------------------------------------------------------------------ *)
(** ** The animation plan *)

Section PhysicsStart.

Import Plan.

(** The gating frame after one more layer only depends on the layer's position
    last keyframe. *)
Lemma planStep_fst (m : Z) (lp : list (Z * LayerPlan)) (id : Z) (l : Layer) :
  fst (planStep (m, lp) (id, l))
  = match positionLast l with Some f => Z.max m f | None => m end.
Proof.
unfold planStep, positionLast.
destruct (animatedProperties l) as [ap|]; [|reflexivity].
cbn [fst planLayer position]. unfold collectHold.
destruct (ap_position ap) as [s|]; [|reflexivity].
destruct (lastKeyFrame s) as [k|]; reflexivity.
Qed.

Lemma fold_planStep_fst (ls : list (Z * Layer)) (st : Z * list (Z * LayerPlan)) :
  fst (fold_left planStep ls st) = fold_left Z.max (positionLastFrames ls) (fst st).
Proof.
revert st. induction ls as [|[id l] ls IH]; intros [m lp]; [reflexivity|].
cbn [fold_left positionLastFrames]. rewrite IH.
destruct (planStep (m, lp) (id, l)) as [m' lp'] eqn:E.
assert (Hm : m' = fst (planStep (m, lp) (id, l))) by (rewrite E; reflexivity).
rewrite planStep_fst in Hm. cbn [fst]. subst m'.
destruct (positionLast l); reflexivity.
Qed.

Lemma fold_max_ge (fs : list Z) (m : Z) : m <= fold_left Z.max fs m.
Proof.
revert m. induction fs as [|f fs IH]; intro m; cbn [fold_left]; [lia|].
specialize (IH (Z.max m f)). lia.
Qed.

Lemma fold_max_bound (fs : list Z) (m : Z) :
  Forall (fun f => f <= fold_left Z.max fs m) fs.
Proof.
revert m. induction fs as [|f fs IH]; intro m; cbn [fold_left]; constructor.
- pose proof (fold_max_ge fs (Z.max m f)). lia.
- apply IH.
Qed.

Lemma fold_max_attained (fs : list Z) (m : Z) :
  fold_left Z.max fs m = m \/ In (fold_left Z.max fs m) fs.
Proof.
revert m. induction fs as [|f fs IH]; intro m; cbn [fold_left]; [left; reflexivity|].
destruct (IH (Z.max m f)) as [E|HIn].
- rewrite E. destruct (Z.max_spec m f) as [[_ ->]|[_ ->]]; [right; left|left]; reflexivity.
- right; right; exact HIn.
Qed.

Lemma positionLastFrames_agree (ls ls' : list (Z * Layer)) :
  Forall2 (fun e e' => positionLast (snd e) = positionLast (snd e')) ls ls' ->
  positionLastFrames ls = positionLastFrames ls'.
Proof.
induction 1 as [|[i l] [i' l'] ls ls' H _ IH]; [reflexivity|].
cbn [positionLastFrames]. cbn [snd] in H. rewrite H, IH. reflexivity.
Qed.

Lemma buildAnimationPlan_formula (currentCompId : option Z)
    (compData : option ProjectCompositions) :
  physicsStartFrame (buildAnimationPlan currentCompId compData)
  = match selected currentCompId compData with
    | Some comp => fold_left Z.max (positionLastFrames (layers comp)) (-1)
    | None => -1
    end.
Proof.
unfold buildAnimationPlan.
destruct (selected currentCompId compData) as [comp|]; [|reflexivity].
pose proof (fold_planStep_fst (layers comp) (-1, [])) as H.
destruct (fold_left planStep (layers comp) (-1, [])) as [m lp].
cbn [fst physicsStartFrame] in *. exact H.
Qed.

(** C4 (as amended).  The [physicsStartFrame] that [buildAnimationPlan]
    returns is the maximum of -1 and the position-series [lastKeyFrame.frame]
    of all layers of the selected composition: it is their maximum as soon as
    one of them is at least -1, and it is -1 when no layer has a position last
    keyframe (or no composition is selected).  It is a function of the
    position last keyframes alone: two compositions whose layers agree on them
    get the same value, whatever their rotation, scale, anchor, density,
    friction, frictionAir, restitution and bodyType series are. *)
Theorem buildAnimationPlan_physicsStartFrame (currentCompId : option Z)
    (compData : option ProjectCompositions) :
  match selected currentCompId compData with
  | None => physicsStartFrame (buildAnimationPlan currentCompId compData) = -1
  | Some comp =>
      let r := physicsStartFrame (buildAnimationPlan currentCompId compData) in
      let fs := positionLastFrames (layers comp) in
      r = fold_left Z.max fs (-1) /\
      ((exists f, In f fs /\ -1 <= f) -> is_max r fs) /\
      (fs = [] -> r = -1) /\
      (forall currentCompId' compData' comp',
          selected currentCompId' compData' = Some comp' ->
          Forall2 (fun e e' => positionLast (snd e) = positionLast (snd e'))
                  (layers comp) (layers comp') ->
          physicsStartFrame (buildAnimationPlan currentCompId' compData') = r)
  end.
Proof.
rewrite buildAnimationPlan_formula.
destruct (selected currentCompId compData) as [comp|]; [|reflexivity].
cbv zeta. repeat split.
- destruct H as (f & Hf & Hge).
  destruct (fold_max_attained (positionLastFrames (layers comp)) (-1)) as [E|HIn];
    [|exact HIn].
  pose proof (fold_max_bound (positionLastFrames (layers comp)) (-1)) as Hb.
  rewrite Forall_forall in Hb. specialize (Hb f Hf).
  rewrite E in *. assert (f = -1) by lia. subst f. exact Hf.
- apply fold_max_bound.
- intros ->. reflexivity.
- intros id' data' comp' Hsel Hagree.
  rewrite buildAnimationPlan_formula, Hsel.
  rewrite (positionLastFrames_agree _ _ Hagree). reflexivity.
Qed.

(** C4 as stated fails when every position last keyframe lies before frame
    -1, which the host adapter produces for keys before the work area: for the
    single frame -5 the builder answers -1, which is neither the maximum nor a
    frame of any layer. *)
Lemma buildAnimationPlan_negative_frame_counterexample :
  ~ physicsStart_as_stated 7
      [(7, layersOnly [(1, positionOnlyLayer "Shape Layer 1" (-5))])].
Proof.
unfold physicsStart_as_stated. cbn. intros [Hmax _].
destruct Hmax as [[H|[]] _]; [discriminate|discriminate].
Qed.

End PhysicsStart.

(* ------------------------------------------------------------------ *)
(** ** Body creation options and body-type change *)

Section BodiesFacts.

Import Matter Bodies.

(** C3.  The [isStatic] creation option of the compound body and the
    [layerData.isStaticInitial] flag of its plugin, both computed as
    [sp?.bodyType === 1 ? false : true || isStatic], are [true] for every
    layer whose start body type is not 1 (or that has no start properties),
    whatever the layer's own static flag says. *)
Theorem createMatterBody_isStatic_not_dynamic
    (layerData : Plan.Layer) (layerId : Z) (sp : option Plan.StartProperties) :
  bodyTypeIs sp 1 = false ->
  opt_isStatic (compoundOptions layerData layerId sp) = true /\
  ld_isStaticInitial (opt_layerData (compoundOptions layerData layerId sp)) = Some true /\
  (forall isStatic : bool, compoundIsStatic sp isStatic = true).
Proof.
intro H. unfold compoundOptions; cbn [opt_isStatic opt_layerData ld_isStaticInitial].
unfold compoundIsStatic. rewrite H. cbn [orb]. repeat split.
Qed.

(** A layer whose own flag says "not static" and whose start body type is 2
    still gets a static compound body. *)
Lemma createMatterBody_isStatic_not_dynamic_witness :
  opt_isStatic
    (compoundOptions (layerWithBodyType (Some false) 2) 1 (Some (startWithBodyType 2)))
  = true.
Proof.
destruct (createMatterBody_isStatic_not_dynamic
            (layerWithBodyType (Some false) 2) 1 (Some (startWithBodyType 2)))
  as [H _].
- reflexivity.
- exact H.
Defined.

(** With start body type 1 the same expression is [false]: the flag of the
    layer is never consulted. *)
Lemma compoundIsStatic_dynamic (sp : option Plan.StartProperties) (isStatic : bool) :
  bodyTypeIs sp 1 = true -> compoundIsStatic sp isStatic = false.
Proof. intro H. unfold compoundIsStatic. rewrite H. reflexivity. Qed.

(** C10.  [setBodyType] on a body whose plugin has no [initialProperties]
    record returns at once: it performs no effect and hands back the very
    same body, so the static flag, mass, inertia, friction, frictionAir,
    restitution, the velocities and the plugin are unchanged, in the static
    and in the dynamic direction alike. *)
Theorem setBodyType_missing_initialProperties (body : Body) (toStatic : bool) :
  initialProperties (plugin body) = None ->
  setBodyType toStatic body = Some (body, []).
Proof.
intro H. unfold setBodyType, reading. rewrite H. reflexivity.
Qed.

(** A body that [Bodies.fromVertices] made, never given initial properties,
    is left alone in both directions. *)
Lemma setBodyType_missing_initialProperties_witness :
  setBodyType true plainBody = Some (plainBody, []) /\
  setBodyType false plainBody = Some (plainBody, []).
Proof.
split; apply setBodyType_missing_initialProperties; reflexivity.
Defined.

(** With the record present the same call does act on the body. *)
Lemma setBodyType_with_initialProperties (body : Body) (toStatic : bool)
    (ip : InitialProperties) :
  initialProperties (plugin body) = Some ip ->
  exists body' e trace,
    setBodyType toStatic body = Some (body', e :: trace) /\
    plugin_isStatic (plugin body') = Some toStatic /\
    isStatic body' = toStatic.
Proof.
intro H. unfold setBodyType, reading. rewrite H.
destruct toStatic; cbv [seq emit app]; eexists _, _, _; split; try reflexivity;
  split; reflexivity.
Qed.

End BodiesFacts.

(* ------------------------------------------------------------------ *)
(** ** Keyframe forcing and gating of the per-body pass *)

Section SimFacts.

Import Matter Sim.

Lemma seq_skip_l (c : Cmd) (b : Body) : seq skip c b = c b.
Proof.
unfold seq, skip. destruct (c b) as [[b' t]|]; reflexivity.
Qed.

Lemma seq_emit (e : Effect) (c : Cmd) (b : Body) :
  seq (emit e) c b
  = match c (perform e b) with
    | Some (b', t) => Some (b', e :: t)
    | None => None
    end.
Proof. reflexivity. Qed.

(** C2.  For a position series whose last-keyframe index [K] lies inside the
    expected composition-frame range, is not flagged hold and has a sample
    [v[K]]: [forcePosition] at index [K] moves the body to [v[K]] and then
    sets its velocity to [(v[K] - v[K-1]) * (simulationFps / compFramerate)]
    componentwise, with the pre-value in place of [v[K-1]] when [K = 0]; that
    is the only velocity it sets.  At index [K + 1] it performs no effect at
    all, so neither position nor velocity is set. *)
Theorem forcePosition_velocity_handoff
    (plan : Plan.AnimationPlan) (layerId : option Z) (lp : Plan.LayerPlan)
    (s : Plan.Series (Q * Q)) (K expectedCompFrames : Z)
    (simulationFps compFramerate : Q) (body : Body) :
  layerOf plan layerId = Some lp ->
  Plan.position lp = Some s ->
  Plan.last s = Some K ->
  0 <= K < expectedCompFrames ->
  holdOr s = false ->
  K < JS.length (Plan.svalues s) ->
  exists vK vPrev,
    JS.index (Plan.svalues s) K = Some vK /\
    previousSample s K = Some vPrev /\
    forcePosition layerId plan K expectedCompFrames simulationFps compFramerate body
    = Some (perform (Body_setVelocity (handoffVelocity vK vPrev simulationFps compFramerate))
              (perform (Sleeping_set false)
                 (perform (Body_setPosition {| x := fst vK; y := snd vK |}) body)),
            [Body_setPosition {| x := fst vK; y := snd vK |};
             Sleeping_set false;
             Body_setVelocity (handoffVelocity vK vPrev simulationFps compFramerate)]) /\
    (forall body' trace,
        forcePosition layerId plan K expectedCompFrames simulationFps compFramerate body
        = Some (body', trace) ->
        velocity body' = handoffVelocity vK vPrev simulationFps compFramerate /\
        position body' = {| x := fst vK; y := snd vK |}) /\
    (forall later,
        forcePosition layerId plan (K + 1) expectedCompFrames simulationFps compFramerate later
        = Some (later, [])).
Proof.
intros Hlp Hpos Hlast [HK0 HKe] Hhold Hlen.
destruct (index_in_range (Plan.svalues s) K (conj HK0 Hlen)) as [vK HvK].
assert (Hprev : exists vPrev, previousSample s K = Some vPrev).
{ unfold previousSample. destruct (Z.ltb_spec 0 K) as [Hpos0|_]; [|eauto].
  apply index_in_range. lia. }
destruct Hprev as [vPrev HvPrev].
exists vK, vPrev. split; [exact HvK|]. split; [exact HvPrev|].
assert (Hlo : lastOr s = K) by (unfold lastOr; rewrite Hlast; reflexivity).
assert (Hat : forcePosition layerId plan K expectedCompFrames simulationFps compFramerate body
    = Some (perform (Body_setVelocity (handoffVelocity vK vPrev simulationFps compFramerate))
              (perform (Sleeping_set false)
                 (perform (Body_setPosition {| x := fst vK; y := snd vK |}) body)),
            [Body_setPosition {| x := fst vK; y := snd vK |};
             Sleeping_set false;
             Body_setVelocity (handoffVelocity vK vPrev simulationFps compFramerate)])).
{ unfold forcePosition. rewrite Hlp, Hpos, Hlo, Hhold.
  assert (E1 : (0 <=? K) = true) by (apply Z.leb_le; lia).
  assert (E2 : (K <? expectedCompFrames) = true) by (apply Z.ltb_lt; lia).
  assert (E3 : (K <=? K) = true) by (apply Z.leb_le; lia).
  assert (E4 : (K <? JS.length (Plan.svalues s)) = true) by (apply Z.ltb_lt; lia).
  assert (E5 : (K <? K) = false) by (apply Z.ltb_ge; lia).
  assert (E6 : (K =? K) = true) by (apply Z.eqb_eq; reflexivity).
  rewrite E1, E2, E3, E4, E5, E6, HvK. cbn [andb orb negb].
  destruct vK as [px py]. cbn [fst snd].
  unfold previousSample in HvPrev.
  destruct (0 <? K) eqn:E0.
  - rewrite HvPrev. reflexivity.
  - injection HvPrev as <-. reflexivity. }
split; [exact Hat|]. split.
- intros body' trace Hrun. rewrite Hat in Hrun. injection Hrun as <- _.
  split; reflexivity.
- intro later. unfold forcePosition. rewrite Hlp, Hpos, Hlo, Hhold.
  assert (E1 : (0 <=? K) = true) by (apply Z.leb_le; lia).
  assert (E2 : (K <? expectedCompFrames) = true) by (apply Z.ltb_lt; lia).
  assert (E3 : (K + 1 <=? K) = false) by (apply Z.leb_gt; lia).
  assert (E4 : (K + 1 =? K) = false) by (apply Z.eqb_neq; lia).
  rewrite E1, E2, E3, E4. reflexivity.
Qed.

(** The hand-off of the linear move keyed up to frame 3, in a 30 fps
    composition simulated at 50 ticks per second. *)
Lemma forcePosition_velocity_handoff_witness :
  exists vK vPrev,
    JS.index (Plan.svalues linearMove) 3 = Some vK /\
    previousSample linearMove 3 = Some vPrev /\
    forcePosition (Some 1) (positionPlan 1 linearMove) 3 60 50 30 (layerBody 1 [])
    = Some (perform (Body_setVelocity (handoffVelocity vK vPrev 50 30))
              (perform (Sleeping_set false)
                 (perform (Body_setPosition {| x := fst vK; y := snd vK |})
                          (layerBody 1 []))),
            [Body_setPosition {| x := fst vK; y := snd vK |};
             Sleeping_set false;
             Body_setVelocity (handoffVelocity vK vPrev 50 30)]) /\
    (forall body' trace,
        forcePosition (Some 1) (positionPlan 1 linearMove) 3 60 50 30 (layerBody 1 [])
        = Some (body', trace) ->
        velocity body' = handoffVelocity vK vPrev 50 30 /\
        position body' = {| x := fst vK; y := snd vK |}) /\
    (forall later,
        forcePosition (Some 1) (positionPlan 1 linearMove) (3 + 1) 60 50 30 later
        = Some (later, [])).
Proof.
apply (forcePosition_velocity_handoff (positionPlan 1 linearMove) (Some 1)
         {| Plan.lp_name := "Shape Layer 1"; Plan.position := Some linearMove;
            Plan.rotation := None; Plan.scale := None; Plan.anchorPoint := None;
            Plan.density := None; Plan.friction := None; Plan.frictionAir := None;
            Plan.restitution := None; Plan.bodyType := None |}
         linearMove 3 60 50 30 (layerBody 1 [])).
- reflexivity.
- reflexivity.
- reflexivity.
- split; [intro H; discriminate H | reflexivity].
- reflexivity.
- reflexivity.
Defined.

(** The hand-off velocity of that example is 10 px per frame times 50/30. *)
Example linearMove_handoff :
  option_map (fun r => velocity (fst r))
    (forcePosition (Some 1) (positionPlan 1 linearMove) 3 60 50 30 (layerBody 1 []))
  = Some {| x := (30 - 20) * (50 / 30); y := (0 - 0) * (50 / 30) |}.
Proof. reflexivity. Qed.

(** Before the last keyframe the velocity is zeroed instead. *)
Example linearMove_forced :
  option_map snd
    (forcePosition (Some 1) (positionPlan 1 linearMove) 2 60 50 30 (layerBody 1 []))
  = Some [Body_setPosition {| x := 20; y := 0 |};
          Body_setVelocity {| x := 0; y := 0 |};
          Sleeping_set false].
Proof. reflexivity. Qed.

(** [applyDisabledState] never fails; its effects are those of
    [disabledTrace]. *)
Lemma applyDisabledState_trace (body : Body) :
  exists body',
    applyDisabledState body = Some (body', disabledTrace body) /\
    isSleeping body' = true /\ category body' = 0 /\ mask body' = 0 /\
    position body' = position body /\ velocity body' = velocity body /\
    angle body' = angle body /\ angularVelocity body' = angularVelocity body /\
    isStatic body' = isStatic body /\ mass body' = mass body /\
    inertia body' = inertia body /\ density body' = density body /\
    friction body' = friction body /\ frictionAir body' = frictionAir body /\
    restitution body' = restitution body /\ plugin body' = plugin body.
Proof.
unfold applyDisabledState, disabledTrace, reading, when, hasRender, isCompound.
rewrite seq_emit. cbn [perform render children].
destruct (render body) as [r|] eqn:Er; destruct (children body) as [|c cs] eqn:Ec;
  cbv [seq emit skip perform set_render set_children app render children
       isSleeping category mask position velocity angle angularVelocity isStatic
       mass inertia density friction frictionAir restitution plugin option_map];
  rewrite ?Er, ?Ec; eexists; (split; [reflexivity|]); repeat split.
Qed.

Lemma disabledTrace_harmless (body : Body) :
  Forall (fun e => isKeyframeForcing e = false /\ isMaterialForcing e = false /\
                   isBodyTypeSwitch e = false)
         (disabledTrace body).
Proof.
unfold disabledTrace.
destruct (hasRender body), (isCompound body); repeat constructor.
Qed.

(** The switch itself is guarded a second time by the flag it is passed. *)
Lemma handleBodyTypeSwitch_disabled (layerId : option Z) (plan : Plan.AnimationPlan)
    (currentCompIdx : Z) (body : Body) :
  handleBodyTypeSwitch layerId plan currentCompIdx true body = Some (body, []).
Proof.
unfold handleBodyTypeSwitch.
destruct (layerOf plan layerId) as [lp|]; [|reflexivity].
destruct (Plan.bodyType lp) as [s|]; [|reflexivity].
destruct ((lastOr s <? currentCompIdx) || (JS.length (Plan.svalues s) <=? currentCompIdx));
  reflexivity.
Qed.

(** The callback of the loop stops at the gating when the body is disabled. *)
Lemma processBody_when_disabled
    (plan : Plan.AnimationPlan) (nextCompFrame currentCompIdx expectedCompFrames : Z)
    (simulationFps compFramerate workareaStart frictionAirDefault : Q) (body : Body) :
  InOut.isDisabled
    (InOut.checkInOutStatus (Runner.inOutOf body) nextCompFrame compFramerate workareaStart)
  = true ->
  Runner.processBody plan nextCompFrame currentCompIdx expectedCompFrames
    simulationFps compFramerate workareaStart frictionAirDefault body
  = applyDisabledState body.
Proof.
intro Hdis. unfold Runner.processBody, reading. rewrite Hdis. reflexivity.
Qed.

(** C5.  In the per-body pass of a tick, when [checkInOutStatus] reports the
    body disabled the pass is exactly [applyDisabledState]: the body is put to
    sleep, its opacity (and that of its parts) is reduced to 0.25 and its
    collision category and mask are set to zero; no effect of the pass forces
    position, rotation or scale, forces a material property, or switches the
    body type, and the kinematic, material and plugin fields of the body are
    left as they were. *)
Theorem processBody_disabled_only_gates
    (plan : Plan.AnimationPlan) (nextCompFrame currentCompIdx expectedCompFrames : Z)
    (simulationFps compFramerate workareaStart frictionAirDefault : Q) (body : Body) :
  InOut.isDisabled
    (InOut.checkInOutStatus (Runner.inOutOf body) nextCompFrame compFramerate workareaStart)
  = true ->
  exists body',
    Runner.processBody plan nextCompFrame currentCompIdx expectedCompFrames
      simulationFps compFramerate workareaStart frictionAirDefault body
    = Some (body', disabledTrace body) /\
    Runner.processBody plan nextCompFrame currentCompIdx expectedCompFrames
      simulationFps compFramerate workareaStart frictionAirDefault body
    = applyDisabledState body /\
    Forall (fun e => isKeyframeForcing e = false /\ isMaterialForcing e = false /\
                     isBodyTypeSwitch e = false)
           (disabledTrace body) /\
    isSleeping body' = true /\ category body' = 0 /\ mask body' = 0 /\
    position body' = position body /\ velocity body' = velocity body /\
    angle body' = angle body /\ angularVelocity body' = angularVelocity body /\
    isStatic body' = isStatic body /\ mass body' = mass body /\
    inertia body' = inertia body /\ density body' = density body /\
    friction body' = friction body /\ frictionAir body' = frictionAir body /\
    restitution body' = restitution body /\ plugin body' = plugin body.
Proof.
intro Hdis.
pose proof (processBody_when_disabled plan nextCompFrame currentCompIdx expectedCompFrames
              simulationFps compFramerate workareaStart frictionAirDefault body Hdis) as Hrun.
destruct (applyDisabledState_trace body) as (body' & Htrace & Hfields).
exists body'. rewrite Hrun. split; [exact Htrace|]. split; [reflexivity|].
split; [apply disabledTrace_harmless | exact Hfields].
Qed.

(** A layer visible from 1s to 2s, looked at in frame 10 of a 30 fps
    composition: it is before its in point, hence only gated. *)
Lemma processBody_disabled_only_gates_witness :
  exists body',
    Runner.processBody (positionPlan 1 linearMove) 10 9 60 50 30 0 0 (layerBody 1 [1; 2]%Q)
    = Some (body', disabledTrace (layerBody 1 [1; 2]%Q)) /\
    position body' = position (layerBody 1 [1; 2]%Q) /\
    isSleeping body' = true.
Proof.
destruct (processBody_disabled_only_gates (positionPlan 1 linearMove) 10 9 60 50 30 0 0
            (layerBody 1 [1; 2]%Q)) as (body' & Hrun & _ & _ & Hs & _ & _ & Hp & _).
- reflexivity.
- exists body'. split; [exact Hrun|]. split; [exact Hp | exact Hs].
Defined.

(** [forEach] runs the callback on every body, in order. *)
Lemma forEachBody_each (callback : Cmd) (bs bs' : list Body) :
  Runner.forEachBody callback bs = Some bs' ->
  Forall2 (fun b b' => exists trace, callback b = Some (b', trace)) bs bs'.
Proof.
revert bs'. induction bs as [|b bs IH]; intros bs' H; cbn [Runner.forEachBody] in H.
- injection H as <-. constructor.
- destruct (callback b) as [[b1 t]|] eqn:E; [|discriminate].
  destruct (Runner.forEachBody callback bs) as [rest|]; [|discriminate].
  injection H as <-. constructor; [exists t; exact E | apply IH; reflexivity].
Qed.

(** So in every tick each disabled body of the world is only gated. *)
Lemma forEachBody_gates_disabled
    (plan : Plan.AnimationPlan) (nextCompFrame currentCompIdx expectedCompFrames : Z)
    (simulationFps compFramerate workareaStart frictionAirDefault : Q)
    (bs bs' : list Body) :
  Runner.forEachBody
    (Runner.processBody plan nextCompFrame currentCompIdx expectedCompFrames
       simulationFps compFramerate workareaStart frictionAirDefault) bs = Some bs' ->
  Forall2
    (fun b b' =>
       InOut.isDisabled
         (InOut.checkInOutStatus (Runner.inOutOf b) nextCompFrame compFramerate workareaStart)
       = true ->
       applyDisabledState b = Some (b', disabledTrace b))
    bs bs'.
Proof.
intro H. apply forEachBody_each in H.
induction H as [|b b' bs bs' [trace Hrun] _ IH]; constructor; [|exact IH].
intro Hdis. rewrite (processBody_when_disabled _ _ _ _ _ _ _ _ _ Hdis) in Hrun.
destruct (applyDisabledState_trace b) as (b1 & Ht & _).
rewrite Ht in Hrun. injection Hrun as <- _. exact Ht.
Qed.

(** A layer without in and out points is enabled, and the pass does force
    it. *)
Example processBody_enabled_forces :
  option_map (fun r => existsb isKeyframeForcing (snd r))
    (Runner.processBody (positionPlan 1 linearMove) 3 2 60 50 30 0 0 (layerBody 1 []))
  = Some true.
Proof. vm_compute. reflexivity. Qed.

End SimFacts.

(* ------------------------------------------------------------------ *)
(** ** Snapshot sampling of the runner *)

Lemma floor_greatest (z : Z) (y : Q) : (inject_Z z <= y)%Q -> z <= Qfloor y.
Proof.
intro H. pose proof (Qlt_floor y) as Hy.
assert (Hlt : (inject_Z z < inject_Z (Qfloor y + 1))%Q) by lra.
rewrite <- Zlt_Qlt in Hlt. lia.
Qed.

Lemma round_mono (x y : Q) : (x <= y)%Q -> JS.round x <= JS.round y.
Proof.
intro H. unfold JS.round. apply Qfloor_resp_le. lra.
Qed.

Lemma round_step (x r : Q) : (1 <= r)%Q -> JS.round x + 1 <= JS.round (x + r).
Proof.
intro Hr. unfold JS.round. apply floor_greatest.
rewrite inject_Z_plus. change (inject_Z 1) with 1%Q.
pose proof (Qfloor_le (x + (1 # 2))). lra.
Qed.

Lemma round_le_ceil (x : Q) : JS.round x <= JS.ceil x.
Proof.
unfold JS.round, JS.ceil.
pose proof (Qfloor_le (x + (1 # 2))) as Hf.
pose proof (Qle_ceiling x) as Hc.
assert (Hlt : (inject_Z (Qfloor (x + (1 # 2))) < inject_Z (Qceiling x + 1))%Q).
{ rewrite inject_Z_plus. change (inject_Z 1) with 1%Q. lra. }
rewrite <- Zlt_Qlt in Hlt. lia.
Qed.

Section Sampling.

Import Matter Runner.

Variable Engine_update : Engine -> Q -> Engine.
Variable workarea : Q * Q.
Variable compFramerate : Q.
Variable comp : option Plan.CompositionData.
Variable plan : option Plan.AnimationPlan.

Let run := calculateAllFrames Engine_update workarea compFramerate comp plan.
Let step := iteration Engine_update workarea compFramerate comp plan.

(** What one iteration does to the counter and to the frame times. *)
Lemma iteration_counters (physicsFrame : Z) (st st' : LoopState) :
  step physicsFrame st = Some st' ->
  nextCompFrame st'
  = (if due workarea compFramerate physicsFrame (nextCompFrame st)
     then nextCompFrame st + 1 else nextCompFrame st) /\
  map time (frames st')
  = map time (frames st)
    ++ (if due workarea compFramerate physicsFrame (nextCompFrame st)
        then [frameTime workarea compFramerate (nextCompFrame st)] else []).
Proof.
unfold step, iteration.
destruct (updateGravity (engine st) comp _) as [engine1 fad].
match goal with |- match ?p with _ => _ end = _ -> _ => destruct p as [bs|] end;
  [|discriminate].
destruct (due workarea compFramerate physicsFrame (nextCompFrame st));
  intro H; injection H as <-; cbn [nextCompFrame frames].
- split; [reflexivity|]. rewrite map_app. reflexivity.
- split; [reflexivity|]. rewrite app_nil_r. reflexivity.
Qed.

Lemma frameTimes_snoc (n : nat) :
  frameTimes workarea compFramerate (S n)
  = frameTimes workarea compFramerate n
    ++ [frameTime workarea compFramerate (Z.of_nat (S n))].
Proof.
unfold frameTimes. rewrite seq_S, map_app. reflexivity.
Qed.

Let captured_in_order := capturedInOrder workarea compFramerate.

Lemma iteration_in_order (physicsFrame : Z) (st st' : LoopState) :
  captured_in_order st -> step physicsFrame st = Some st' -> captured_in_order st'.
Proof.
intros [H1 Ht] Hstep. destruct (iteration_counters _ _ _ Hstep) as [Hn Hf].
unfold captured_in_order, capturedInOrder. rewrite Hn, Hf, Ht.
destruct (due workarea compFramerate physicsFrame (nextCompFrame st)).
- split; [lia|].
  replace (Z.to_nat (nextCompFrame st + 1 - 1)) with (S (Z.to_nat (nextCompFrame st - 1)))
    by lia.
  rewrite frameTimes_snoc. do 3 f_equal. lia.
- split; [lia|]. apply app_nil_r.
Qed.

Lemma loop_in_order (n : nat) (physicsFrame : Z) (st st' : LoopState) :
  captured_in_order st ->
  loop Engine_update workarea compFramerate comp plan n physicsFrame st = Some st' ->
  captured_in_order st' /\
  nextCompFrame st' = nextAfter workarea compFramerate n physicsFrame (nextCompFrame st).
Proof.
revert physicsFrame st. induction n as [|n IH]; intros p st Hinv Hloop; cbn [loop] in Hloop.
- injection Hloop as <-. split; [exact Hinv | reflexivity].
- fold step in Hloop. destruct (step p st) as [st1|] eqn:E; [|discriminate].
  destruct (IH _ _ (iteration_in_order _ _ _ Hinv E) Hloop) as [Hinv' Hnext].
  split; [exact Hinv'|]. rewrite Hnext. cbn [nextAfter].
  destruct (iteration_counters _ _ _ E) as [-> _]. reflexivity.
Qed.

(** Every completed run publishes the composition frames 0 to
    [lastCaptured], one snapshot each, at times one frame duration apart. *)
Lemma calculateAllFrames_times (engine0 : Engine) (fs : list FrameData) :
  run engine0 = Some fs ->
  map time fs
  = frameTimes workarea compFramerate (Z.to_nat (lastCaptured workarea compFramerate)).
Proof.
unfold run, calculateAllFrames, lastCaptured.
destruct (loop _ _ _ _ _ _ _ _) as [st'|] eqn:E; [|discriminate].
cbn [option_map]. intro H; injection H as <-.
apply loop_in_order in E.
- destruct E as [[_ Ht] Hn]. rewrite Ht, Hn. reflexivity.
- split; cbn [nextCompFrame frames]; [lia | reflexivity].
Qed.

(** The recurrence on the counters never passes [expectedCompFrames + 1]. *)
Lemma nextAfter_bound (n : nat) (p next : Z) :
  next <= expectedCompFrames workarea compFramerate + 1 ->
  nextAfter workarea compFramerate n p next
  <= expectedCompFrames workarea compFramerate + 1.
Proof.
revert p next. induction n as [|n IH]; intros p next H; cbn [nextAfter]; [exact H|].
apply IH. unfold due. destruct (p =? _); cbn [andb]; [|exact H].
destruct (Z.leb_spec next (expectedCompFrames workarea compFramerate)); lia.
Qed.

(** Up to 50 frames per second no composition frame is missed: when the
    work area is a whole number [N] of frames long, the last frame captured
    is frame [N]. *)
Lemma lastCaptured_complete (N : Z) :
  (0 < compFramerate)%Q -> (compFramerate <= 50)%Q ->
  0 <= N ->
  (workareaDurationSeconds workarea * compFramerate == inject_Z N)%Q ->
  lastCaptured workarea compFramerate = N.
Proof.
intros Hpos H50 HN Hwhole.
set (r := samplingRatio compFramerate).
assert (Hr : (1 <= r)%Q).
{ unfold r, samplingRatio, SIMULATION_FPS. apply Qle_shift_div_l; [exact Hpos|]. lra. }
assert (HE : expectedCompFrames workarea compFramerate = N).
{ unfold expectedCompFrames. rewrite (round_comp _ _ Hwhole). apply round_inject_Z. }
set (e := expectedPhysicsFrame compFramerate).
assert (Hstep : forall n, e n + 1 <= e (n + 1)).
{ intro n. unfold e, expectedPhysicsFrame. fold r.
  rewrite (round_comp (inject_Z (n + 1) * r) (inject_Z n * r + r)).
  - apply round_step. exact Hr.
  - rewrite inject_Z_plus. change (inject_Z 1) with 1%Q. ring. }
assert (Hmono : forall n m, n <= m -> e n <= e m).
{ intros n m Hnm. unfold e, expectedPhysicsFrame. fold r. apply round_mono.
  assert (Hq : (inject_Z n <= inject_Z m)%Q) by (rewrite <- Zle_Qle; exact Hnm).
  apply Qmult_le_compat_r; lra. }
assert (HeN : e N <= totalPhysicsFrames workarea).
{ unfold e, expectedPhysicsFrame, totalPhysicsFrames. fold r.
  rewrite (round_comp (inject_Z N * r)
             (workareaDurationSeconds workarea * SIMULATION_FPS)).
  - apply round_le_ceil.
  - rewrite <- Hwhole. unfold r, samplingRatio. field. lra. }
assert (He1 : 0 <= e 1).
{ pose proof (Hstep 0) as H0. cbn [Z.add] in H0.
  assert (Hz : e 0 = 0).
  { unfold e, expectedPhysicsFrame. rewrite (round_comp _ (inject_Z 0)).
    - apply round_inject_Z.
    - change (inject_Z 0) with 0%Q. ring. }
  lia. }
assert (HT : 0 <= totalPhysicsFrames workarea).
{ pose proof (Hmono 1 N) as H1N. destruct (Z.eq_dec N 0) as [->|Hne].
  - assert (Hz : e 0 = 0).
    { unfold e, expectedPhysicsFrame. rewrite (round_comp _ (inject_Z 0)).
      - apply round_inject_Z.
      - change (inject_Z 0) with 0%Q. ring. }
    lia.
  - lia. }
(* the pending frame is never behind the physics frame *)
assert (Hinv : forall n p next,
           next <= N + 1 -> (next <= N -> p <= e next) ->
           let next' := nextAfter workarea compFramerate n p next in
           next' <= N + 1 /\ (next' <= N -> p + Z.of_nat n <= e next')).
{ induction n as [|n IH]; intros p next Hb Hp; cbn [nextAfter].
  - cbv zeta. split; [exact Hb|]. intro H. specialize (Hp H). lia.
  - cbv zeta.
    assert (Hcase :
      let nx := if due workarea compFramerate p next then next + 1 else next in
      nx <= N + 1 /\ (nx <= N -> p + 1 <= e nx)).
    { unfold due. fold e. rewrite HE.
      destruct (Z.eqb_spec p (e next)) as [Heq|Hne]; cbn [andb].
      - destruct (Z.leb_spec next N) as [Hle|Hgt].
        + cbv zeta. split; [lia|]. intros _. pose proof (Hstep next). lia.
        + cbv zeta. split; [lia|]. intro H. lia.
      - cbv zeta. split; [exact Hb|]. intro H. specialize (Hp H). lia. }
    cbv zeta in Hcase. destruct Hcase as [Hb' Hp'].
    specialize (IH (p + 1) _ Hb' Hp'). cbv zeta in IH. destruct IH as [IH1 IH2].
    split; [exact IH1|]. intro H. specialize (IH2 H). lia. }
unfold lastCaptured.
specialize (Hinv (Z.to_nat (totalPhysicsFrames workarea + 1)) 0 1).
cbv zeta in Hinv. destruct Hinv as [Hb Hp]; [lia | intros _; lia |].
set (last := nextAfter workarea compFramerate
               (Z.to_nat (totalPhysicsFrames workarea + 1)) 0 1) in *.
destruct (Z.le_gt_cases last N) as [Hle|Hgt]; [|lia].
specialize (Hp Hle). pose proof (Hmono last N Hle). lia.
Qed.

(** So a run at up to 50 fps over a work area of [N] whole frames that
    completes publishes exactly the frames 0 to [N]. *)
Lemma calculateAllFrames_complete_upto_50fps (N : Z) (engine0 : Engine)
    (fs : list FrameData) :
  (0 < compFramerate)%Q -> (compFramerate <= 50)%Q ->
  0 <= N ->
  (workareaDurationSeconds workarea * compFramerate == inject_Z N)%Q ->
  run engine0 = Some fs ->
  map time fs = frameTimes workarea compFramerate (Z.to_nat N).
Proof.
intros Hpos H50 HN Hwhole Hrun.
rewrite (calculateAllFrames_times _ _ Hrun), (lastCaptured_complete N); auto.
Qed.

End Sampling.

Section SixtyFrames.

Import Matter Runner.

(** C1, evaluated at a 60 fps composition with the work area [0s, 1s].  The
    run is expected to publish the composition frames 0 to 60, but whatever
    the world, the plan and the solver are, a run that completes publishes the
    four frames 0 to 3 only: frames 3 and 4 are both due at physics frame 3,
    the loop tests [physicsFrame === expectedPhysicsFrame] once per physics
    frame, and after frame 3 the physics frame has passed the one frame 4 is
    due at, so nothing is captured any more. *)
Theorem calculateAllFrames_stalls_at_60fps
    (Engine_update : Engine -> Q -> Engine) (comp : option Plan.CompositionData)
    (plan : option Plan.AnimationPlan) (engine0 : Engine) (fs : list FrameData) :
  calculateAllFrames Engine_update (0, 1)%Q 60 comp plan engine0 = Some fs ->
  expectedCompFrames (0, 1)%Q 60 = 60 /\
  expectedPhysicsFrame 60 3 = 3 /\
  expectedPhysicsFrame 60 4 = 3 /\
  map time fs = frameTimes (0, 1)%Q 60 3 /\
  List.length fs = 4%nat.
Proof.
intro Hrun.
assert (Ht : map time fs = frameTimes (0, 1)%Q 60 3).
{ rewrite (calculateAllFrames_times _ _ _ _ _ _ _ Hrun).
  replace (lastCaptured (0, 1)%Q 60) with 3 by (vm_compute; reflexivity).
  reflexivity. }
repeat split; try (vm_compute; reflexivity); [exact Ht|].
rewrite <- (length_map time), Ht. reflexivity.
Qed.

(** The run over an empty world with a solver that only advances the clock
    completes, with those four frames. *)
Lemma calculateAllFrames_stalls_at_60fps_witness :
  exists fs,
    calculateAllFrames tickClock (0, 1)%Q 60 None
      (Some (Plan.buildAnimationPlan None None)) emptyEngine = Some fs /\
    List.length fs = 4%nat.
Proof.
eexists. split.
- vm_compute. reflexivity.
- eapply (calculateAllFrames_stalls_at_60fps tickClock None
            (Some (Plan.buildAnimationPlan None None)) emptyEngine).
  vm_compute. reflexivity.
Defined.

(** At 25 fps over the same work area all 26 frames are published. *)
Example calculateAllFrames_25fps :
  option_map (map time)
    (calculateAllFrames tickClock (0, 1)%Q 25 None
       (Some (Plan.buildAnimationPlan None None)) emptyEngine)
  = Some (frameTimes (0, 1)%Q 25 25).
Proof. vm_compute. reflexivity. Qed.

End SixtyFrames.

(* ------------------------------------------------------------------ *)
(** ** Combining vertex sets *)

Section Combine.

Import Geometry.

Lemma filter_first_split {A : Type} (f : A -> bool) (l : list A) (a : A) (rest : list A) :
  filter f l = a :: rest ->
  exists before after,
    l = before ++ a :: after /\ forallb (fun v => negb (f v)) before = true /\ f a = true.
Proof.
induction l as [|v l IH]; cbn [filter]; [discriminate|].
destruct (f v) eqn:E.
- intro H; injection H as <- _. exists [], l. repeat split. exact E.
- intro H. destruct (IH H) as (before & after & -> & Hb & Ha).
  exists (v :: before), after. repeat split.
  + cbn [forallb]. rewrite E, Hb. reflexivity.
  + exact Ha.
Qed.

Lemma filter_none {A : Type} (f : A -> bool) (l : list A) :
  filter f l = [] <-> forallb (fun v => negb (f v)) l = true.
Proof.
induction l as [|v l IH]; cbn [filter forallb]; [tauto|].
destruct (f v); cbn [negb andb].
- split; discriminate.
- exact IH.
Qed.

Lemma validSet_nonempty (vertices : list RawPoint) : validSet vertices = true -> vertices <> [].
Proof.
unfold validSet. destruct vertices; [discriminate|]. intros _ H; discriminate H.
Qed.

(** C9.  [combineVertices] never merges geometry.  For an input of two or
    more vertex sets the result is the first set that passes validation (at
    least 3 points, all coordinates finite numbers): every set before it
    fails validation and every set after it, valid or not, is discarded; the
    result is empty exactly when no set validates. *)
Theorem combineVertices_first_valid (setsOfVertices : list (list RawPoint)) :
  (2 <= List.length setsOfVertices)%nat ->
  ((exists before first after,
       setsOfVertices = before ++ first :: after /\
       forallb (fun s => negb (validSet s)) before = true /\
       validSet first = true /\
       combineVertices setsOfVertices = first)
   \/
   (forallb (fun s => negb (validSet s)) setsOfVertices = true /\
    combineVertices setsOfVertices = [])) /\
  (combineVertices setsOfVertices = []
   <-> forallb (fun s => negb (validSet s)) setsOfVertices = true).
Proof.
intro Hlen.
assert (Hc : combineVertices setsOfVertices
             = match filter validSet setsOfVertices with [] => [] | first :: _ => first end).
{ destruct setsOfVertices as [|s1 [|s2 rest]]; cbn [List.length] in Hlen; try lia.
  reflexivity. }
rewrite Hc.
destruct (filter validSet setsOfVertices) as [|first others] eqn:E.
- apply filter_none in E. split; [right; split; [exact E | reflexivity] | tauto].
- destruct (filter_first_split _ _ _ _ E) as (before & after & Hs & Hb & Hv).
  split.
  + left. exists before, first, after. repeat split; assumption.
  + split.
    * intro H. exfalso. exact (validSet_nonempty _ Hv H).
    * intro H. apply filter_none in H. rewrite H in E. discriminate E.
Qed.

(** Two squares after a set that is too short: the first square is the
    result and the second one is dropped. *)
Lemma combineVertices_first_valid_witness :
  ((exists before first after,
       shortThenSquares = before ++ first :: after /\
       forallb (fun s => negb (validSet s)) before = true /\
       validSet first = true /\
       combineVertices shortThenSquares = first)
   \/
   (forallb (fun s => negb (validSet s)) shortThenSquares = true /\
    combineVertices shortThenSquares = [])) /\
  (combineVertices shortThenSquares = []
   <-> forallb (fun s => negb (validSet s)) shortThenSquares = true).
Proof.
apply combineVertices_first_valid. cbn [List.length shortThenSquares]. lia.
Defined.

Example combineVertices_squares :
  combineVertices shortThenSquares = map raw [(0, 0); (1, 0); (1, 1); (0, 1)]%Q.
Proof. reflexivity. Qed.

End Combine.

(* ------------------------------------------------------------------ *)
(** ** Post-conditions of the resampler *)

Section ResampleFacts.

Import Geometry Resample.
Local Open Scope Q_scope.

(** What the validation of the resampled list establishes. *)
Lemma validResampled_checked (vertices : list Vertex) (samplesPerSegment : nat)
    (resampled : list Point) :
  validResampled vertices samplesPerSegment = Some resampled ->
  (3 <= List.length resampled)%nat /\ MIN_AREA <= calculateArea resampled.
Proof.
unfold validResampled.
destruct (List.length vertices <? 2)%nat; [discriminate|].
destruct (checkedVertices vertices) as [vs|]; [|discriminate].
destruct (Nat.ltb_spec (List.length (resampledPoints vs samplesPerSegment)) 3) as [|Hlen];
  [discriminate|].
destruct (Qlt_le_dec _ MIN_AREA) as [|Harea]; [discriminate|].
intro H; injection H as <-. split; assumption.
Qed.

Lemma raw_valid (p : Point) : validVertex (raw p) = true.
Proof. reflexivity. Qed.

(** C7 (as amended).  [resampleBezierPath] returns either the empty list or a
    list of at least 3 points, all with finite coordinates.  The area
    threshold 0.1 is what the resampled list met before simplification; the
    returned list is that list itself when simplification and the
    re-insertion of important points leave fewer than 3 points, and else the
    simplified list, whose area is not checked again. *)
Theorem resampleBezierPath_postcondition (vertices : list Vertex) (samplesPerSegment : nat) :
  resampleBezierPath vertices samplesPerSegment = []
  \/
  ((3 <= List.length (resampleBezierPath vertices samplesPerSegment))%nat /\
   Forall (fun p => validVertex (raw p) = true)
          (resampleBezierPath vertices samplesPerSegment) /\
   exists resampled,
     validResampled vertices samplesPerSegment = Some resampled /\
     (3 <= List.length resampled)%nat /\
     MIN_AREA <= calculateArea resampled /\
     (resampleBezierPath vertices samplesPerSegment = resampled
      \/
      ((3 <= List.length (restoreImportant resampled (simplify resampled 4)))%nat /\
       resampleBezierPath vertices samplesPerSegment
       = restoreImportant resampled (simplify resampled 4)))).
Proof.
unfold resampleBezierPath.
destruct (validResampled vertices samplesPerSegment) as [resampled|] eqn:E;
  [|left; reflexivity].
destruct (validResampled_checked _ _ _ E) as [Hlen Harea].
right. cbv zeta.
destruct (Nat.ltb_spec (List.length (restoreImportant resampled (simplify resampled 4)))
            MIN_POINTS) as [Hshort|Hlong].
- split; [exact Hlen|]. split; [apply Forall_forall; intros; apply raw_valid|].
  exists resampled. repeat split; auto.
- unfold MIN_POINTS in Hlong.
  split; [exact Hlong|]. split; [apply Forall_forall; intros; apply raw_valid|].
  exists resampled. repeat split; auto.
Qed.

(** C7 as stated fails: the area is only checked before simplification.
    The sliver resamples (one sample per segment) to its four corners, which
    enclose an area of 149.95; simplification with tolerance 4 drops the bump
    at (50, 3), and the triangle that is returned encloses 0.05. *)
Lemma resampleBezierPath_sliver_counterexample :
  ~ result_as_stated sliver 1.
Proof.
unfold result_as_stated. cbv zeta.
intros [H|[_ H]].
- vm_compute in H. discriminate H.
- vm_compute in H. apply H. reflexivity.
Qed.

(** The list that is returned for the sliver, and its area. *)
Example resampleBezierPath_sliver :
  Forall2 (fun p q => fst p == fst q /\ snd p == snd q)
          (resampleBezierPath sliver 1) [(0, 0); (100, 0); (0, 1 # 1000)]
  /\ calculateArea (resampleBezierPath sliver 1) == 1 # 20
  /\ option_map (fun r => Qred (calculateArea r)) (validResampled sliver 1)
     = Some (2999 # 20).
Proof.
split; [|split].
- vm_compute. repeat constructor.
- vm_compute. reflexivity.
- vm_compute. reflexivity.
Qed.

(** With the 7 samples per segment that star and polygon shapes are
    resampled with, the list returned for the sliver is below the threshold
    too. *)
Example resampleBezierPath_sliver_7 :
  (3 <= List.length (resampleBezierPath sliver 7))%nat /\
  calculateArea (resampleBezierPath sliver 7) < MIN_AREA.
Proof.
split.
- vm_compute. lia.
- vm_compute. reflexivity.
Qed.

End ResampleFacts.

(* ------------------------------------------------------------------ *)
(** ** The hull fallback of the convex decomposer *)

Section Convexity.

Import Geometry.
Local Open Scope Q_scope.










End Convexity.

Section Sorting.

Import Geometry.

Variable le : Point -> Point -> bool.
Hypothesis le_total : forall a b, le a b = false -> le b a = true.
Hypothesis le_trans : forall a b c, le a b = true -> le b c = true -> le a c = true.





End Sorting.


Section SweepOrder.

Import Geometry.
Local Open Scope Q_scope.














End SweepOrder.

Section Arithmetic.

Local Open Scope Q_scope.







End Arithmetic.

Section Sweep.

Import Geometry.
Local Open Scope Q_scope.









End Sweep.

Section Scan.

Import Geometry.
Local Open Scope Q_scope.

Variable o : Point.










End Scan.

Section Pivot.

Import Geometry.
Local Open Scope Q_scope.











End Pivot.

Section Turns.

Import Geometry.
Local Open Scope Q_scope.










End Turns.

Section Fallback.

Import Geometry.
Local Open Scope Q_scope.







Lemma finiteAll_length (vertices : list RawPoint) (vs : list Point) :
  finiteAll vertices = Some vs -> List.length vs = List.length vertices.
Proof.
revert vs. induction vertices as [|v vertices IH]; intros vs; cbn [finiteAll].
- intro H; injection H as <-. reflexivity.
- destruct (finite v) as [p|]; [|discriminate].
  destruct (finiteAll vertices) as [ps|]; [|discriminate].
  intro H; injection H as <-. cbn [List.length]. f_equal. apply IH. reflexivity.
Qed.





Example decomposeConcaveShape_bowTie :
  decomposeConcaveShape (fun _ => []) (map raw bowTie)
  = [[(0, 0); (100, 0); (100, 100); (0, 100)]].
Proof. vm_compute. reflexivity. Qed.


End Fallback.

(* ------------------------------------------------------------------ *)
(** ** Rules for commands on a body *)

Section CommandRules.

Import Matter Commands.
Local Open Scope cmd_scope.

Lemma seq_inv (c1 c2 : Cmd) (b b' : Body) (t : list Effect) :
  (c1 ;; c2) b = Some (b', t) ->
  exists b1 t1 t2, c1 b = Some (b1, t1) /\ c2 b1 = Some (b', t2) /\ t = t1 ++ t2.
Proof.
unfold seq. destruct (c1 b) as [[b1 t1]|]; [|discriminate].
destruct (c2 b1) as [[b2 t2]|] eqn:E2; [|discriminate].
intro H; injection H as <- <-. exists b1, t1, t2. auto.
Qed.

Lemma emit_inv (e : Effect) (b b' : Body) (t : list Effect) :
  emit e b = Some (b', t) -> b' = perform e b /\ t = [e].
Proof. intro H; injection H as <- <-. auto. Qed.

Lemma total_skip : total skip.
Proof. intro b. exists b, []. reflexivity. Qed.

Lemma total_emit (e : Effect) : total (emit e).
Proof. intro b. exists (perform e b), [e]. reflexivity. Qed.

Lemma total_seq (c1 c2 : Cmd) : total c1 -> total c2 -> total (c1 ;; c2).
Proof.
intros H1 H2 b. destruct (H1 b) as (b1 & t1 & E1). destruct (H2 b1) as (b2 & t2 & E2).
exists b2, (t1 ++ t2). unfold seq. rewrite E1, E2. reflexivity.
Qed.

Lemma total_reading (k : Body -> Cmd) : (forall b0, total (k b0)) -> total (reading k).
Proof. intros H b. exact (H b b). Qed.

Lemma total_when (c : bool) (k : Cmd) : total k -> total (when c k).
Proof. intro H. destruct c; [exact H | exact total_skip]. Qed.

Lemma total_if (c : bool) (k1 k2 : Cmd) : total k1 -> total k2 -> total (if c then k1 else k2).
Proof. intros H1 H2. destruct c; assumption. Qed.

Lemma total_whenStr (s : option string) (k : string -> Cmd) :
  (forall v, total (k v)) -> total (Sim.whenStr s k).
Proof.
intro H. unfold Sim.whenStr. destruct s as [v|]; [|exact total_skip].
destruct (Sim.truthyStr (Some v)); [apply H | exact total_skip].
Qed.

Lemma keeps_skip {A : Type} (f : Body -> A) : keeps f skip.
Proof. intros b b' t H. injection H as <- _. reflexivity. Qed.

Lemma keeps_throw {A : Type} (f : Body -> A) : keeps f throw.
Proof. intros b b' t H. discriminate. Qed.

Lemma keeps_emit {A : Type} (f : Body -> A) (e : Effect) :
  (forall b, f (perform e b) = f b) -> keeps f (emit e).
Proof. intros H b b' t E. injection E as <- _. apply H. Qed.

Lemma keeps_seq {A : Type} (f : Body -> A) (c1 c2 : Cmd) :
  keeps f c1 -> keeps f c2 -> keeps f (c1 ;; c2).
Proof.
intros H1 H2 b b' t E. destruct (seq_inv _ _ _ _ _ E) as (b1 & t1 & t2 & E1 & E2 & _).
rewrite (H2 _ _ _ E2). exact (H1 _ _ _ E1).
Qed.

Lemma keeps_reading {A : Type} (f : Body -> A) (k : Body -> Cmd) :
  (forall b0, keeps f (k b0)) -> keeps f (reading k).
Proof. intros H b b' t E. exact (H b b b' t E). Qed.

Lemma keeps_when {A : Type} (f : Body -> A) (c : bool) (k : Cmd) :
  keeps f k -> keeps f (when c k).
Proof. intro H. destruct c; [exact H | apply keeps_skip]. Qed.

Lemma keeps_if {A : Type} (f : Body -> A) (c : bool) (k1 k2 : Cmd) :
  keeps f k1 -> keeps f k2 -> keeps f (if c then k1 else k2).
Proof. intros H1 H2. destruct c; assumption. Qed.

Lemma keeps_whenStr {A : Type} (f : Body -> A) (s : option string) (k : string -> Cmd) :
  (forall v, keeps f (k v)) -> keeps f (Sim.whenStr s k).
Proof.
intro H. unfold Sim.whenStr. destruct s as [v|]; [|apply keeps_skip].
destruct (Sim.truthyStr (Some v)); [apply H | apply keeps_skip].
Qed.

End CommandRules.

(** The rules applied as far as they go.  An effect keeps a field when the
    two sides compute to the same term on a body given by its fields. *)
Ltac effect_keeps :=
  let b := fresh "b" in
  intro b; destruct b; cbn;
  repeat match goal with
         | |- context [option_map _ ?r] => is_var r; destruct r; cbn
         end;
  reflexivity.

Ltac command_rules :=
  repeat match goal with
         | |- Commands.total Matter.skip => apply total_skip
         | |- Commands.total (Matter.emit _) => apply total_emit
         | |- Commands.total (Matter.seq _ _) => apply total_seq
         | |- Commands.total (Matter.when _ _) => apply total_when
         | |- Commands.total (Sim.whenStr _ _) => apply total_whenStr; intro
         | |- Commands.total (Matter.reading _) => apply total_reading; intro
         | |- Commands.total (if _ then _ else _) => apply total_if
         | |- Commands.keeps _ Matter.skip => apply keeps_skip
         | |- Commands.keeps _ Matter.throw => apply keeps_throw
         | |- Commands.keeps _ (Matter.seq _ _) => apply keeps_seq
         | |- Commands.keeps _ (Matter.when _ _) => apply keeps_when
         | |- Commands.keeps _ (Sim.whenStr _ _) => apply keeps_whenStr; intro
         | |- Commands.keeps _ (Matter.reading _) => apply keeps_reading; intro
         | |- Commands.keeps _ (if _ then _ else _) => apply keeps_if
         | |- Commands.keeps _ (Matter.emit _) => apply keeps_emit; effect_keeps
         end.

(* ------------------------------------------------------------------ *)
(** ** The timecode display *)

Section TimecodeFacts.

Import Timecode.

Lemma cleanFps_positive (f : Q) : (0 < f)%Q -> cleanFps (JS.Num f) = JS.Num f.
Proof.
intro H. unfold cleanFps.
destruct (Qle_bool f 0) eqn:E; [|reflexivity].
apply Qle_bool_iff in E. lra.
Qed.

(** The frame rate the function works with is a positive number, whatever
    number it is given. *)
Lemma cleanFps_number (f : Q) : exists g, cleanFps (JS.Num f) = JS.Num g /\ (0 < g)%Q.
Proof.
unfold cleanFps. destruct (Qle_bool f 0) eqn:E.
- exists 30%Q. split; [reflexivity | reflexivity].
- exists f. split; [reflexivity|].
  destruct (Qlt_le_dec 0 f) as [H|H]; [exact H|].
  apply Qle_bool_iff in H. congruence.
Qed.

Lemma floor_nonneg (x : Q) : (0 <= x)%Q -> 0 <= Qfloor x.
Proof. intro H. apply (floor_greatest 0). exact H. Qed.

Lemma floor_mono (x y : Q) : (x <= y)%Q -> Qfloor x <= Qfloor y.
Proof.
intro H. apply floor_greatest. pose proof (Qfloor_le x). lra.
Qed.

Lemma round_nonneg (x : Q) : (0 <= x)%Q -> 0 <= JS.round x.
Proof.
intro H. unfold JS.round. apply floor_nonneg. lra.
Qed.

(** The fields of a finite time at a finite frame rate [f > 0]. *)
Lemma fields_finite (t f : Q) :
  (0 < f)%Q ->
  let total := JS.floor (Qmax 0 t) in
  fields (JS.Num t) (JS.Num f)
  = (Int (total / 60), Int (total mod 60),
     Int (Z.min (JS.round ((Qmax 0 t - inject_Z total) * f)) (JS.floor f - 1)))
  /\ 0 <= total.
Proof.
intros Hf total.
assert (Htot : 0 <= total).
{ apply floor_nonneg. apply Q.le_max_l. }
split; [|exact Htot].
unfold fields. cbn [cleanTime]. rewrite (cleanFps_positive f Hf).
fold total.
replace (JS.floor (inject_Z total / 60)%Q) with (total / 60)
  by (rewrite (Zdiv_Qdiv total 60); reflexivity).
rewrite (Z.rem_mod_nonneg total 60) by lia.
reflexivity.
Qed.

Lemma frame_in_range (t f : Q) :
  (1 <= f)%Q ->
  let total := JS.floor (Qmax 0 t) in
  0 <= Z.min (JS.round ((Qmax 0 t - inject_Z total) * f)) (JS.floor f - 1)
    <= JS.floor f - 1.
Proof.
intros Hf total.
assert (Hfrac : (0 <= Qmax 0 t - inject_Z total)%Q).
{ pose proof (Qfloor_le (Qmax 0 t)). unfold total, JS.floor. lra. }
assert (Hround : 0 <= JS.round ((Qmax 0 t - inject_Z total) * f)).
{ apply round_nonneg. apply Qmult_le_0_compat; lra. }
assert (Hfl : 1 <= JS.floor f) by (apply (floor_greatest 1); exact Hf).
lia.
Qed.

(** X1.  [formatTime] of a finite time at a frame rate of at least 1: the
    minutes and seconds shown are those of the whole seconds elapsed (time
    below 0 counts as 0), the seconds stay below 60, and the frame shown lies
    between 0 and [Math.floor (fps) - 1], so the last frame of a second is
    held rather than rolled over into a frame number the second does not
    have. *)
Theorem formatTime_fields_in_range (t f : Q) :
  (1 <= f)%Q ->
  exists minutes seconds frames,
    fields (JS.Num t) (JS.Num f) = (Int minutes, Int seconds, Int frames) /\
    60 * minutes + seconds = JS.floor (Qmax 0 t) /\
    0 <= minutes /\ 0 <= seconds < 60 /\
    0 <= frames <= JS.floor f - 1 /\
    frames <= JS.round ((Qmax 0 t - inject_Z (JS.floor (Qmax 0 t))) * f).
Proof.
intro Hf.
destruct (fields_finite t f) as [E Htot]; [lra|]. cbv zeta in E, Htot.
set (total := JS.floor (Qmax 0 t)) in *.
exists (total / 60), (total mod 60), (Z.min (JS.round ((Qmax 0 t - inject_Z total) * f)) (JS.floor f - 1)).
split; [exact E|].
pose proof (Z.div_mod total 60 ltac:(lia)) as Hdm.
pose proof (Z.mod_pos_bound total 60 ltac:(lia)) as Hmod.
assert (Hmin : 0 <= total / 60) by (apply Z.div_pos; lia).
pose proof (frame_in_range t f Hf) as Hframe. cbv zeta in Hframe. fold total in Hframe.
repeat split; try lia.
Qed.

Lemma formatTime_fields_in_range_witness :
  exists minutes seconds frames,
    fields (JS.Num (99 # 100)) (JS.Num 30) = (Int minutes, Int seconds, Int frames) /\
    frames = 29.
Proof.
destruct (formatTime_fields_in_range (99 # 100) 30) as (m & s & fr & E & _ & _ & _ & Hfr & _).
- lra.
- exists m, s, fr. split; [exact E|].
  vm_compute in E. injection E as _ _ <-. reflexivity.
Defined.

(** X2.  The timecode never runs backwards: of two finite times, the later
    one shows at least as many whole seconds, and within the same second at
    least as high a frame, at every frame rate given as a number. *)
Theorem formatTime_monotone (t1 t2 f : Q) :
  (t1 <= t2)%Q ->
  exists s1 f1 s2 f2,
    shown (JS.Num t1) (JS.Num f) = Some (s1, f1) /\
    shown (JS.Num t2) (JS.Num f) = Some (s2, f2) /\
    (s1 < s2 \/ (s1 = s2 /\ f1 <= f2)).
Proof.
intro Hle.
assert (Hgen : forall g, (0 < g)%Q -> cleanFps (JS.Num f) = JS.Num g ->
  exists s1 f1 s2 f2,
    shown (JS.Num t1) (JS.Num f) = Some (s1, f1) /\
    shown (JS.Num t2) (JS.Num f) = Some (s2, f2) /\
    (s1 < s2 \/ (s1 = s2 /\ f1 <= f2))).
{ intros g Hg Eg.
  assert (Hsh : forall t,
    shown (JS.Num t) (JS.Num f)
    = Some (JS.floor (Qmax 0 t),
            Z.min (JS.round ((Qmax 0 t - inject_Z (JS.floor (Qmax 0 t))) * g))
                  (JS.floor g - 1))).
  { intro t. destruct (fields_finite t g Hg) as [E Htot]. cbv zeta in E, Htot.
    unfold shown.
    assert (Esame : fields (JS.Num t) (JS.Num f) = fields (JS.Num t) (JS.Num g)).
    { unfold fields. rewrite Eg, (cleanFps_positive g Hg). reflexivity. }
    rewrite Esame, E. f_equal. f_equal.
    pose proof (Z.div_mod (JS.floor (Qmax 0 t)) 60 ltac:(lia)). lia. }
  do 4 eexists. split; [apply Hsh | split; [apply Hsh|]].
  assert (Hmax : (Qmax 0 t1 <= Qmax 0 t2)%Q) by (apply Q.max_le_compat_l; exact Hle).
  pose proof (floor_mono _ _ Hmax) as Hfl. unfold JS.floor.
  destruct (Z.eq_dec (Qfloor (Qmax 0 t1)) (Qfloor (Qmax 0 t2))) as [Heq|Hne]; [right | left; lia].
  split; [exact Heq|].
  apply Z.min_le_compat_r. apply round_mono. rewrite Heq.
  apply Qmult_le_compat_r; lra. }
destruct (cleanFps_number f) as (g & Eg & Hg).
exact (Hgen g Hg Eg).
Qed.

Lemma formatTime_monotone_witness :
  exists s1 f1 s2 f2,
    shown (JS.Num (1 # 2)) (JS.Num 25) = Some (s1, f1) /\
    shown (JS.Num (3 # 4)) (JS.Num 25) = Some (s2, f2) /\
    (s1 < s2 \/ (s1 = s2 /\ f1 <= f2)).
Proof. apply (formatTime_monotone (1 # 2) (3 # 4) 25). lra. Defined.

Lemma padStart2_twoDigits (z : Z) :
  0 <= z < 100 -> padStart2 (toString (Int z)) = twoDigits z.
Proof.
intro H.
assert (Hall : forallb (fun n => String.eqb (padStart2 (toString (Int (Z.of_nat n))))
                                            (twoDigits (Z.of_nat n)))
                       (List.seq 0 100) = true) by (vm_compute; reflexivity).
rewrite forallb_forall in Hall.
specialize (Hall (Z.to_nat z)). rewrite Z2Nat.id in Hall by lia.
apply String.eqb_eq. apply Hall. apply in_seq. lia.
Qed.

(** X3.  For a time below 100 minutes and a frame rate from 1 to 100 the
    timecode is exactly two digits of minutes, two of seconds and two of
    frames, separated by colons. *)
Theorem formatTime_shape (t f : Q) :
  (t < 6000)%Q -> (1 <= f)%Q -> (f <= 100)%Q ->
  exists minutes seconds frames,
    0 <= minutes < 100 /\ 0 <= seconds < 60 /\ 0 <= frames < 100 /\
    formatTime (JS.Num t) (JS.Num f)
    = String.append (twoDigits minutes)
        (String.append ":" (String.append (twoDigits seconds)
           (String.append ":" (twoDigits frames)))).
Proof.
intros Ht Hf1 Hf2.
destruct (fields_finite t f) as [E Hnonneg]; [lra|]. cbv zeta in E, Hnonneg.
pose proof (frame_in_range t f Hf1) as Hfr. cbv zeta in Hfr.
set (total := JS.floor (Qmax 0 t)) in *.
set (minutes := total / 60) in *.
set (seconds := total mod 60) in *.
set (frames := Z.min (JS.round ((Qmax 0 t - inject_Z total) * f)) (JS.floor f - 1)) in *.
assert (Hsum : 60 * minutes + seconds = total)
  by (pose proof (Z.div_mod total 60 ltac:(lia)); subst minutes seconds; lia).
assert (Hsec : 0 <= seconds < 60) by (apply Z.mod_pos_bound; lia).
assert (Hmin : 0 <= minutes) by (apply Z.div_pos; lia).
assert (Htot : total < 6000).
{ unfold total, JS.floor.
  destruct (Z.lt_ge_cases (Qfloor (Qmax 0 t)) 6000) as [H|H]; [exact H|exfalso].
  pose proof (Qfloor_le (Qmax 0 t)) as Hfl.
  assert (Hq : (inject_Z 6000 <= inject_Z (Qfloor (Qmax 0 t)))%Q)
    by (rewrite <- Zle_Qle; exact H).
  assert (Hm : (Qmax 0 t < 6000)%Q).
  { apply Q.max_lub_lt; [reflexivity | exact Ht]. }
  change (inject_Z 6000) with 6000%Q in Hq. lra. }
assert (Hfloor : JS.floor f <= 100).
{ unfold JS.floor.
  destruct (Z.le_gt_cases (Qfloor f) 100) as [H|H]; [exact H|exfalso].
  pose proof (Qfloor_le f) as Hfl.
  assert (Hq : (inject_Z 101 <= inject_Z (Qfloor f))%Q) by (rewrite <- Zle_Qle; lia).
  change (inject_Z 101) with 101%Q in Hq. lra. }
exists minutes, seconds, frames.
split; [lia | split; [lia | split; [lia|]]].
unfold formatTime. rewrite E.
rewrite !padStart2_twoDigits by lia. reflexivity.
Qed.

Lemma formatTime_shape_witness :
  exists minutes seconds frames,
    formatTime (JS.Num (7531 # 100)) (JS.Num 30)
    = String.append (twoDigits minutes)
        (String.append ":" (String.append (twoDigits seconds)
           (String.append ":" (twoDigits frames)))).
Proof.
destruct (formatTime_shape (7531 # 100) 30) as (m & s & fr & _ & _ & _ & E); try lra.
exists m, s, fr. exact E.
Defined.

Example formatTime_example :
  formatTime (JS.Num (7531 # 100)) (JS.Num 30) = "01:15:09"%string.
Proof. vm_compute. reflexivity. Qed.

Example formatTime_last_frame :
  formatTime (JS.Num (99 # 100)) (JS.Num 30) = "00:00:29"%string.
Proof. vm_compute. reflexivity. Qed.

End TimecodeFacts.

(* ------------------------------------------------------------------ *)
(** ** The bodies of the current composition *)

Section BodyFilterFacts.

Import BodyFilter.

Variable B : Type.
Variable Number : string -> option Z.

Lemma filter_twice {A : Type} (f : A -> bool) (l : list A) :
  filter f (filter f l) = filter f l.
Proof.
induction l as [|a l IH]; [reflexivity|]. cbn [filter].
destruct (f a) eqn:E; [|exact IH].
cbn [filter]. rewrite E, IH. reflexivity.
Qed.

(** X4.  With a current composition, [filterMatterBodies] keeps the body of
    a layer exactly when the project data has that composition and the
    composition has that layer: looking a layer up in the result gives its
    body in that case and nothing otherwise (so nothing at all when the
    composition id is unknown), and filtering the result again changes
    nothing. *)
Theorem filterMatterBodies_lookup (matterBodies : list (Z * B))
    (compData : Plan.ProjectCompositions) (currentCompId : string) (layerId : Z) :
  let kept := filterMatterBodies B Number matterBodies compData (Some currentCompId) in
  Plan.lookup layerId kept
  = (if inCurrentComp Number compData currentCompId layerId
     then Plan.lookup layerId matterBodies else None)
  /\ filterMatterBodies B Number kept compData (Some currentCompId) = kept.
Proof.
cbv zeta. split.
- unfold filterMatterBodies.
  induction matterBodies as [|[k b] rest IH]; cbn [filter Plan.lookup fst].
  + destruct (inCurrentComp _ _ _ _); reflexivity.
  + destruct (Z.eqb_spec layerId k) as [->|Hne].
    * destruct (inCurrentComp Number compData currentCompId k) eqn:E.
      -- cbn [Plan.lookup]. rewrite Z.eqb_refl. reflexivity.
      -- exact IH.
    * destruct (inCurrentComp Number compData currentCompId k) eqn:E.
      -- cbn [Plan.lookup]. destruct (Z.eqb_spec layerId k); [contradiction|]. exact IH.
      -- exact IH.
- unfold filterMatterBodies. apply filter_twice.
Qed.

End BodyFilterFacts.

(* ------------------------------------------------------------------ *)
(** ** The host adapter: last keyframes, gravity series, layer matrices *)

Section HostFacts.

Import Host.

(** The first match of a search from the end of a list is the last match in
    the list. *)
Lemma find_rev_last {A : Type} (f : A -> bool) (l : list A) (a : A) :
  find f (rev l) = Some a ->
  exists before after,
    l = before ++ a :: after /\ f a = true /\ Forall (fun x => f x = false) after.
Proof.
induction l as [|x l IH] using rev_ind; [discriminate|].
rewrite rev_app_distr. cbn [rev app find].
destruct (f x) eqn:E.
- intro H; injection H as <-. exists l, []. split; [reflexivity | split; [exact E | constructor]].
- intro H. destruct (IH H) as (before & after & -> & Ha & Hafter).
  exists before, (after ++ [x]). split; [|split; [exact Ha|]].
  + rewrite <- app_assoc. reflexivity.
  + apply Forall_app. split; [exact Hafter | constructor; [exact E | constructor]].
Qed.





Lemma last_In_cons {A : Type} (first : A) (rest : list A) : In (last rest first) (first :: rest).
Proof.
induction rest as [|x rest IH]; [left; reflexivity|].
destruct rest as [|y rest']; [right; left; reflexivity|].
change (last (x :: y :: rest') first) with (last (y :: rest') first).
destruct IH as [IH|IH]; [left; exact IH | right; right; exact IH].
Qed.

(** X6.  When every key of a property lies before the work area,
    [getLastKey] still reports a last keyframe, that of the last key, and its
    frame is negative: the frame is not clamped to the work area. *)
Theorem getLastKey_before_work_area (comp : CompItem) (ks : list Key) :
  (0 < frameRate comp)%Q ->
  ks <> [] ->
  Forall (fun k => (keyTime k < workAreaStart comp)%Q) ks ->
  exists lk, getLastKey (Some comp) ks = Some lk /\ Plan.frame lk < 0.
Proof.
intros Hrate Hne Hall.
destruct ks as [|first rest]; [contradiction|].
unfold getLastKey.
set (k := match lastKeyInside comp (first :: rest) with
          | Some k => k
          | None => lastKey first rest
          end).
assert (Hk : In k (first :: rest)).
{ unfold k. destruct (lastKeyInside comp (first :: rest)) as [k'|] eqn:E.
  - destruct (find_rev_last _ _ _ E) as (before & after & -> & _ & _).
    apply in_or_app. right. left. reflexivity.
  - apply last_In_cons. }
rewrite Forall_forall in Hall. specialize (Hall k Hk). cbv beta in Hall.
eexists. split; [reflexivity|]. cbn [Plan.frame]. unfold JS.floor.
destruct (Z.lt_ge_cases (Qfloor ((keyTime k - workAreaStart comp) * frameRate comp)) 0)
  as [H|H]; [exact H | exfalso].
pose proof (Qfloor_le ((keyTime k - workAreaStart comp) * frameRate comp)) as Hfl.
assert (Hq : (inject_Z 0 <= inject_Z (Qfloor ((keyTime k - workAreaStart comp) * frameRate comp)))%Q)
  by (rewrite <- Zle_Qle; lia).
change (inject_Z 0) with 0%Q in Hq.
assert (Hneg : ((keyTime k - workAreaStart comp) * frameRate comp < 0)%Q).
{ setoid_replace ((keyTime k - workAreaStart comp) * frameRate comp)%Q
    with (- ((workAreaStart comp - keyTime k) * frameRate comp))%Q by ring.
  assert (0 < (workAreaStart comp - keyTime k) * frameRate comp)%Q
    by (apply Qmult_lt_0_compat; lra).
  lra. }
lra.
Qed.

(** A key a fifth of a second before the work area of a composition at 25
    frames per second: frame -5. *)
Lemma getLastKey_before_work_area_witness :
  exists lk,
    getLastKey (Some {| workAreaStart := 1; workAreaDuration := 2; frameRate := 25 |})
               [ {| keyTime := 4 # 5; keyInHold := false; keyOutHold := false |} ]
    = Some lk /\ Plan.frame lk = -5.
Proof.
destruct (getLastKey_before_work_area
            {| workAreaStart := 1; workAreaDuration := 2; frameRate := 25 |}
            [ {| keyTime := 4 # 5; keyInHold := false; keyOutHold := false |} ])
  as (lk & E & _).
- cbn. lra.
- discriminate.
- constructor; [cbn; lra | constructor].
- exists lk. split; [exact E|]. vm_compute in E. injection E as <-. reflexivity.
Defined.

Lemma index_map_seq {V : Type} (g : nat -> V) (n : nat) (i : Z) :
  0 <= i < Z.of_nat n ->
  JS.index (map g (List.seq 0 n)) i = Some (g (Z.to_nat i)).
Proof.
intro H. unfold JS.index.
destruct (Z.ltb_spec i 0) as [|_]; [lia|].
rewrite nth_error_map, nth_error_seq.
destruct (Nat.ltb_spec (Z.to_nat i) n) as [_|Hge]; [reflexivity | lia].
Qed.

(** X7.  A gravity series built over a work area of at least one frame has
    exactly one sample per frame, and the frame of its last keyframe is
    clamped to them: it is the index of a sample of the series, the value of
    the property at that frame, wherever the last key lies. *)
Theorem buildSeries_last_key_sampled {V : Type} (comp : CompItem)
    (prop : Property V) (pre : V) :
  1 <= totalFrames comp ->
  keys prop <> [] ->
  let series := buildSeries comp prop pre in
  JS.length (Plan.values series) = totalFrames comp /\
  exists lk,
    Plan.lastKeyFrame series = Some lk /\
    0 <= Plan.frame lk < totalFrames comp /\
    JS.index (Plan.values series) (Plan.frame lk)
    = Some (valueAtTime prop (timeOfFrame comp (Plan.frame lk))).
Proof.
intros Htot Hne. cbv zeta.
assert (Hlen : JS.length (Plan.values (buildSeries comp prop pre)) = totalFrames comp).
{ unfold JS.length, buildSeries. cbn [Plan.values].
  rewrite length_map, length_seq. lia. }
split; [exact Hlen|].
unfold buildSeries at 1. cbn [Plan.lastKeyFrame].
destruct (keys prop) as [|first rest] eqn:Ek; [contradiction|].
eexists. split; [reflexivity|]. cbn [Plan.frame].
set (raw := JS.floor ((keyTime (lastKey first rest) - workAreaStart comp) * frameRate comp)).
set (lo := if raw <? 0 then 0 else raw).
set (idx := if totalFrames comp - 1 <? lo then totalFrames comp - 1 else lo).
assert (Hidx : 0 <= idx < totalFrames comp).
{ unfold idx. destruct (Z.ltb_spec (totalFrames comp - 1) lo); [lia|].
  unfold lo in *. destruct (Z.ltb_spec raw 0); lia. }
split; [exact Hidx|].
unfold buildSeries. cbn [Plan.values].
rewrite index_map_seq by lia. rewrite Z2Nat.id by lia. reflexivity.
Qed.

(** The drag of a composition of 2 seconds at 25 frames per second, with
    its only key 10 seconds in: the last keyframe is clamped to frame 49. *)
Lemma buildSeries_last_key_sampled_witness :
  let comp := {| workAreaStart := 0; workAreaDuration := 2; frameRate := 25 |} in
  let prop := {| keys := [ {| keyTime := 10; keyInHold := false; keyOutHold := false |} ];
                 valueAtTime := fun t => t |} in
  exists lk,
    Plan.lastKeyFrame (buildSeries comp prop 0%Q) = Some lk /\ Plan.frame lk = 49.
Proof.
intros comp prop.
destruct (buildSeries_last_key_sampled comp prop 0%Q) as (_ & lk & E & _ & _).
- vm_compute. discriminate.
- discriminate.
- exists lk. split; [exact E|]. vm_compute in E. injection E as <-. reflexivity.
Defined.

End HostFacts.

Section MatrixFacts.

Import Matrix2D.
Local Open Scope Q_scope.

(** X8.  A matrix that [invertMatrix] inverts is undone by its inverse, in
    exact arithmetic: mapping a point with one and then with the other gives
    the point back, in both orders.  So the local point computed for a
    centroid maps back to the centroid under the layer matrix. *)
Theorem invertMatrix_round_trip (m inv : t) (p : Q * Q) :
  invertMatrix m = Some inv ->
  fst (applyMatrix m (applyMatrix inv p)) == fst p /\
  snd (applyMatrix m (applyMatrix inv p)) == snd p /\
  fst (applyMatrix inv (applyMatrix m p)) == fst p /\
  snd (applyMatrix inv (applyMatrix m p)) == snd p.
Proof.
unfold invertMatrix.
destruct (Qlt_le_dec (Qabs (a m * d m - b m * c m)) (1 # 1000000)) as [|Hdet]; [discriminate|].
intro H; injection H as <-.
assert (Hnz : ~ a m * d m - b m * c m == 0).
{ intro E. rewrite E in Hdet. cbn in Hdet. lra. }
unfold applyMatrix. cbn [fst snd a b c d tx ty].
repeat split; field; exact Hnz.
Qed.

(** A layer scaled to 200% and moved to (10, 20). *)
Lemma invertMatrix_round_trip_witness :
  let m := {| a := 2; b := 0; c := 0; d := 2; tx := 10; ty := 20 |} in
  exists inv,
    invertMatrix m = Some inv /\
    fst (applyMatrix m (applyMatrix inv (30, 40))) == 30.
Proof.
intro m. destruct (invertMatrix m) as [inv|] eqn:E; [|vm_compute in E; discriminate E].
exists inv. split; [reflexivity|].
destruct (invertMatrix_round_trip m inv (30, 40) E) as (H & _). exact H.
Defined.

End MatrixFacts.

(* ------------------------------------------------------------------ *)
(** ** Playback of a recording *)

Section PlaybackFacts.

Import Playback.

Variable F : Type.
Variable frames : list F.
Variable compFramerate : Q.
Hypothesis rate_positive : (0 < compFramerate)%Q.
Hypothesis recorded : frames <> [].

Let len := JS.length frames.

Lemma recording_length : 1 <= len.
Proof.
unfold len, JS.length. destruct frames; [contradiction | cbn [List.length]; lia].
Qed.

Lemma frameDuration_positive : (0 < 1000 / compFramerate)%Q.
Proof.
apply Qlt_shift_div_l; [exact rate_positive | lra].
Qed.

Lemma elapsed_frames_mono (x y : Q) :
  (x <= y)%Q ->
  JS.floor (x / (1000 / compFramerate)) <= JS.floor (y / (1000 / compFramerate)).
Proof.
intro H. unfold JS.floor. apply floor_greatest.
pose proof (Qfloor_le (x / (1000 / compFramerate))) as Hfl.
pose proof frameDuration_positive as Hd.
assert (x / (1000 / compFramerate) <= y / (1000 / compFramerate))%Q.
{ unfold Qdiv at 1 3. apply Qmult_le_compat_r; [exact H|].
  apply Qinv_le_0_compat. lra. }
lra.
Qed.

Lemma elapsed_none (t : Q) : JS.floor ((t - t) / (1000 / compFramerate)) = 0.
Proof.
unfold JS.floor.
assert (E : ((t - t) / (1000 / compFramerate) == inject_Z 0)%Q).
{ unfold Qdiv at 1. setoid_replace (t - t)%Q with 0%Q by ring. ring. }
rewrite (Qfloor_comp _ _ E). apply Qfloor_Z.
Qed.

(** One call keeps the state in step, and a frame it applies is a later
    frame of the recording than the one shown before. *)
Lemma playAnimation_inStep (lo timestamp : Q) (st : State) :
  inStep frames compFramerate lo st ->
  (lo <= timestamp)%Q ->
  exists step,
    playAnimation frames compFramerate timestamp st = Some step /\
    inStep frames compFramerate timestamp (state step) /\
    frameIndex st <= frameIndex (state step) /\
    match applied step with
    | Some i => i = frameIndex (state step) /\ frameIndex st < i
    | None => frameIndex (state step) = frameIndex st
    end.
Proof.
intros [Hidx Hstart] Hlo. pose proof recording_length as Hlen. fold len in Hidx.
unfold playAnimation. fold len.
set (start := match startTime st with
              | Some s => if JS.truthy s then s else timestamp
              | None => timestamp
              end).
assert (Hs : ((start <= timestamp)%Q /\
              (JS.truthy start = false -> frameIndex st = 0) /\
              frameIndex st <= JS.floor ((timestamp - start) / (1000 / compFramerate)))).
{ unfold start. destruct (startTime st) as [s|].
  - destruct Hstart as (Hle & Hz & Hfl). destruct (JS.truthy s) eqn:Et.
    + split; [lra | split; [intro; congruence|]].
      etransitivity; [exact Hfl|]. apply elapsed_frames_mono. lra.
    + specialize (Hz eq_refl). split; [lra | split; [intros _; exact Hz|]].
      rewrite elapsed_none. lia.
  - split; [lra | split; [intros _; exact Hstart|]].
    rewrite elapsed_none. lia. }
destruct Hs as (Hsle & Hsz & Hsfl).
set (target := JS.floor ((timestamp - start) / (1000 / compFramerate))) in *.
destruct (Z.eqb_spec (Z.min target (len - 1)) (frameIndex st)) as [Heq|Hne].
- eexists. split; [reflexivity|]. unfold inStep. cbn [state applied frameIndex startTime].
  split; [|split; [lia | reflexivity]].
  split; [exact Hidx|]. fold len. cbn [startTime frameIndex].
  split; [lra | split; [exact Hsz | exact Hsfl]].
- assert (Hgt : frameIndex st < Z.min target (len - 1)) by lia.
  destruct (JS.index frames (Z.min target (len - 1))) as [frame|] eqn:Ei.
  + eexists. split; [reflexivity|]. unfold inStep. cbn [state applied frameIndex startTime].
    split; [|split; [lia | split; [reflexivity | exact Hgt]]].
    split; [fold len; lia|]. cbn [startTime frameIndex].
    split; [lra | split; [|fold target; lia]].
    intro Hf. specialize (Hsz Hf).
    (* a start time of 0 was set by this very call or the state was at 0 *)
    exfalso.
    assert (Ht0 : target = 0).
    { unfold start in Hf. unfold target, start.
      destruct (startTime st) as [s|].
      - destruct (JS.truthy s) eqn:Et; [congruence|]. apply elapsed_none.
      - apply elapsed_none. }
    lia.
  + exfalso. unfold JS.index in Ei.
    destruct (Z.ltb_spec (Z.min target (len - 1)) 0) as [|_]; [lia|].
    apply nth_error_None in Ei. unfold len, JS.length in *. lia.
Qed.

(** X9.  Playback over a recording, driven by animation frames whose
    timestamps do not decrease: no call throws, every frame it applies is a
    frame of the recording, the frames applied come in strictly increasing
    order, and frame 0 is never applied, since the frame index starts at 0
    and a frame is applied only when the index changes. *)
Theorem play_applies_later_frames (timestamps : list Q) :
  StronglySorted Qle timestamps ->
  exists shown,
    play frames compFramerate timestamps initial = Some shown /\
    Forall (fun i => 1 <= i <= JS.length frames - 1) shown /\
    StronglySorted Z.lt shown.
Proof.
intro Hsorted.
assert (Hgen : forall ts st lo,
  StronglySorted Qle ts -> Forall (Qle lo) ts ->
  inStep frames compFramerate lo st ->
  exists shown,
    play frames compFramerate ts st = Some shown /\
    Forall (fun i => frameIndex st < i <= len - 1) shown /\
    StronglySorted Z.lt shown).
{ induction ts as [|t ts IH]; intros st lo Hs Hlo Hinv.
  - exists []. split; [reflexivity | split; constructor].
  - inversion Hs as [|? ? Hs' Hall]; subst. inversion Hlo as [|? ? Hlt Hlo']; subst.
    destruct (playAnimation_inStep lo t st Hinv Hlt) as (step & Estep & Hinv' & Hmono & Happ).
    cbn [play]. rewrite Estep.
    assert (Hrange : 0 <= frameIndex (state step) <= len - 1) by (destruct Hinv' as [H _]; exact H).
    destruct (again step).
    + destruct (IH (state step) t Hs' Hall Hinv') as (rest & Erest & Hrest & Hsr).
      rewrite Erest. eexists. split; [reflexivity|].
      destruct (applied step) as [i|].
      * destruct Happ as [-> Hlt']. cbn [app]. split.
        -- constructor; [lia|]. eapply Forall_impl; [|exact Hrest]. cbv beta. intros; lia.
        -- constructor; [exact Hsr|]. eapply Forall_impl; [|exact Hrest]. cbv beta. intros; lia.
      * cbn [app]. split; [|exact Hsr].
        eapply Forall_impl; [|exact Hrest]. cbv beta. intros; lia.
    + eexists. split; [reflexivity|].
      destruct (applied step) as [i|].
      * destruct Happ as [-> Hlt']. split.
        -- constructor; [lia | constructor].
        -- constructor; constructor.
      * split; constructor. }
destruct timestamps as [|t0 ts].
- exists []. split; [reflexivity | split; constructor].
- destruct (Hgen (t0 :: ts) initial t0 Hsorted) as (shown & E & Hr & Hs).
  + inversion Hsorted; subst. constructor; [lra | assumption].
  + split; [pose proof recording_length; cbn [initial frameIndex]; fold len; lia|].
    reflexivity.
  + exists shown. split; [exact E | split; [|exact Hs]].
    eapply Forall_impl; [|exact Hr]. cbv beta. cbn [initial frameIndex]. fold len. intros; lia.
Qed.

End PlaybackFacts.

(** A recording of three frames at 25 frames per second, with animation
    frames every 16 ms from 1000 ms on: the frames 1 and 2 are applied. *)
Lemma play_applies_later_frames_witness :
  exists shown,
    Playback.play [tt; tt; tt] 25 [1000; 1016; 1032; 1048; 1064; 1080; 1096]%Q Playback.initial
    = Some shown /\
    Forall (fun i => 1 <= i <= JS.length [tt; tt; tt] - 1) shown /\
    StronglySorted Z.lt shown.
Proof.
apply (play_applies_later_frames unit [tt; tt; tt] 25).
- reflexivity.
- discriminate.
- repeat constructor; lra.
Defined.

Example play_three_frames :
  Playback.play [tt; tt; tt] 25 [1000; 1016; 1032; 1048; 1064; 1080; 1096]%Q Playback.initial
  = Some [1; 2].
Proof. vm_compute. reflexivity. Qed.

Section ReplayFacts.

Import Matter Playback Commands.
Local Open Scope cmd_scope.

Lemma Qmax_EPS_twice (s : Q) : (Qmax (Qmax s Sim.EPS) Sim.EPS == Qmax s Sim.EPS)%Q.
Proof. apply Q.max_l. apply Q.le_max_r. Qed.

Lemma applyBodyState_total (bodyState : Runner.BodyState) : total (applyBodyState bodyState).
Proof. unfold applyBodyState, applyScale, applyRender. command_rules. Qed.

Lemma applyScale_keeps {A : Type} (f : Body -> A) (bodyState : Runner.BodyState) :
  (forall sx sy b, f (perform (Body_scale sx sy) b) = f b) ->
  (forall sx sy b, f (perform (Write_pluginScale sx sy) b) = f b) ->
  keeps f (applyScale bodyState).
Proof.
intros H1 H2. unfold applyScale.
apply keeps_reading; intro. apply keeps_when. apply keeps_seq; apply keeps_emit; auto.
Qed.

(** After the scale update the body has the recorded scale. *)
Lemma applyScale_sets (bodyState : Runner.BodyState) (b b' : Body) (t : list Effect) :
  applyScale bodyState b = Some (b', t) ->
  (currentScale (scaleX (plugin b')) == Qmax (fst (Runner.bs_scale bodyState)) Sim.EPS)%Q /\
  (currentScale (scaleY (plugin b')) == Qmax (snd (Runner.bs_scale bodyState)) Sim.EPS)%Q.
Proof.
unfold applyScale, reading, when.
destruct (negb (Qeq_bool (currentScale (scaleX (plugin b)))
                         (Qmax (fst (Runner.bs_scale bodyState)) Sim.EPS))
          || negb (Qeq_bool (currentScale (scaleY (plugin b)))
                            (Qmax (snd (Runner.bs_scale bodyState)) Sim.EPS))) eqn:E.
- intro H. apply seq_inv in H. destruct H as (b1 & t1 & t2 & E1 & E2 & _).
  apply emit_inv in E1. destruct E1 as [-> _]. apply emit_inv in E2. destruct E2 as [-> _].
  destruct b as [? ? ? ? ? ? ? ? ? ? ? ? ? ? ? ? ? []]. cbn [perform set_plugin plugin scaleX scaleY].
  unfold currentScale. split; apply Qmax_EPS_twice.
- intro H. injection H as <- _.
  apply orb_false_elim in E. destruct E as [Ex Ey].
  apply negb_false_iff in Ex. apply negb_false_iff in Ey.
  split; apply Qeq_bool_iff; assumption.
Qed.

(** After the render update a rendered body has the recorded opacity. *)
Lemma applyRender_sets (bodyState : Runner.BodyState) (b b' : Body) (t : list Effect) :
  applyRender bodyState b = Some (b', t) ->
  option_map opacity (render b')
  = option_map (fun _ => Runner.bs_opacity bodyState) (render b).
Proof.
unfold applyRender, reading, when, Sim.hasRender.
destruct (render b) as [r|] eqn:Er.
- intro H. apply seq_inv in H. destruct H as (b1 & t1 & t2 & E1 & E2 & _).
  apply emit_inv in E1. destruct E1 as [-> _].
  assert (K : keeps (fun b => option_map opacity (render b))
                (Sim.whenStr (Runner.bs_fillStyle bodyState) (fun s => emit (Write_fillStyle s)) ;;
                 Sim.whenStr (Runner.bs_strokeStyle bodyState) (fun s => emit (Write_strokeStyle s)) ;;
                 when (Sim.isCompound b)
                   (emit (Parts_opacity (Runner.bs_opacity bodyState)) ;;
                    Sim.whenStr (Runner.bs_fillStyle bodyState) (fun s => emit (Parts_fillStyle s)) ;;
                    Sim.whenStr (Runner.bs_strokeStyle bodyState)
                                (fun s => emit (Parts_strokeStyle s)))))
    by command_rules.
  rewrite (K _ _ _ E2). cbn [perform set_render render]. rewrite Er. reflexivity.
- intro H. injection H as <- _. rewrite Er. reflexivity.
Qed.

(** X10.  Replaying the recorded state of a body puts the body where it was
    recorded, whatever state it is in: the update never throws; afterwards the
    position and the angle are the recorded ones, the scale the body has is
    the recorded one (at least [1e-6]), its opacity is the recorded one when
    it is rendered, and it is awake.  Replay never touches the velocities, the
    static flag or the collision filter. *)
Theorem applyBodyState_restores (recorded current : Body) :
  let bodyState := Runner.bodyState recorded in
  exists body' trace,
    applyBodyState bodyState current = Some (body', trace) /\
    position body' = position recorded /\
    angle body' = angle recorded /\
    isSleeping body' = false /\
    (currentScale (scaleX (plugin body')) == Qmax (fst (Runner.bs_scale bodyState)) Sim.EPS)%Q /\
    (currentScale (scaleY (plugin body')) == Qmax (snd (Runner.bs_scale bodyState)) Sim.EPS)%Q /\
    option_map opacity (render body')
      = option_map (fun _ => Runner.bs_opacity bodyState) (render current) /\
    velocity body' = velocity current /\
    angularVelocity body' = angularVelocity current /\
    isStatic body' = isStatic current /\
    category body' = category current /\
    mask body' = mask current.
Proof.
cbv zeta. set (bodyState := Runner.bodyState recorded).
destruct (applyBodyState_total bodyState current) as (body' & trace & E).
exists body', trace. split; [exact E|].
unfold applyBodyState in E.
destruct (seq_inv _ _ _ _ _ E) as (b1 & t1 & t2 & E1 & E2 & _).
destruct (seq_inv _ _ _ _ _ E2) as (b2 & t3 & t4 & E3 & E4 & _).
destruct (seq_inv _ _ _ _ _ E4) as (b3 & t5 & t6 & E5 & E6 & _).
destruct (seq_inv _ _ _ _ _ E6) as (b4 & t7 & t8 & E7 & E8 & _).
apply emit_inv in E1, E3, E8. destruct E1 as [-> _]. destruct E3 as [-> _]. destruct E8 as [-> _].
assert (Ks : forall (A : Type) (f : Body -> A),
          (forall sx sy b, f (perform (Body_scale sx sy) b) = f b) ->
          (forall sx sy b, f (perform (Write_pluginScale sx sy) b) = f b) -> f b3 = f _)
  by (intros A f H1 H2; exact (applyScale_keeps f bodyState H1 H2 _ _ _ E5)).
assert (Kr : forall (A : Type) (f : Body -> A), keeps f (applyRender bodyState) -> f b4 = f b3)
  by (intros A f K; exact (K _ _ _ E7)).
assert (Hpos : {| x := x (Runner.bs_position bodyState); y := y (Runner.bs_position bodyState) |}
               = position recorded).
{ unfold bodyState, Runner.bodyState. cbn [Runner.bs_position].
  destruct (position recorded); reflexivity. }
repeat split.
- cbn [perform position].
  rewrite (Kr _ position) by (unfold applyRender; command_rules).
  rewrite (Ks _ position) by (intros ? ? []; reflexivity).
  cbn [perform position]. exact Hpos.
- cbn [perform angle].
  rewrite (Kr _ angle) by (unfold applyRender; command_rules).
  rewrite (Ks _ angle) by (intros ? ? []; reflexivity).
  reflexivity.
- cbn [perform plugin].
  rewrite (Kr _ plugin) by (unfold applyRender; command_rules).
  exact (proj1 (applyScale_sets _ _ _ _ E5)).
- cbn [perform plugin].
  rewrite (Kr _ plugin) by (unfold applyRender; command_rules).
  exact (proj2 (applyScale_sets _ _ _ _ E5)).
- cbn [perform render]. rewrite (applyRender_sets _ _ _ _ E7).
  rewrite (Ks _ render) by (intros ? ? []; reflexivity). reflexivity.
- cbn [perform velocity].
  rewrite (Kr _ velocity) by (unfold applyRender; command_rules).
  rewrite (Ks _ velocity) by (intros ? ? []; reflexivity). reflexivity.
- cbn [perform angularVelocity].
  rewrite (Kr _ angularVelocity) by (unfold applyRender; command_rules).
  rewrite (Ks _ angularVelocity) by (intros ? ? []; reflexivity). reflexivity.
- cbn [perform isStatic].
  rewrite (Kr _ isStatic) by (unfold applyRender; command_rules).
  rewrite (Ks _ isStatic) by (intros ? ? []; reflexivity). reflexivity.
- cbn [perform category].
  rewrite (Kr _ category) by (unfold applyRender; command_rules).
  rewrite (Ks _ category) by (intros ? ? []; reflexivity). reflexivity.
- cbn [perform mask].
  rewrite (Kr _ mask) by (unfold applyRender; command_rules).
  rewrite (Ks _ mask) by (intros ? ? []; reflexivity). reflexivity.
Qed.

End ReplayFacts.

(** A run that is known to have ended, taken apart along its steps. *)
Ltac invert_run :=
  repeat match goal with
         | H : Matter.seq _ _ _ = Some _ |- _ =>
             let b := fresh "b" in
             let t1 := fresh "t" in
             let t2 := fresh "t" in
             let E1 := fresh "E" in
             let E2 := fresh "E" in
             let Et := fresh "Et" in
             apply seq_inv in H; destruct H as (b & t1 & t2 & E1 & E2 & Et)
         | H : Matter.emit _ _ = Some _ |- _ =>
             let Eb := fresh "Eb" in
             let Et := fresh "Et" in
             apply emit_inv in H; destruct H as [Eb Et]
         | H : Matter.skip _ = Some _ |- _ =>
             let Eb := fresh "Eb" in
             let Et := fresh "Et" in
             injection H as Eb Et
         end.

(* ------------------------------------------------------------------ *)
(** ** Keyframe forcing, frame by frame *)

Section ForcingFacts.

Import Matter Sim Commands.
Local Open Scope cmd_scope.

Lemma inside_false (last expected : Z) :
  ~ (0 <= last < expected) -> (0 <=? last) && (last <? expected) = false.
Proof.
intro H. destruct (Z.leb_spec 0 last); destruct (Z.ltb_spec last expected);
  cbn; try reflexivity. exfalso. apply H. lia.
Qed.

(** X11.  While a position series drives a body, that is while the last
    keyframe is a hold keyframe or lies outside the frames of the run or is
    not passed yet, [forcePosition] at a frame the series has a sample for
    never throws, leaves the body at the sample and awake, and leaves it
    without velocity at every frame but that of the last keyframe. *)
Theorem forcePosition_pins_keyframed_body
    (plan : Plan.AnimationPlan) (layerId : option Z) (lp : Plan.LayerPlan)
    (s : Plan.Series (Q * Q)) (currentCompIdx expectedCompFrames : Z)
    (simulationFps compFramerate : Q) (p : Q * Q) (body : Body) :
  layerOf plan layerId = Some lp ->
  Plan.position lp = Some s ->
  JS.index (Plan.svalues s) currentCompIdx = Some p ->
  holdOr s = true \/ ~ (0 <= lastOr s < expectedCompFrames) \/ currentCompIdx <= lastOr s ->
  exists body' trace,
    forcePosition layerId plan currentCompIdx expectedCompFrames simulationFps compFramerate body
    = Some (body', trace) /\
    position body' = {| x := fst p; y := snd p |} /\
    isSleeping body' = false /\
    (currentCompIdx <> lastOr s -> velocity body' = {| x := 0; y := 0 |}).
Proof.
intros Hlp Hpos Hp Hforce.
pose proof (index_Some_length _ _ _ Hp) as [Hidx0 Hidx].
unfold forcePosition. rewrite Hlp, Hpos.
set (inside := (0 <=? lastOr s) && (lastOr s <? expectedCompFrames)).
assert (Hshould : negb inside || holdOr s || (currentCompIdx <=? lastOr s) = true).
{ destruct Hforce as [H|[H|H]].
  - rewrite H. apply orb_true_iff. left. apply orb_true_r.
  - unfold inside. rewrite (inside_false _ _ H). reflexivity.
  - apply orb_true_iff. right. apply Z.leb_le. exact H. }
rewrite Hshould.
assert (Hlt : (currentCompIdx <? JS.length (Plan.svalues s)) = true) by (apply Z.ltb_lt; lia).
rewrite Hlt, Hp. cbn [andb]. destruct p as [px py]. cbn [fst snd].
set (zero := (currentCompIdx <? lastOr s) || holdOr s || negb inside).
set (handoff := if currentCompIdx =? lastOr s then _ else _).
assert (Hhand : total handoff /\ keeps position handoff /\ keeps isSleeping handoff).
{ unfold handoff. destruct (currentCompIdx =? lastOr s); [|repeat split; command_rules].
  destruct (Z.ltb_spec 0 currentCompIdx) as [Hpos0|Hzero].
  - destruct (index_in_range (Plan.svalues s) (currentCompIdx - 1)) as [prev Hprev]; [lia|].
    rewrite Hprev. repeat split; command_rules.
  - repeat split; command_rules. }
destruct Hhand as (Ht & Kp & Ks).
assert (Htotal : total ((emit (Body_setPosition {| x := px; y := py |}) ;;
                         when zero (emit (Body_setVelocity {| x := 0; y := 0 |})) ;;
                         emit (Sleeping_set false)) ;; handoff))
  by (command_rules; exact Ht).
destruct (Htotal body) as (body' & trace & E).
exists body', trace. split; [exact E|].
invert_run. subst.
match goal with
| Ew : when zero _ _ = Some _, Eh : handoff _ = Some _ |- _ =>
    pose proof (Kp _ _ _ Eh) as Hp1; pose proof (Ks _ _ _ Eh) as Hs1;
    pose proof (keeps_when position zero _
                  (keeps_emit position (Body_setVelocity {| x := 0; y := 0 |})
                     ltac:(effect_keeps)) _ _ _ Ew) as Hp2;
    rename Ew into Ewhen; rename Eh into Ehand
end.
cbn [perform position isSleeping] in Hp1, Hs1, Hp2.
split; [congruence | split; [exact Hs1|]].
intro Hne.
unfold handoff in Ehand. rewrite (proj2 (Z.eqb_neq _ _) Hne) in Ehand.
injection Ehand as <- _.
assert (Hzero : zero = true).
{ unfold zero. destruct Hforce as [H|[H|H]].
  - rewrite H. apply orb_true_iff. left. apply orb_true_r.
  - unfold inside. rewrite (inside_false _ _ H). apply orb_true_r.
  - apply orb_true_iff. left. apply orb_true_iff. left. apply Z.ltb_lt. lia. }
rewrite Hzero in Ewhen. cbn [when] in Ewhen. apply emit_inv in Ewhen.
destruct Ewhen as [-> _]. reflexivity.
Qed.

(** A body parked by a hold keyframe at frame 1 is still pinned at frame 3. *)
Lemma forcePosition_pins_keyframed_body_witness :
  exists body' trace,
    forcePosition (Some 1) (Scenes.planOf 1 (Scenes.moving Scenes.parked)) 3 60 50 30
                  (layerBody 1 [])
    = Some (body', trace) /\
    position body' = {| x := 40; y := 40 |} /\
    isSleeping body' = false /\
    (3 <> lastOr Scenes.parked -> velocity body' = {| x := 0; y := 0 |}).
Proof.
apply (forcePosition_pins_keyframed_body (Scenes.planOf 1 (Scenes.moving Scenes.parked))
         (Some 1) (Scenes.moving Scenes.parked) Scenes.parked 3 60 50 30 (40, 40)%Q
         (layerBody 1 [])).
- reflexivity.
- reflexivity.
- reflexivity.
- left. reflexivity.
Defined.

(** X12.  Rotation is handed over to the solver like position.  For a
    rotation series whose last keyframe [K] lies inside the frames of the
    run, is not a hold keyframe and has a sample [r]: [forceRotation] at
    frame [K] turns the body to [r] degrees, wakes it and sets its angular
    velocity to the last step of the animation, [(r - r') * pi / 180] per
    composition frame scaled by [simulationFps / compFramerate], where [r']
    is the sample before (the pre-value at frame 0); at every later frame it
    does nothing at all.  Angles are in units of pi. *)
Theorem forceRotation_angular_velocity_handoff
    (plan : Plan.AnimationPlan) (layerId : option Z) (lp : Plan.LayerPlan)
    (s : Plan.Series Q) (K expectedCompFrames : Z)
    (simulationFps compFramerate : Q) (r r' : Q) (body : Body) :
  layerOf plan layerId = Some lp ->
  Plan.rotation lp = Some s ->
  Plan.last s = Some K ->
  0 <= K < expectedCompFrames ->
  holdOr s = false ->
  JS.index (Plan.svalues s) K = Some r ->
  previousSample s K = Some r' ->
  let spin := JS.Num ((r - r') * (1 / 180 * (simulationFps / compFramerate))) in
  forceRotation layerId plan K expectedCompFrames simulationFps compFramerate body
  = Some (perform (Body_setAngularVelocity spin)
            (perform (Sleeping_set false)
               (perform (Body_setAngle (JS.Num (r / 180))) body)),
          [Body_setAngle (JS.Num (r / 180)); Sleeping_set false;
           Body_setAngularVelocity spin]) /\
  (forall later idx,
      K < idx ->
      forceRotation layerId plan idx expectedCompFrames simulationFps compFramerate later
      = Some (later, [])).
Proof.
intros Hlp Hrot Hlast [HK0 HKe] Hhold Hr Hprev spin.
pose proof (index_Some_length _ _ _ Hr) as [_ Hlen].
assert (Hlo : lastOr s = K) by (unfold lastOr; rewrite Hlast; reflexivity).
assert (E1 : (0 <=? K) = true) by (apply Z.leb_le; lia).
assert (E2 : (K <? expectedCompFrames) = true) by (apply Z.ltb_lt; lia).
split.
- unfold forceRotation. rewrite Hlp, Hrot, Hlo, Hhold.
  assert (E3 : (K <=? K) = true) by (apply Z.leb_le; lia).
  assert (E4 : (K <? JS.length (Plan.svalues s)) = true) by (apply Z.ltb_lt; lia).
  assert (E5 : (K <? K) = false) by (apply Z.ltb_ge; lia).
  assert (E6 : (K =? K) = true) by (apply Z.eqb_eq; reflexivity).
  rewrite E1, E2, E3, E4, E5, E6. cbn [andb orb negb when].
  assert (Hcur : numberAt (Plan.svalues s) K = JS.Num r)
    by (unfold numberAt; rewrite Hr; reflexivity).
  assert (Hpre : (if 0 <? K then numberAt (Plan.svalues s) (K - 1) else JS.Num (Plan.pre s))
                 = JS.Num r').
  { unfold previousSample in Hprev. destruct (0 <? K).
    - unfold numberAt. rewrite Hprev. reflexivity.
    - injection Hprev as <-. reflexivity. }
  rewrite Hcur, Hpre. reflexivity.
- intros later idx Hidx. unfold forceRotation. rewrite Hlp, Hrot, Hlo, Hhold.
  assert (E3 : (idx <=? K) = false) by (apply Z.leb_gt; lia).
  assert (E4 : (idx =? K) = false) by (apply Z.eqb_neq; lia).
  rewrite E1, E2, E3, E4. reflexivity.
Qed.

(** The quarter turn keyed up to frame 3 of a 30 fps composition. *)
Lemma forceRotation_angular_velocity_handoff_witness :
  option_map (fun res => (angle (fst res), angularVelocity (fst res)))
    (forceRotation (Some 1) (Scenes.planOf 1 (Scenes.turning Scenes.quarterTurn)) 3 60 50 30
                   (layerBody 1 []))
  = Some (JS.Num (90 / 180), JS.Num ((90 - 60) * (1 / 180 * (50 / 30)))).
Proof.
assert (Hrange : 0 <= 3 < 60) by lia.
pose proof (forceRotation_angular_velocity_handoff
              (Scenes.planOf 1 (Scenes.turning Scenes.quarterTurn)) (Some 1)
              (Scenes.turning Scenes.quarterTurn) Scenes.quarterTurn 3 60 50 30 90 60
              (layerBody 1 []) eq_refl eq_refl eq_refl Hrange eq_refl eq_refl eq_refl)
  as [E _].
rewrite E. reflexivity.
Defined.

Lemma netScale_app (t1 t2 : list Effect) :
  (fst (netScale (t1 ++ t2)) == fst (netScale t1) * fst (netScale t2))%Q /\
  (snd (netScale (t1 ++ t2)) == snd (netScale t1) * snd (netScale t2))%Q.
Proof.
induction t1 as [|e t1 [IHx IHy]]; cbn [app netScale fst snd].
- split; ring.
- destruct e; cbn [fst snd]; try (split; assumption).
  rewrite IHx, IHy. split; ring.
Qed.

Lemma currentScale_positive (raw : option Q) : (0 < Playback.currentScale raw)%Q.
Proof.
unfold Playback.currentScale.
apply Qlt_le_trans with EPS; [reflexivity | apply Q.le_max_r].
Qed.

(** One call of [forceScale] at a frame from 0 on: it does not throw, and
    the scale the body has afterwards is the scale it had times the factors
    it was scaled by. *)
Lemma forceScale_step (plan : Plan.AnimationPlan) (layerId : option Z)
    (currentCompIdx : Z) (body : Body) :
  0 <= currentCompIdx ->
  exists body' trace,
    forceScale layerId plan currentCompIdx body = Some (body', trace) /\
    (Playback.currentScale (scaleX (plugin body'))
     == Playback.currentScale (scaleX (plugin body)) * fst (netScale trace))%Q /\
    (Playback.currentScale (scaleY (plugin body'))
     == Playback.currentScale (scaleY (plugin body)) * snd (netScale trace))%Q.
Proof.
intro Hidx.
assert (Hskip : exists body' trace,
          skip body = Some (body', trace) /\
          (Playback.currentScale (scaleX (plugin body'))
           == Playback.currentScale (scaleX (plugin body)) * fst (netScale trace))%Q /\
          (Playback.currentScale (scaleY (plugin body'))
           == Playback.currentScale (scaleY (plugin body)) * snd (netScale trace))%Q).
{ exists body, []. split; [reflexivity|]. cbn [netScale fst snd]. split; ring. }
unfold forceScale.
destruct (layerOf plan layerId) as [lp|]; [|exact Hskip].
destruct (Plan.scale lp) as [s|]; [|exact Hskip].
destruct ((lastOr s <? currentCompIdx) || (JS.length (Plan.svalues s) <=? currentCompIdx))
  eqn:Eout; [exact Hskip|].
apply orb_false_elim in Eout. destruct Eout as [_ Elen]. apply Z.leb_gt in Elen.
destruct (index_in_range (Plan.svalues s) currentCompIdx (conj Hidx Elen)) as [[sx sy] Esample].
rewrite Esample. unfold reading, seq, emit.
eexists. eexists. split; [reflexivity|].
destruct body as [? ? ? ? ? ? ? ? ? ? ? ? ? ? ? ? ? [? psx psy ? ? ? ? ? ?]].
cbn [perform set_plugin plugin scaleX scaleY app netScale fst snd].
fold (Playback.currentScale psx). fold (Playback.currentScale psy).
pose proof (currentScale_positive psx) as Hx. pose proof (currentScale_positive psy) as Hy.
split.
- change (Playback.currentScale (Some (Qmax (sx / 100) EPS)))
    with (Qmax (Qmax (sx / 100) EPS) EPS).
  rewrite Qmax_EPS_twice. field. lra.
- change (Playback.currentScale (Some (Qmax (sy / 100) EPS)))
    with (Qmax (Qmax (sy / 100) EPS) EPS).
  rewrite Qmax_EPS_twice. field. lra.
Qed.

(** X13.  The scale a body carries in its plugin data mirrors its geometry.
    Over any run of [forceScale] calls at frames from 0 on, no call throws,
    and the scale the body has at the end is the scale it had at the start
    times the product of all the factors [Body.scale] was called with: the
    geometry is never scaled without the record being updated, so repeated
    forcing does not drift. *)
Theorem forceScale_tracks_scale (plan : Plan.AnimationPlan) (layerId : option Z)
    (frames : list Z) (body : Body) :
  Forall (fun i => 0 <= i) frames ->
  exists body' trace,
    sequence (map (forceScale layerId plan) frames) body = Some (body', trace) /\
    (Playback.currentScale (scaleX (plugin body'))
     == Playback.currentScale (scaleX (plugin body)) * fst (netScale trace))%Q /\
    (Playback.currentScale (scaleY (plugin body'))
     == Playback.currentScale (scaleY (plugin body)) * snd (netScale trace))%Q.
Proof.
intro Hall. revert body. induction Hall as [|i frames Hi _ IH]; intro body.
- exists body, []. split; [reflexivity|]. cbn [netScale fst snd]. split; ring.
- destruct (forceScale_step plan layerId i body Hi) as (b1 & t1 & E1 & Hx1 & Hy1).
  destruct (IH b1) as (b2 & t2 & E2 & Hx2 & Hy2).
  exists b2, (t1 ++ t2). split.
  + cbn [map sequence]. unfold seq. rewrite E1, E2. reflexivity.
  + destruct (netScale_app t1 t2) as [Ax Ay].
    rewrite Hx2, Hy2, Hx1, Hy1, Ax, Ay. split; ring.
Qed.

(** The scale keyed from 100% to 200%, forced at frames 0, 1, 2 and 3: the
    body ends at twice its size. *)
Lemma forceScale_tracks_scale_witness :
  exists body' trace,
    sequence (map (forceScale (Some 1) (Scenes.planOf 1 (Scenes.scaling Scenes.grow)))
                  [0; 1; 2; 3]) (layerBody 1 [])
    = Some (body', trace) /\
    (Playback.currentScale (scaleX (plugin body'))
     == Playback.currentScale (scaleX (plugin (layerBody 1 []))) * fst (netScale trace))%Q /\
    (Playback.currentScale (scaleY (plugin body'))
     == Playback.currentScale (scaleY (plugin (layerBody 1 []))) * snd (netScale trace))%Q.
Proof.
apply (forceScale_tracks_scale (Scenes.planOf 1 (Scenes.scaling Scenes.grow)) (Some 1)
         [0; 1; 2; 3] (layerBody 1 [])).
repeat constructor; lia.
Defined.

End ForcingFacts.

(* ------------------------------------------------------------------ *)
(** ** Material properties and body type, frame by frame *)

Section MaterialFacts.

Import Matter Sim Commands Frames.
Local Open Scope cmd_scope.

Lemma inWindow_past (s : option (Plan.Series Q)) (currentCompIdx : Z) :
  pastKeys s currentCompIdx -> inWindow s currentCompIdx = None.
Proof.
unfold pastKeys, inWindow. destruct s as [r|]; [|reflexivity].
intro H. destruct (Z.leb_spec currentCompIdx (lastOr r)); [lia | reflexivity].
Qed.

(** X14.  After the last keyframes of the material series of a layer (and
    for a body whose layer has none, or is not in the plan), density,
    friction and restitution hold their values, but air friction does not:
    the one thing [updatePhysicsProperties] does is to set the air friction
    to the default derived from the drag of the composition. *)
Theorem updatePhysicsProperties_after_last_keys
    (plan : Plan.AnimationPlan) (layerId : option Z) (currentCompIdx : Z)
    (frictionAirDefault : Q) (body : Body) :
  pastKeys (seriesOf plan layerId Plan.density) currentCompIdx ->
  pastKeys (seriesOf plan layerId Plan.friction) currentCompIdx ->
  pastKeys (seriesOf plan layerId Plan.frictionAir) currentCompIdx ->
  pastKeys (seriesOf plan layerId Plan.restitution) currentCompIdx ->
  updatePhysicsProperties layerId plan currentCompIdx frictionAirDefault body
  = Some (perform (Write_frictionAir (JS.Num frictionAirDefault)) body,
          [Write_frictionAir (JS.Num frictionAirDefault)]).
Proof.
intros Hd Hf Ha Hr. unfold updatePhysicsProperties.
unfold seriesOf in Hd, Hf, Ha, Hr.
rewrite (inWindow_past _ _ Hd), (inWindow_past _ _ Hf), (inWindow_past _ _ Ha),
  (inWindow_past _ _ Hr).
reflexivity.
Qed.

(** The friction keyed down to 0 at frame 2, read at frame 3 with a drag
    default of 1/20: the friction is left alone, the air friction is set. *)
Lemma updatePhysicsProperties_after_last_keys_witness :
  option_map (fun res => (friction (fst res), frictionAir (fst res)))
    (updatePhysicsProperties (Some 1)
       (Scenes.planOf 1 (Scenes.switching Scenes.icy Scenes.released)) 3 (1 # 20)
       (layerBody 1 []))
  = Some (JS.Num (1 # 10), JS.Num (1 # 20)).
Proof.
rewrite (updatePhysicsProperties_after_last_keys
           (Scenes.planOf 1 (Scenes.switching Scenes.icy Scenes.released)) (Some 1) 3 (1 # 20)
           (layerBody 1 [])).
- reflexivity.
- exact I.
- cbn. lia.
- exact I.
- exact I.
Defined.

Lemma applyBodyTypeVisuals_total (isStatic : bool) : total (applyBodyTypeVisuals isStatic).
Proof. unfold applyBodyTypeVisuals. command_rules. Qed.

(** The visual styling leaves the physical state of a body alone. *)
Lemma applyBodyTypeVisuals_physics (toStatic : bool) (b b' : Body) (t : list Effect) :
  applyBodyTypeVisuals toStatic b = Some (b', t) ->
  isStatic b' = isStatic b /\ isSleeping b' = isSleeping b /\
  velocity b' = velocity b /\ angularVelocity b' = angularVelocity b /\
  friction b' = friction b /\ frictionAir b' = frictionAir b /\
  restitution b' = restitution b /\
  plugin_isStatic (plugin b') = plugin_isStatic (plugin b).
Proof.
intro E.
assert (K1 : keeps isStatic (applyBodyTypeVisuals toStatic))
  by (unfold applyBodyTypeVisuals; command_rules).
assert (K2 : keeps isSleeping (applyBodyTypeVisuals toStatic))
  by (unfold applyBodyTypeVisuals; command_rules).
assert (K3 : keeps velocity (applyBodyTypeVisuals toStatic))
  by (unfold applyBodyTypeVisuals; command_rules).
assert (K4 : keeps angularVelocity (applyBodyTypeVisuals toStatic))
  by (unfold applyBodyTypeVisuals; command_rules).
assert (K5 : keeps friction (applyBodyTypeVisuals toStatic))
  by (unfold applyBodyTypeVisuals; command_rules).
assert (K6 : keeps frictionAir (applyBodyTypeVisuals toStatic))
  by (unfold applyBodyTypeVisuals; command_rules).
assert (K7 : keeps restitution (applyBodyTypeVisuals toStatic))
  by (unfold applyBodyTypeVisuals; command_rules).
assert (K8 : keeps (fun b => plugin_isStatic (plugin b)) (applyBodyTypeVisuals toStatic))
  by (unfold applyBodyTypeVisuals; command_rules).
repeat split;
  [ exact (K1 _ _ _ E) | exact (K2 _ _ _ E) | exact (K3 _ _ _ E) | exact (K4 _ _ _ E)
  | exact (K5 _ _ _ E) | exact (K6 _ _ _ E) | exact (K7 _ _ _ E) | exact (K8 _ _ _ E) ].
Qed.

(** What [setBodyType] leaves of a body that has its initial properties. *)
Lemma setBodyType_sets (toStatic : bool) (ip : InitialProperties) (b : Body) :
  initialProperties (plugin b) = Some ip ->
  exists b' t,
    Bodies.setBodyType toStatic b = Some (b', t) /\
    isStatic b' = toStatic /\
    plugin_isStatic (plugin b') = Some toStatic /\
    (toStatic = false ->
     velocity b' = {| x := 0; y := 0 |} /\
     angularVelocity b' = JS.Num 0 /\
     friction b' = JS.Num (ip_friction ip) /\
     frictionAir b' = JS.Num (ip_frictionAir ip) /\
     restitution b' = JS.Num (ip_restitution ip)).
Proof.
intro Hip. unfold Bodies.setBodyType, reading. rewrite Hip.
destruct toStatic; unfold seq, emit; (eexists; eexists; split; [reflexivity|]).
- destruct b as [? ? ? ? ? ? ? ? ? ? ? ? ? ? ? ? ? []].
  split; [reflexivity | split; [reflexivity | intro H; discriminate H]].
- destruct b as [? ? ? ? ? ? ? ? ? ? ? ? ? ? ? ? ? []].
  split; [reflexivity | split; [reflexivity | intros _; repeat split]].
Qed.

(** One call of [handleBodyTypeSwitch] on an enabled body, in full. *)
Lemma handleBodyTypeSwitch_run
    (plan : Plan.AnimationPlan) (layerId : option Z) (lp : Plan.LayerPlan)
    (s : Plan.Series Q) (currentCompIdx : Z) (cur prev : Q)
    (ip : InitialProperties) (body : Body) :
  layerOf plan layerId = Some lp ->
  Plan.bodyType lp = Some s ->
  currentCompIdx <= lastOr s ->
  JS.index (Plan.svalues s) currentCompIdx = Some cur ->
  previousSample s currentCompIdx = Some prev ->
  initialProperties (plugin body) = Some ip ->
  exists body' trace,
    handleBodyTypeSwitch layerId plan currentCompIdx false body = Some (body', trace) /\
    (JS.round cur = JS.round prev -> body' = body /\ trace = []) /\
    (JS.round cur <> JS.round prev ->
     isStatic body' = (JS.round cur =? 2) /\
     plugin_isStatic (plugin body') = Some (JS.round cur =? 2) /\
     (JS.round cur <> 2 ->
      isSleeping body' = false /\
      velocity body' = {| x := 0; y := 0 |} /\
      angularVelocity body' = JS.Num 0 /\
      friction body' = JS.Num (ip_friction ip) /\
      frictionAir body' = JS.Num (ip_frictionAir ip) /\
      restitution body' = JS.Num (ip_restitution ip))).
Proof.
intros Hlp Hbt Hlast Hcur Hprev Hip.
pose proof (index_Some_length _ _ _ Hcur) as [Hidx0 Hlen].
unfold handleBodyTypeSwitch. rewrite Hlp, Hbt.
assert (E1 : (lastOr s <? currentCompIdx) = false) by (apply Z.ltb_ge; lia).
assert (E2 : (JS.length (Plan.svalues s) <=? currentCompIdx) = false) by (apply Z.leb_gt; lia).
rewrite E1, E2. cbn [orb negb andb].
assert (Hc : roundedAt (Plan.svalues s) currentCompIdx = Some (JS.round cur))
  by (unfold roundedAt; rewrite Hcur; reflexivity).
assert (Hp : (if 0 <? currentCompIdx then roundedAt (Plan.svalues s) (currentCompIdx - 1)
              else Some (JS.round (Plan.pre s))) = Some (JS.round prev)).
{ unfold previousSample in Hprev. destruct (0 <? currentCompIdx).
  - unfold roundedAt. rewrite Hprev. reflexivity.
  - injection Hprev as <-. reflexivity. }
rewrite Hc, Hp. cbn [differ].
destruct (Z.eqb_spec (JS.round cur) (JS.round prev)) as [Heq|Hne]; cbn [negb when].
- exists body, []. split; [reflexivity|]. split; [auto | intro; contradiction].
- lazy beta iota zeta. set (toStatic := JS.round cur =? 2).
  destruct (setBodyType_sets toStatic ip body Hip) as (b1 & t1 & E & Hst & Hpl & Hdyn).
  assert (Htotal : total (when (negb toStatic) (emit (Sleeping_set false)) ;;
                          applyBodyTypeVisuals toStatic))
    by (command_rules; apply applyBodyTypeVisuals_total).
  destruct (Htotal b1) as (b2 & t2 & E').
  exists b2, (t1 ++ t2). split; [unfold seq at 1; rewrite E; rewrite E'; reflexivity|].
  split; [intro; contradiction | intros _].
  apply seq_inv in E'. destruct E' as (b3 & t3 & t4 & Ew & Ev & _).
  destruct (applyBodyTypeVisuals_physics _ _ _ _ Ev) as (V1 & V2 & V3 & V4 & V5 & V6 & V7 & V8).
  assert (Kw : forall (A : Type) (f : Body -> A),
            (forall b, f (perform (Sleeping_set false) b) = f b) -> f b3 = f b1)
    by (intros A f Hf; exact (keeps_when f _ _ (keeps_emit f _ Hf) _ _ _ Ew)).
  assert (W1 : isStatic b3 = isStatic b1) by (apply Kw; effect_keeps).
  assert (W2 : plugin b3 = plugin b1) by (apply Kw; effect_keeps).
  assert (W3 : velocity b3 = velocity b1) by (apply Kw; effect_keeps).
  assert (W4 : angularVelocity b3 = angularVelocity b1) by (apply Kw; effect_keeps).
  assert (W5 : friction b3 = friction b1) by (apply Kw; effect_keeps).
  assert (W6 : frictionAir b3 = frictionAir b1) by (apply Kw; effect_keeps).
  assert (W7 : restitution b3 = restitution b1) by (apply Kw; effect_keeps).
  split; [congruence | split; [congruence|]].
  intro Hdynamic.
  assert (Hfalse : toStatic = false) by (apply Z.eqb_neq; exact Hdynamic).
  destruct (Hdyn Hfalse) as (D1 & D2 & D3 & D4 & D5).
  rewrite Hfalse in Ew. cbn [negb when] in Ew. apply emit_inv in Ew. destruct Ew as [Eb3 _].
  split; [rewrite V2, Eb3; reflexivity|].
  repeat split; congruence.
Qed.

(** X15.  [handleBodyTypeSwitch] on an enabled body at a frame up to the
    last body-type keyframe, where the series has the sample [cur] and the
    sample before is [prev] (the pre-value at frame 0): it never throws; when
    both round to the same body type it does nothing; when they differ the
    body ends static exactly when the new value rounds to 2, and every other
    value makes it dynamic, awake and at rest. *)
Theorem handleBodyTypeSwitch_on_change
    (plan : Plan.AnimationPlan) (layerId : option Z) (lp : Plan.LayerPlan)
    (s : Plan.Series Q) (currentCompIdx : Z) (cur prev : Q)
    (ip : InitialProperties) (body : Body) :
  layerOf plan layerId = Some lp ->
  Plan.bodyType lp = Some s ->
  currentCompIdx <= lastOr s ->
  JS.index (Plan.svalues s) currentCompIdx = Some cur ->
  previousSample s currentCompIdx = Some prev ->
  initialProperties (plugin body) = Some ip ->
  exists body' trace,
    handleBodyTypeSwitch layerId plan currentCompIdx false body = Some (body', trace) /\
    (JS.round cur = JS.round prev -> body' = body /\ trace = []) /\
    (JS.round cur <> JS.round prev ->
     isStatic body' = (JS.round cur =? 2) /\
     plugin_isStatic (plugin body') = Some (JS.round cur =? 2) /\
     (JS.round cur <> 2 ->
      isSleeping body' = false /\
      velocity body' = {| x := 0; y := 0 |} /\
      angularVelocity body' = JS.Num 0)).
Proof.
intros Hlp Hbt Hlast Hcur Hprev Hip.
destruct (handleBodyTypeSwitch_run plan layerId lp s currentCompIdx cur prev ip body
            Hlp Hbt Hlast Hcur Hprev Hip) as (body' & trace & E & Hsame & Hdiff).
exists body', trace. split; [exact E | split; [exact Hsame|]].
intro Hne. destruct (Hdiff Hne) as (H1 & H2 & H3).
split; [exact H1 | split; [exact H2|]].
intro Hdyn. destruct (H3 Hdyn) as (D1 & D2 & D3 & _).
split; [exact D1 | split; [exact D2 | exact D3]].
Qed.

(** The body type keyed from static to dynamic at frame 2: at frame 2 the
    body is released. *)
Lemma handleBodyTypeSwitch_on_change_witness :
  exists body' trace,
    handleBodyTypeSwitch (Some 1)
      (Scenes.planOf 1 (Scenes.switching Scenes.icy Scenes.released)) 2 false
      (layerBody 1 [])
    = Some (body', trace) /\
    isStatic body' = false /\ isSleeping body' = false.
Proof.
assert (Hip : initialProperties (plugin (layerBody 1 []))
              = Some {| ip_mass := JS.Num 1; ip_inertia := JS.Num 1; ip_density := 1 # 1000;
                        ip_friction := 1 # 10; ip_frictionAir := 1 # 100;
                        ip_restitution := 0 |}) by reflexivity.
assert (Hlast : 2 <= lastOr Scenes.released) by (cbn; lia).
destruct (handleBodyTypeSwitch_on_change
            (Scenes.planOf 1 (Scenes.switching Scenes.icy Scenes.released)) (Some 1)
            (Scenes.switching Scenes.icy Scenes.released) Scenes.released 2 1 2 _
            (layerBody 1 []) eq_refl eq_refl Hlast eq_refl eq_refl Hip)
  as (body' & trace & E & _ & Hdiff).
exists body', trace. split; [exact E|].
destruct Hdiff as (H1 & _ & H3); [vm_compute; discriminate|].
destruct H3 as (D1 & _); [vm_compute; discriminate|].
split; [exact H1 | exact D1].
Defined.

Lemma updatePhysicsProperties_total (plan : Plan.AnimationPlan) (layerId : option Z)
    (currentCompIdx : Z) (frictionAirDefault : Q) :
  total (updatePhysicsProperties layerId plan currentCompIdx frictionAirDefault)
  /\ keeps plugin (updatePhysicsProperties layerId plan currentCompIdx frictionAirDefault).
Proof.
unfold updatePhysicsProperties.
destruct (inWindow _ _); destruct (inWindow _ _); destruct (inWindow _ _);
  destruct (inWindow _ _); split; command_rules.
Qed.

(** X16.  How the last two steps of the per-body pass compose.  At a frame
    where the body type of an enabled body changes to a dynamic one, the
    friction, air friction and restitution that [updatePhysicsProperties]
    has just read from the keyframes (or from the drag default) do not
    survive the tick: [handleBodyTypeSwitch] runs after it and resets all
    three to the values the body was created with. *)
Theorem body_type_switch_resets_material
    (plan : Plan.AnimationPlan) (layerId : option Z) (lp : Plan.LayerPlan)
    (s : Plan.Series Q) (currentCompIdx : Z) (cur prev frictionAirDefault : Q)
    (ip : InitialProperties) (body : Body) :
  layerOf plan layerId = Some lp ->
  Plan.bodyType lp = Some s ->
  currentCompIdx <= lastOr s ->
  JS.index (Plan.svalues s) currentCompIdx = Some cur ->
  previousSample s currentCompIdx = Some prev ->
  initialProperties (plugin body) = Some ip ->
  JS.round cur <> JS.round prev ->
  JS.round cur <> 2 ->
  exists body' trace,
    (updatePhysicsProperties layerId plan currentCompIdx frictionAirDefault ;;
     handleBodyTypeSwitch layerId plan currentCompIdx false) body
    = Some (body', trace) /\
    friction body' = JS.Num (ip_friction ip) /\
    frictionAir body' = JS.Num (ip_frictionAir ip) /\
    restitution body' = JS.Num (ip_restitution ip).
Proof.
intros Hlp Hbt Hlast Hcur Hprev Hip Hne Hdyn.
destruct (updatePhysicsProperties_total plan layerId currentCompIdx frictionAirDefault)
  as [Ht Kp].
destruct (Ht body) as (b1 & t1 & E1).
assert (Hip1 : initialProperties (plugin b1) = Some ip)
  by (rewrite (Kp _ _ _ E1); exact Hip).
destruct (handleBodyTypeSwitch_run plan layerId lp s currentCompIdx cur prev ip b1
            Hlp Hbt Hlast Hcur Hprev Hip1) as (body' & t2 & E2 & _ & Hdiff).
exists body', (t1 ++ t2). split; [unfold seq; rewrite E1, E2; reflexivity|].
destruct (Hdiff Hne) as (_ & _ & H3). destruct (H3 Hdyn) as (_ & _ & _ & F1 & F2 & F3).
split; [exact F1 | split; [exact F2 | exact F3]].
Qed.

(** The friction keyed down to 0 at frame 2, where the body type is keyed
    from static to dynamic: the body ends the tick with its initial friction
    of 1/10. *)
Lemma body_type_switch_resets_material_witness :
  exists body' trace,
    (updatePhysicsProperties (Some 1)
       (Scenes.planOf 1 (Scenes.switching Scenes.icy Scenes.released)) 2 (1 # 20) ;;
     handleBodyTypeSwitch (Some 1)
       (Scenes.planOf 1 (Scenes.switching Scenes.icy Scenes.released)) 2 false)
      (layerBody 1 [])
    = Some (body', trace) /\
    friction body' = JS.Num (1 # 10).
Proof.
assert (Hip : initialProperties (plugin (layerBody 1 []))
              = Some {| ip_mass := JS.Num 1; ip_inertia := JS.Num 1; ip_density := 1 # 1000;
                        ip_friction := 1 # 10; ip_frictionAir := 1 # 100;
                        ip_restitution := 0 |}) by reflexivity.
assert (Hlast : 2 <= lastOr Scenes.released) by (cbn; lia).
assert (Hne : JS.round 1 <> JS.round 2) by (vm_compute; discriminate).
assert (Hdyn : JS.round 1 <> 2) by (vm_compute; discriminate).
destruct (body_type_switch_resets_material
            (Scenes.planOf 1 (Scenes.switching Scenes.icy Scenes.released)) (Some 1)
            (Scenes.switching Scenes.icy Scenes.released) Scenes.released 2 1 2 (1 # 20) _
            (layerBody 1 []) eq_refl eq_refl Hlast eq_refl eq_refl Hip Hne Hdyn)
  as (body' & trace & E & F & _).
exists body', trace. split; [exact E | exact F].
Defined.

End MaterialFacts.

(* ------------------------------------------------------------------ *)
(** ** Disabling, enabling and restyling a body *)

Section GatingFacts.

Import Matter Sim Commands.
Local Open Scope cmd_scope.

Lemma applyDisabledState_total : total applyDisabledState.
Proof. unfold applyDisabledState. command_rules. Qed.

Lemma applyEnabledState_total (isStatic : bool) : total (applyEnabledState isStatic).
Proof. unfold applyEnabledState. command_rules. Qed.

(** What [applyEnabledState] sets. *)
Lemma applyEnabledState_sets (st : bool) (b b' : Body) (t : list Effect) :
  applyEnabledState st b = Some (b', t) ->
  category b' = 1 /\ mask b' = 65535 /\
  option_map opacity (render b')
  = option_map (fun _ => if st then (1 # 2)%Q else 1%Q) (render b).
Proof.
unfold applyEnabledState. intro E.
apply seq_inv in E. destruct E as (b1 & t1 & t2 & Er & E & _).
apply seq_inv in E. destruct E as (b2 & t3 & t4 & Ec & Em & _).
apply emit_inv in Ec, Em. destruct Ec as [-> _]. destruct Em as [-> _].
cbn [perform category mask render]. split; [reflexivity | split; [reflexivity|]].
unfold reading in Er. destruct (render b) as [r|] eqn:Eb.
- unfold hasRender in Er. rewrite Eb in Er. cbn [when] in Er.
  apply seq_inv in Er. destruct Er as (b3 & t5 & t6 & Eo & Ep & _).
  apply emit_inv in Eo. destruct Eo as [-> _].
  rewrite (keeps_when render _ _
             (keeps_emit render (Parts_opacity (if st then 1 # 2 else 1))
                ltac:(effect_keeps)) _ _ _ Ep).
  cbn [perform set_render render]. rewrite Eb. reflexivity.
- unfold hasRender in Er. rewrite Eb in Er. cbn [when] in Er.
  injection Er as <- _. rewrite Eb. reflexivity.
Qed.

(** X17.  Enabling a body undoes what disabling did to its collision filter
    and its opacity, but not to its sleep: after [applyDisabledState] and
    then [applyEnabledState] the body collides again (category 1, mask
    0xFFFF) and has the normal opacity of its kind, 0.5 for a static and 1 for
    a dynamic body, while it is still asleep; position, velocities and the
    static flag are as before. *)
Theorem applyEnabledState_after_disabled (st : bool) (body : Body) :
  exists body' trace,
    (applyDisabledState ;; applyEnabledState st) body = Some (body', trace) /\
    category body' = 1 /\ mask body' = 65535 /\
    option_map opacity (render body')
    = option_map (fun _ => if st then (1 # 2)%Q else 1%Q) (render body) /\
    isSleeping body' = true /\
    position body' = position body /\
    velocity body' = velocity body /\
    angularVelocity body' = angularVelocity body /\
    isStatic body' = isStatic body.
Proof.
assert (Ht : total (applyDisabledState ;; applyEnabledState st))
  by (apply total_seq; [apply applyDisabledState_total | apply applyEnabledState_total]).
destruct (Ht body) as (body' & trace & E).
exists body', trace. split; [exact E|].
apply seq_inv in E. destruct E as (b1 & t1 & t2 & Ed & Ee & _).
destruct (applyEnabledState_sets _ _ _ _ Ee) as (Hc & Hm & Ho).
assert (Kd : forall (A : Type) (f : Body -> A), keeps f applyDisabledState -> f b1 = f body)
  by (intros A f K; exact (K _ _ _ Ed)).
assert (Hasleep : isSleeping b1 = true).
{ pose proof Ed as Ed'.
  unfold applyDisabledState in Ed'.
  apply seq_inv in Ed'. destruct Ed' as (b2 & t3 & t4 & Es & Ed' & _).
  apply seq_inv in Ed'. destruct Ed' as (b3 & t5 & t6 & Er & Ed' & _).
  apply seq_inv in Ed'. destruct Ed' as (b4 & t7 & t8 & Ec & Em & _).
  apply emit_inv in Es, Ec, Em. destruct Es as [-> _]. destruct Ec as [-> _].
  destruct Em as [-> _]. cbn [perform isSleeping].
  assert (K : keeps isSleeping
            (reading (fun body0 =>
               when (hasRender body0)
                 (emit (Write_opacity (1 # 4)) ;;
                  when (isCompound body0) (emit (Parts_opacity (1 # 4)))))))
    by command_rules.
  rewrite (K _ _ _ Er). reflexivity. }

assert (Ke : forall (A : Type) (f : Body -> A), keeps f (applyEnabledState st) -> f body' = f b1)
  by (intros A f K; exact (K _ _ _ Ee)).
split; [exact Hc | split; [exact Hm|]].
split.
{ rewrite Ho.
  assert (Hr : option_map (fun _ : Render => tt) (render b1)
               = option_map (fun _ : Render => tt) (render body)).
  { apply (Kd _ (fun b => option_map (fun _ : Render => tt) (render b))).
    unfold applyDisabledState. command_rules. }
  destruct (render b1), (render body); try discriminate Hr; reflexivity. }
split.
{ rewrite (Ke _ isSleeping) by (unfold applyEnabledState; command_rules). exact Hasleep. }
repeat split.
- rewrite (Ke _ position) by (unfold applyEnabledState; command_rules).
  apply Kd. unfold applyDisabledState. command_rules.
- rewrite (Ke _ velocity) by (unfold applyEnabledState; command_rules).
  apply Kd. unfold applyDisabledState. command_rules.
- rewrite (Ke _ angularVelocity) by (unfold applyEnabledState; command_rules).
  apply Kd. unfold applyDisabledState. command_rules.
- rewrite (Ke _ isStatic) by (unfold applyEnabledState; command_rules).
  apply Kd. unfold applyDisabledState. command_rules.
Qed.

(** X18.  A body whose in-point comes at or after the last body-type
    keyframe [K] is activated with the body type held at that keyframe:
    [handleInPointActivation] never throws, makes the body static exactly when
    the sample at [K] rounds to 2, wakes it otherwise, and always switches its
    collisions back on (category 1, mask 0xFFFF). *)
Theorem handleInPointActivation_takes_held_type
    (plan : Plan.AnimationPlan) (layerId : option Z) (lp : Plan.LayerPlan)
    (s : Plan.Series Q) (currentCompIdx : Z) (v : Q) (body : Body) :
  layerOf plan layerId = Some lp ->
  Plan.bodyType lp = Some s ->
  0 <= lastOr s <= currentCompIdx ->
  JS.index (Plan.svalues s) (lastOr s) = Some v ->
  exists body' trace,
    handleInPointActivation layerId plan currentCompIdx body = Some (body', trace) /\
    isStatic body' = (JS.round v =? 2) /\
    (JS.round v <> 2 -> isSleeping body' = false) /\
    category body' = 1 /\ mask body' = 65535.
Proof.
intros Hlp Hbt [HK0 HK] Hv.
pose proof (index_Some_length _ _ _ Hv) as [_ Hlen].
unfold handleInPointActivation, reading. rewrite Hlp, Hbt.
assert (Hat : match Plan.svalues s with
              | [] => JS.round (Plan.pre s) =? 2
              | _ :: _ =>
                  roundedIs (Plan.svalues s)
                    (if 0 <=? lastOr s
                     then Z.min (Z.min currentCompIdx (JS.length (Plan.svalues s) - 1)) (lastOr s)
                     else Z.min currentCompIdx (JS.length (Plan.svalues s) - 1)) 2
              end = (JS.round v =? 2)).
{ destruct (Plan.svalues s) as [|x xs] eqn:Es; [cbn in Hlen; lia|].
  destruct (Z.leb_spec 0 (lastOr s)) as [_|]; [|lia].
  replace (Z.min (Z.min currentCompIdx (JS.length (x :: xs) - 1)) (lastOr s))
    with (lastOr s) by lia.
  unfold roundedIs. rewrite Hv. reflexivity. }
lazy zeta.
match goal with
| |- context [emit (Body_setStatic ?at_)] =>
    replace at_ with (JS.round v =? 2)
      by (rewrite <- Hat; destruct (Plan.svalues s); reflexivity)
end.
set (toStatic := JS.round v =? 2).
assert (Ht : total (emit (Body_setStatic toStatic) ;;
                    when (negb toStatic) (emit (Sleeping_set false)) ;;
                    applyBodyTypeVisuals toStatic ;;
                    emit (Write_category 1) ;; emit (Write_mask 65535)))
  by (command_rules; apply applyBodyTypeVisuals_total).
destruct (Ht body) as (body' & trace & E).
exists body', trace. split; [exact E|].
apply seq_inv in E. destruct E as (b1 & t1 & t2 & Es & E & _).
apply seq_inv in E. destruct E as (b2 & t3 & t4 & Ew & E & _).
apply seq_inv in E. destruct E as (b3 & t5 & t6 & Ev & E & _).
apply seq_inv in E. destruct E as (b4 & t7 & t8 & Ec & Em & _).
apply emit_inv in Es, Ec, Em. destruct Es as [-> _]. destruct Ec as [-> _].
destruct Em as [-> _]. cbn [perform isStatic isSleeping category mask].
destruct (applyBodyTypeVisuals_physics _ _ _ _ Ev) as (V1 & V2 & _).
rewrite V1, V2.
split; [|split; [|split; reflexivity]].
- rewrite (keeps_when isStatic _ _ (keeps_emit isStatic (Sleeping_set false)
                                      ltac:(effect_keeps)) _ _ _ Ew).
  destruct toStatic; reflexivity.
- intro Hdyn. assert (Hf : toStatic = false) by (apply Z.eqb_neq; exact Hdyn).
  rewrite Hf in Ew. cbn [negb when] in Ew. apply emit_inv in Ew. destruct Ew as [-> _].
  reflexivity.
Qed.

(** A body entering at frame 3, after the body type was keyed to static at
    frame 1: it is activated static. *)
Lemma handleInPointActivation_takes_held_type_witness :
  exists body' trace,
    handleInPointActivation (Some 1)
      (Scenes.planOf 1 (Scenes.switching Scenes.icy Scenes.frozen)) 3 (layerBody 1 [])
    = Some (body', trace) /\
    isStatic body' = true /\ category body' = 1 /\ mask body' = 65535.
Proof.
assert (Hrange : 0 <= lastOr Scenes.frozen <= 3) by (cbn; lia).
destruct (handleInPointActivation_takes_held_type
            (Scenes.planOf 1 (Scenes.switching Scenes.icy Scenes.frozen)) (Some 1)
            (Scenes.switching Scenes.icy Scenes.frozen) Scenes.frozen 3 2 (layerBody 1 [])
            eq_refl eq_refl Hrange eq_refl)
  as (body' & trace & E & Hs & _ & Hc & Hm).
exists body', trace. split; [exact E | split; [exact Hs | split; [exact Hc | exact Hm]]].
Defined.

End GatingFacts.

Section VisualFacts.
Import Matter Sim Commands.
Local Open Scope cmd_scope.

Lemma truthyStr_some (o : option string) :
  truthyStr o = true -> exists c s, o = Some (String c s).
Proof.
destruct o as [[|c s]|]; try discriminate. intros _. exists c, s. reflexivity.
Qed.

(** X19.  Styling a body as static and then as dynamic gives it back its
    colours: for a rendered body with a fill and a stroke colour whose
    original colours are not saved yet, [applyBodyTypeVisuals] with [true]
    and then with [false] never throws and leaves the body with its fill and
    stroke colours and full opacity; every rendered part of a compound body
    ends with the colours of the body itself. *)
Theorem applyBodyTypeVisuals_round_trip (body : Body) (r : Render) :
  render body = Some r ->
  truthyStr (fillStyle r) = true ->
  truthyStr (strokeStyle r) = true ->
  truthyStr (originalFillStyle (plugin body)) = false ->
  exists body' trace,
    (applyBodyTypeVisuals true ;; applyBodyTypeVisuals false) body = Some (body', trace) /\
    render body'
    = Some {| opacity := 1; fillStyle := fillStyle r; strokeStyle := strokeStyle r |} /\
    Forall (fun part =>
              part = None \/
              part = Some {| opacity := 1; fillStyle := fillStyle r;
                             strokeStyle := strokeStyle r |})
           (children body').
Proof.
intros Hr Hfill Hstroke Horig.
destruct (truthyStr_some _ Hfill) as (cf & sf & Ef).
destruct (truthyStr_some _ Hstroke) as (cs & ss & Es).
destruct body as [bid bpos bvel bang bav bst bsl bm bi bd bf bfa bre brender bchildren
                  bcat bmask [pld psx psy pip pdp pst psi pof pos']].
cbn [render plugin originalFillStyle] in Hr, Horig. subst brender.
destruct r as [rop rfill rstroke]. cbn [fillStyle strokeStyle] in *. subst rfill rstroke.
unfold applyBodyTypeVisuals, reading, hasRender, isCompound, renderFill, renderStroke.
cbn [render negb].
unfold seq, emit, when, whenStr, orStr, skip, perform, set_render, set_plugin, set_children.
cbn [render plugin children originalFillStyle originalStrokeStyle option_map
     with_opacity with_fillStyle with_strokeStyle fillStyle strokeStyle opacity negb app
     id position velocity angle angularVelocity isStatic isSleeping mass inertia density
     friction frictionAir restitution category mask layerData scaleX scaleY
     initialProperties dynamicProperties plugin_isStatic plugin_isStaticInitial].
rewrite Horig. cbn [negb].
cbn [render plugin children originalFillStyle originalStrokeStyle option_map
     with_opacity with_fillStyle with_strokeStyle fillStyle strokeStyle opacity negb app
     id position velocity angle angularVelocity isStatic isSleeping mass inertia density
     friction frictionAir restitution category mask layerData scaleX scaleY
     initialProperties dynamicProperties plugin_isStatic plugin_isStaticInitial truthyStr].
destruct bchildren as [|child rest];
cbn [render plugin children originalFillStyle originalStrokeStyle option_map map
     with_opacity with_fillStyle with_strokeStyle fillStyle strokeStyle opacity negb app
     id position velocity angle angularVelocity isStatic isSleeping mass inertia density
     friction frictionAir restitution category mask layerData scaleX scaleY
     initialProperties dynamicProperties plugin_isStatic plugin_isStaticInitial truthyStr];
(eexists; eexists; split; [reflexivity|]); cbn [render children];
(split; [reflexivity|]).
- constructor.
- constructor.
  + destruct child as [[? ? ?]|]; [right | left]; reflexivity.
  + rewrite !map_map. apply Forall_forall. intros part Hin.
    apply in_map_iff in Hin. destruct Hin as (c & <- & _).
    destruct c as [[? ? ?]|]; [right | left]; reflexivity.
Qed.

(** The plain body with its red fill and stroke. *)
Lemma applyBodyTypeVisuals_round_trip_witness :
  exists body' trace,
    (applyBodyTypeVisuals true ;; applyBodyTypeVisuals false) plainBody = Some (body', trace) /\
    render body'
    = Some {| opacity := 1; fillStyle := Some "#e9462f"%string;
              strokeStyle := Some "#e9462f"%string |}.
Proof.
destruct (applyBodyTypeVisuals_round_trip plainBody
            {| opacity := 1; fillStyle := Some "#e9462f"%string;
               strokeStyle := Some "#e9462f"%string |}
            eq_refl eq_refl eq_refl eq_refl) as (body' & trace & E & Hr & _).
exists body', trace. split; [exact E | exact Hr].
Defined.

End VisualFacts.

(* ------------------------------------------------------------------ *)
(** ** When the per-body pass and the run complete *)

Section Completion.

Import Matter Sim Commands Sampled Runner.
Local Open Scope cmd_scope.

(** X20.  [forcePosition] throws at the frame of the last position
    keyframe when the series has no sample there, which is the case when the
    keyframe index is at or past the number of samples: it reads
    [posSeries[currentCompIdx][0]] of an undefined sample. *)
Theorem forcePosition_throws_without_sample
    (plan : Plan.AnimationPlan) (layerId : option Z) (lp : Plan.LayerPlan)
    (s : Plan.Series (Q * Q)) (expectedCompFrames : Z)
    (simulationFps compFramerate : Q) (body : Body) :
  layerOf plan layerId = Some lp ->
  Plan.position lp = Some s ->
  JS.length (Plan.svalues s) <= lastOr s ->
  forcePosition layerId plan (lastOr s) expectedCompFrames simulationFps compFramerate body
  = None.
Proof.
intros Hlp Hpos Hlen. unfold forcePosition. rewrite Hlp, Hpos.
assert (E1 : (lastOr s <? JS.length (Plan.svalues s)) = false) by (apply Z.ltb_ge; lia).
assert (E2 : (lastOr s =? lastOr s) = true) by (apply Z.eqb_refl).
assert (E3 : JS.index (Plan.svalues s) (lastOr s) = None).
{ unfold JS.index. destruct (lastOr s <? 0); [reflexivity|].
  apply nth_error_None. unfold JS.length in Hlen. lia. }
rewrite E1, E2, E3, andb_false_r.
destruct (0 <? lastOr s); reflexivity.
Qed.

Lemma forcePosition_throws_without_sample_witness :
  forcePosition (Some 1) (Scenes.planOf 1 (Scenes.moving keyedAtEnd)) 4 4 50 30 (layerBody 1 [])
  = None.
Proof.
apply (forcePosition_throws_without_sample (Scenes.planOf 1 (Scenes.moving keyedAtEnd))
         (Some 1) (Scenes.moving keyedAtEnd) keyedAtEnd 4 50 30 (layerBody 1 [])).
- reflexivity.
- reflexivity.
- cbn. lia.
Defined.

Lemma layerOf_lookup (plan : Plan.AnimationPlan) (layerId : option Z) (lp : Plan.LayerPlan) :
  layerOf plan layerId = Some lp ->
  exists i, Plan.lookup i (Plan.plan_layers plan) = Some lp.
Proof.
unfold layerOf. destruct layerId as [i|]; [|discriminate]. intro H. exists i. exact H.
Qed.

Lemma forcePosition_total (plan : Plan.AnimationPlan) (layerId : option Z)
    (currentCompIdx expectedCompFrames : Z) (simulationFps compFramerate : Q) :
  atLastKey plan -> 0 <= currentCompIdx ->
  total (forcePosition layerId plan currentCompIdx expectedCompFrames simulationFps compFramerate).
Proof.
intros Hs Hidx. unfold forcePosition.
destruct (layerOf plan layerId) as [lp|] eqn:Hlp; [|apply total_skip].
destruct (Plan.position lp) as [s|] eqn:Hpos; [|apply total_skip].
destruct (layerOf_lookup _ _ _ Hlp) as [i Hi].
pose proof (Hs i lp s Hi Hpos) as Hlast.
apply total_seq.
- destruct (_ && (currentCompIdx <? JS.length (Plan.svalues s))) eqn:E; [|apply total_skip].
  apply andb_prop in E. destruct E as [_ E]. apply Z.ltb_lt in E.
  destruct (index_in_range (Plan.svalues s) currentCompIdx (conj Hidx E)) as [[px py] Ep].
  rewrite Ep. command_rules.
- destruct (Z.eqb_spec currentCompIdx (lastOr s)) as [Heq|_]; [|apply total_skip].
  assert (Hin : 0 <= currentCompIdx < JS.length (Plan.svalues s)) by lia.
  destruct (index_in_range (Plan.svalues s) currentCompIdx Hin) as [cur Ecur].
  rewrite Ecur.
  destruct (Z.ltb_spec 0 currentCompIdx) as [Hpos0|_]; [|apply total_emit].
  destruct (index_in_range (Plan.svalues s) (currentCompIdx - 1)) as [prev Eprev]; [lia|].
  rewrite Eprev. apply total_emit.
Qed.

Lemma forceRotation_total (plan : Plan.AnimationPlan) (layerId : option Z)
    (currentCompIdx expectedCompFrames : Z) (simulationFps compFramerate : Q) :
  total (forceRotation layerId plan currentCompIdx expectedCompFrames simulationFps compFramerate).
Proof.
unfold forceRotation.
destruct (layerOf plan layerId) as [lp|]; [|apply total_skip].
destruct (Plan.rotation lp) as [s|]; [|apply total_skip].
command_rules.
Qed.

Lemma forceScale_total (plan : Plan.AnimationPlan) (layerId : option Z) (currentCompIdx : Z) :
  0 <= currentCompIdx -> total (forceScale layerId plan currentCompIdx).
Proof.
intros Hidx body.
destruct (forceScale_step plan layerId currentCompIdx body Hidx) as (b' & t & E & _).
exists b', t. exact E.
Qed.

Lemma setBodyType_total (toStatic : bool) : total (Bodies.setBodyType toStatic).
Proof.
unfold Bodies.setBodyType. apply total_reading. intro b0.
destruct (initialProperties (plugin b0)); [|apply total_skip].
destruct toStatic; command_rules.
Qed.

Lemma handleBodyTypeSwitch_total (plan : Plan.AnimationPlan) (layerId : option Z)
    (currentCompIdx : Z) (isDisabled : bool) :
  total (handleBodyTypeSwitch layerId plan currentCompIdx isDisabled).
Proof.
unfold handleBodyTypeSwitch.
destruct (layerOf plan layerId) as [lp|]; [|apply total_skip].
destruct (Plan.bodyType lp) as [s|]; [|apply total_skip].
destruct (_ || _); [apply total_skip|].
apply total_when. apply total_seq; [apply setBodyType_total|].
apply total_seq; [command_rules | apply applyBodyTypeVisuals_total].
Qed.

Lemma handleInPointActivation_total (plan : Plan.AnimationPlan) (layerId : option Z)
    (currentCompIdx : Z) :
  total (handleInPointActivation layerId plan currentCompIdx).
Proof.
unfold handleInPointActivation. apply total_reading. intro b0. lazy zeta.
apply total_seq; [apply total_emit|].
apply total_seq; [apply total_when; apply total_emit|].
apply total_seq; [apply applyBodyTypeVisuals_total|].
command_rules.
Qed.

(** The per-body pass never throws on a plan that has a sample at every
    last position keyframe. *)
Lemma processBody_total (plan : Plan.AnimationPlan)
    (nextCompFrame currentCompIdx expectedCompFrames : Z)
    (simulationFps compFramerate workareaStart frictionAirDefault : Q) :
  atLastKey plan -> 0 <= currentCompIdx ->
  total (processBody plan nextCompFrame currentCompIdx expectedCompFrames
                     simulationFps compFramerate workareaStart frictionAirDefault).
Proof.
intros Hs Hidx. unfold processBody. apply total_reading. intro b0.
destruct (InOut.isDisabled _); [apply applyDisabledState_total|].
apply total_seq.
{ destruct (negb _); [apply applyEnabledState_total|].
  destruct (InOut.isAtInPoint _); [apply handleInPointActivation_total | apply total_skip]. }
apply total_seq; [command_rules|].
apply total_seq; [apply forcePosition_total; assumption|].
apply total_seq; [apply forceRotation_total|].
apply total_seq; [apply forceScale_total; assumption|].
apply total_seq; [apply (proj1 (updatePhysicsProperties_total _ _ _ _))|].
apply handleBodyTypeSwitch_total.
Qed.

Lemma forEachBody_total (callback : Cmd) (bs : list Body) :
  total callback -> exists bs', forEachBody callback bs = Some bs'.
Proof.
intro Ht. induction bs as [|b bs [bs' IH]]; [exists []; reflexivity|].
destruct (Ht b) as (b' & t & E). exists (b' :: bs'). cbn [forEachBody]. rewrite E, IH.
reflexivity.
Qed.

Lemma iteration_total (Engine_update : Engine -> Q -> Engine) (workarea : Q * Q)
    (compFramerate : Q) (comp : option Plan.CompositionData)
    (plan : option Plan.AnimationPlan) (physicsFrame : Z) (st : LoopState) :
  planAtLastKey plan ->
  exists st', iteration Engine_update workarea compFramerate comp plan physicsFrame st = Some st'.
Proof.
intro Hs. unfold iteration.
destruct (updateGravity (engine st) comp _) as [engine1 frictionAirDefault].
assert (Hbodies : exists bs,
  match plan with
  | Some p =>
      forEachBody
        (processBody p (nextCompFrame st) (Z.max 0 (nextCompFrame st - 1))
           (expectedCompFrames workarea compFramerate) SIMULATION_FPS compFramerate
           (fst workarea) frictionAirDefault) (bodies engine1)
  | None => Some (bodies engine1)
  end = Some bs).
{ destruct plan as [p|]; [|eexists; reflexivity].
  apply forEachBody_total. apply processBody_total; [exact Hs | lia]. }
destruct Hbodies as [bs ->].
destruct (due _ _ _ _); eexists; reflexivity.
Qed.

Lemma loop_total (Engine_update : Engine -> Q -> Engine) (workarea : Q * Q)
    (compFramerate : Q) (comp : option Plan.CompositionData)
    (plan : option Plan.AnimationPlan) (n : nat) (physicsFrame : Z) (st : LoopState) :
  planAtLastKey plan ->
  exists st', loop Engine_update workarea compFramerate comp plan n physicsFrame st = Some st'.
Proof.
intro Hs. revert physicsFrame st. induction n as [|n IH]; intros physicsFrame st.
- exists st. reflexivity.
- cbn [loop].
  destruct (iteration_total Engine_update workarea compFramerate comp plan physicsFrame st Hs)
    as [st1 ->].
  apply IH.
Qed.

(** X21.  Up to 50 frames per second the run is complete.  For a
    composition frame rate above 0 and up to the 50 steps per second of the
    solver, a work area that is a whole number [N] of frames long, and a plan
    with a sample at every last position keyframe: whatever the world and the
    solver step do, [calculateAllFrames] does not throw and publishes exactly
    [N + 1] snapshots, the composition frames 0 to [N] in order, each one
    frame duration after the one before. *)
Theorem calculateAllFrames_publishes_every_frame
    (Engine_update : Engine -> Q -> Engine) (workarea : Q * Q) (compFramerate : Q)
    (comp : option Plan.CompositionData) (plan : option Plan.AnimationPlan)
    (N : Z) (engine0 : Engine) :
  planAtLastKey plan ->
  (0 < compFramerate)%Q -> (compFramerate <= 50)%Q ->
  0 <= N ->
  (workareaDurationSeconds workarea * compFramerate == inject_Z N)%Q ->
  exists fs,
    calculateAllFrames Engine_update workarea compFramerate comp plan engine0 = Some fs /\
    map time fs = frameTimes workarea compFramerate (Z.to_nat N) /\
    List.length fs = S (Z.to_nat N).
Proof.
intros Hs Hpos H50 HN Hwhole.
assert (Hrun : exists fs,
  calculateAllFrames Engine_update workarea compFramerate comp plan engine0 = Some fs).
{ unfold calculateAllFrames.
  match goal with
  | |- context [loop _ _ _ _ _ ?n ?p ?st] =>
      destruct (loop_total Engine_update workarea compFramerate comp plan n p st Hs)
        as [st' E]; rewrite E
  end.
  eexists. reflexivity. }
destruct Hrun as [fs Hrun]. exists fs. split; [exact Hrun|].
pose proof (calculateAllFrames_complete_upto_50fps Engine_update workarea compFramerate
              comp plan N engine0 fs Hpos H50 HN Hwhole Hrun) as Ht.
split; [exact Ht|].
rewrite <- (length_map time), Ht. unfold frameTimes.
cbn [List.length]. rewrite length_map, length_seq. reflexivity.
Qed.

(** One second at 25 frames per second, an empty world and a solver that
    only advances the clock: 26 snapshots. *)
Lemma calculateAllFrames_publishes_every_frame_witness :
  exists fs,
    calculateAllFrames tickClock (0, 1)%Q 25 None
      (Some (Plan.buildAnimationPlan None None)) emptyEngine = Some fs /\
    map time fs = frameTimes (0, 1)%Q 25 (Z.to_nat 25) /\
    List.length fs = S (Z.to_nat 25).
Proof.
apply (calculateAllFrames_publishes_every_frame tickClock (0, 1)%Q 25 None
         (Some (Plan.buildAnimationPlan None None)) 25 emptyEngine).
- intros layerId lp s H. discriminate H.
- reflexivity.
- discriminate.
- lia.
- reflexivity.
Defined.

End Completion.

(* ------------------------------------------------------------------ *)
(** ** The layers of the plan *)

Section PlanLayers.

Import Plan Planned.

Lemma lookup_assign (k k' : Z) (p : LayerPlan) (m : list (Z * LayerPlan)) :
  lookup k (assign k' p m) = if k =? k' then Some p else lookup k m.
Proof.
induction m as [|[k0 p0] m IH]; cbn [assign lookup].
- reflexivity.
- destruct (Z.eqb_spec k' k0) as [->|Hne]; cbn [lookup].
  + destruct (k =? k0); reflexivity.
  + destruct (Z.eqb_spec k k0) as [->|Hne'].
    * destruct (Z.eqb_spec k0 k'); [congruence | reflexivity].
    * exact IH.
Qed.

Lemma planStep_layers (st : Z * list (Z * LayerPlan)) (id : Z) (l : Layer) (k : Z) :
  lookup k (snd (planStep st (id, l)))
  = if k =? id then match entry l with Some p => Some p | None => lookup k (snd st) end
    else lookup k (snd st).
Proof.
destruct st as [m acc]. unfold planStep, entry. cbn [snd].
destruct (animatedProperties l) as [ap|]; cbn [snd].
- destruct (nonEmpty (planLayer l ap)); cbn [snd].
  + rewrite lookup_assign. destruct (k =? id); reflexivity.
  + destruct (k =? id); reflexivity.
- destruct (k =? id); reflexivity.
Qed.

Lemma lookup_None_notin {A : Type} (k : Z) (m : list (Z * A)) :
  ~ In k (map fst m) -> lookup k m = None.
Proof.
induction m as [|[k0 a] m IH]; [reflexivity|]. cbn [map fst In lookup]. intro H.
destruct (Z.eqb_spec k k0) as [->|_]; [exfalso; apply H; left; reflexivity|].
apply IH. intro Hin. apply H. right. exact Hin.
Qed.

Lemma fold_planStep_layers (ls : list (Z * Layer)) (st : Z * list (Z * LayerPlan)) (k : Z) :
  NoDup (map fst ls) ->
  lookup k (snd (fold_left planStep ls st))
  = match lookup k ls with
    | Some l => match entry l with Some p => Some p | None => lookup k (snd st) end
    | None => lookup k (snd st)
    end.
Proof.
revert st. induction ls as [|[id l] ls IH]; intros st Hnd; [reflexivity|].
inversion Hnd as [|? ? Hnotin Hnd']; subst. cbn [fold_left lookup].
rewrite (IH _ Hnd'). rewrite planStep_layers.
destruct (Z.eqb_spec k id) as [->|Hne].
- rewrite (lookup_None_notin id ls Hnotin). reflexivity.
- reflexivity.
Qed.

(** X22.  The layers of the plan are exactly the animated layers of the
    selected composition: looking a layer id up in the plan built by
    [buildAnimationPlan] gives the entry of the layer of that id when the
    composition has one with at least one series that has a last keyframe,
    and nothing otherwise - nothing for an unknown id, for a layer without
    animated properties, and for a layer whose series all lack a last
    keyframe.  The layer ids of a composition are the keys of an object, so
    no two layers share one. *)
Theorem buildAnimationPlan_layers (compId : Z) (data : ProjectCompositions)
    (comp : CompositionData) (layerId : Z) :
  selected (Some compId) (Some data) = Some comp ->
  NoDup (map fst (layers comp)) ->
  lookup layerId (plan_layers (buildAnimationPlan (Some compId) (Some data)))
  = match lookup layerId (layers comp) with
    | Some l => entry l
    | None => None
    end.
Proof.
intros Hsel Hnd. unfold buildAnimationPlan. rewrite Hsel.
destruct (fold_left planStep (layers comp) (-1, [])) as [m acc] eqn:E.
cbn [plan_layers].
change acc with (snd (m, acc)). rewrite <- E.
rewrite (fold_planStep_layers _ _ _ Hnd). cbn [snd lookup].
destruct (lookup layerId (layers comp)) as [l|]; [|reflexivity].
destruct (entry l); reflexivity.
Qed.

(** A composition with a layer keyed in position and a layer whose only
    series has no last keyframe: the plan has the first and not the second. *)
Lemma buildAnimationPlan_layers_witness :
  let comp := layersOnly [(1, positionOnlyLayer "Shape Layer 1" 3); (2, unkeyed)] in
  lookup 1 (plan_layers (buildAnimationPlan (Some 7) (Some [(7, comp)])))
  = entry (positionOnlyLayer "Shape Layer 1" 3) /\
  lookup 2 (plan_layers (buildAnimationPlan (Some 7) (Some [(7, comp)]))) = None.
Proof.
intro comp.
assert (Hnd : NoDup (map fst (layers comp))).
{ cbn. constructor; [intros [H|[]]; discriminate H|]. constructor; [intros []|constructor]. }
split.
- exact (buildAnimationPlan_layers 7 [(7, comp)] comp 1 eq_refl Hnd).
- exact (buildAnimationPlan_layers 7 [(7, comp)] comp 2 eq_refl Hnd).
Defined.

End PlanLayers.

(* ------------------------------------------------------------------ *)
(** ** The shapes handed to the physics engine *)

Section ShapeFacts.

Import Geometry.


Lemma validSet_finiteAll (part : list RawPoint) :
  validSet part = true ->
  exists ps, finiteAll part = Some ps /\ (3 <= List.length ps)%nat.
Proof.
unfold validSet. intro H. apply andb_prop in H. destruct H as [Hlen Hall].
apply Nat.leb_le in Hlen.
assert (Hfin : exists ps, finiteAll part = Some ps).
{ clear Hlen. induction part as [|v part IH]; [exists []; reflexivity|].
  cbn [forallb] in Hall. apply andb_prop in Hall. destruct Hall as [Hv Hrest].
  destruct (IH Hrest) as [ps Eps]. cbn [finiteAll]. rewrite Eps.
  destruct v as [[a| | |] [b| | |]]; try discriminate Hv.
  eexists. reflexivity. }
destruct Hfin as [ps Eps]. exists ps. split; [exact Eps|].
rewrite (finiteAll_length _ _ Eps). exact Hlen.
Qed.

(** X24.  Every part [decomposeConcaveShape] returns is a polygon: it has
    at least 3 vertices, for every input and whatever the decomposition of
    the library returns, be it parts of fewer than 3 points or parts with
    coordinates that are not finite, which are dropped. *)
Theorem decomposeConcaveShape_parts_are_polygons
    (quickDecomp : list Point -> list (list RawPoint)) (vertices : list RawPoint) :
  Forall (fun part => (3 <= List.length part)%nat)
         (decomposeConcaveShape quickDecomp vertices).
Proof.
unfold decomposeConcaveShape.
destruct (List.length vertices <? 3)%nat; [constructor|].
destruct (finiteAll vertices) as [vs|]; [|constructor].
set (points := makeCCW _).
destruct (isSimple points).
- assert (Hall : Forall (fun part => validSet part = true)
                        (filter validSet (quickDecomp points))).
  { apply Forall_forall. intros part Hin. apply filter_In in Hin. exact (proj2 Hin). }
  destruct (filter validSet (quickDecomp points)) as [|part0 parts] eqn:E; [constructor|].
  revert Hall. generalize (part0 :: parts). clear E part0 parts.
  intros valid Hall. induction Hall as [|part valid Hpart _ IH]; [constructor|].
  cbn [fold_right]. destruct (validSet_finiteAll part Hpart) as (ps & -> & Hlen).
  constructor; [exact Hlen | exact IH].
- destruct (Nat.ltb_spec (List.length (computeConvexHull points)) 3); [constructor|].
  constructor; [assumption | constructor].
Qed.

(** X25.  What [combineVertices] returns can be used as it is: for every
    input the result is empty or it is one of the vertex sets given, with at
    least 3 vertices, all of finite coordinates. *)
Theorem combineVertices_valid_or_empty (setsOfVertices : list (list RawPoint)) :
  combineVertices setsOfVertices = [] \/
  (In (combineVertices setsOfVertices) setsOfVertices /\
   validSet (combineVertices setsOfVertices) = true).
Proof.
unfold combineVertices.
destruct setsOfVertices as [|vertices [|second more]].
- left. reflexivity.
- destruct (Nat.ltb_spec (List.length vertices) 3) as [|Hlen]; [left; reflexivity|].
  destruct (existsb (fun v => negb (validVertex v)) vertices) eqn:E; [left; reflexivity|].
  right. split; [left; reflexivity|].
  unfold validSet. apply andb_true_intro. split; [apply Nat.leb_le; exact Hlen|].
  apply forallb_forall. intros v Hv.
  destruct (validVertex v) eqn:Ev; [reflexivity|].
  assert (existsb (fun v => negb (validVertex v)) vertices = true)
    by (apply existsb_exists; exists v; split; [exact Hv | rewrite Ev; reflexivity]).
  congruence.
- destruct (filter validSet (vertices :: second :: more)) as [|first rest] eqn:E;
    [left; reflexivity|].
  right.
  assert (Hin : In first (filter validSet (vertices :: second :: more)))
    by (rewrite E; left; reflexivity).
  apply filter_In in Hin. exact Hin.
Qed.

End ShapeFacts.

